(** * The ramdump character device (drivers/soc/qcom/ramdump.c)

    A shallow embedding of the producer side ([_do_ramdump], [_do_minidump])
    and of the consumer side ([ramdump_open], [ramdump_release],
    [ramdump_read], [offset_translate]) of the ramdump device, together
    with the properties the design document states about them.

    Conventions.  C integers are [Z] with the wrap-around of their width
    written out ([u64] for [unsigned long] and [size_t] on arm64, [u32]
    for [unsigned int] and the ELF32 words, [s32] for [int] and
    [atomic_t]).  Kernel pointers are [Z] addresses, [0] being [NULL].
    Every file operation runs as one atomic step of the device state; the
    concurrency of producer and consumers is the interleaving of these
    steps ([event] lists).  What the kernel decides outside this file
    (allocation success, the mapping [dma_remap] returns, whether the
    user buffer is writable, pending signals) is an oracle of the call. *)

From Stdlib Require Import ZArith List Lia Bool String Ascii.
Import ListNotations.
Local Open Scope Z_scope.

(** ** Machine integers *)

Module Mach.

Definition u16 (x : Z) : Z := x mod 2 ^ 16.
Definition u32 (x : Z) : Z := x mod 2 ^ 32.
Definition u64 (x : Z) : Z := x mod 2 ^ 64.
Definition s32 (x : Z) : Z := (x + 2 ^ 31) mod 2 ^ 32 - 2 ^ 31.

End Mach.
Import Mach.

(** ** Constants *)

Definition RAMDUMP_WAIT_MSECS : Z := 120000.
Definition MAX_STRTBL_SIZE : Z := 512.
Definition MAX_NAME_LENGTH : Z := 16.
(** [SZ_1M] of linux/sizes.h. *)
Definition MAX_IOREMAP_SIZE : Z := 1048576.

(** errno values of the kernel's errno headers. *)
Definition EAGAIN : Z := 11.
Definition ENOMEM : Z := 12.
Definition EFAULT : Z := 14.
Definition EPIPE : Z := 32.
Definition ETIME : Z := 62.
Definition ERESTARTSYS : Z := 512.

(** ** Data *)

(** [struct ramdump_segment] (soc/qcom/ramdump.h): [name] and [v_address]
    may be [NULL]; [address] and [size] are [unsigned long]. *)
Record ramdump_segment := {
  name : option string;
  address : Z;
  v_address : Z;
  size : Z
}.

Definition set_size (s : ramdump_segment) (n : Z) : ramdump_segment :=
  {| name := name s; address := address s; v_address := v_address s;
     size := n |}.

(** [struct consumer_entry].  [handle] stands for the identity of the
    entry, the pointer kept in [filep->private_data]. *)
Record consumer_entry := {
  handle : nat;
  data_ready : bool
}.

(** ELF32 structures of linux/elf.h, with the fields the file writes. *)
Module Elf32.

Record Ehdr := {
  e_ident : list Z;
  e_type : Z;
  e_machine : Z;
  e_version : Z;
  e_entry : Z;
  e_phoff : Z;
  e_shoff : Z;
  e_flags : Z;
  e_ehsize : Z;
  e_phentsize : Z;
  e_phnum : Z;
  e_shentsize : Z;
  e_shnum : Z;
  e_shstrndx : Z
}.

Record Phdr := {
  p_type : Z;
  p_offset : Z;
  p_vaddr : Z;
  p_paddr : Z;
  p_filesz : Z;
  p_memsz : Z;
  p_flags : Z;
  p_align : Z
}.

(** [sizeof(Elf32_Ehdr)] and [sizeof(Elf32_Phdr)]. *)
Definition sizeof_Ehdr : Z := 52.
Definition sizeof_Phdr : Z := 32.

End Elf32.

(** The native ELF structures ([struct elfhdr], [struct elf_shdr]): ELF64
    on arm64. *)
Module Elf64.

Record Ehdr := {
  e_ident : list Z;
  e_type : Z;
  e_machine : Z;
  e_version : Z;
  e_entry : Z;
  e_phoff : Z;
  e_shoff : Z;
  e_flags : Z;
  e_ehsize : Z;
  e_phentsize : Z;
  e_phnum : Z;
  e_shentsize : Z;
  e_shnum : Z;
  e_shstrndx : Z
}.

Record Shdr := {
  sh_name : Z;
  sh_type : Z;
  sh_flags : Z;
  sh_addr : Z;
  sh_offset : Z;
  sh_size : Z;
  sh_link : Z;
  sh_info : Z;
  sh_addralign : Z;
  sh_entsize : Z
}.

Definition sizeof_Ehdr : Z := 64.
Definition sizeof_Shdr : Z := 64.

End Elf64.

(** ELF constants of uapi/linux/elf.h. *)
Definition ELFMAG : list Z := [127; 69; 76; 70].
Definition ELFCLASS32 : Z := 1.
Definition ELFCLASS64 : Z := 2.
Definition ELFDATA2LSB : Z := 1.
Definition EV_CURRENT : Z := 1.
Definition ELFOSABI_NONE : Z := 0.
Definition ET_CORE : Z := 4.
Definition PT_LOAD : Z := 1.
Definition PF_X : Z := 1.
Definition PF_W : Z := 2.
Definition PF_R : Z := 4.
Definition SHT_PROGBITS : Z := 1.
Definition SHT_STRTAB : Z := 3.
Definition SHF_WRITE : Z := 1.
(** arch/arm64/include/asm/elf.h. *)
Definition ELF_CLASS : Z := ELFCLASS64.
Definition ELF_DATA : Z := ELFDATA2LSB.
Definition ELF_OSABI : Z := 0.
Definition ELF_ARCH : Z := 183.

(** The buffer behind [elfcore_buf], seen through the struct pointers the
    file writes it with: the ELF32 core header of [_do_ramdump] or the
    section header block of [_do_minidump], whose last [MAX_STRTBL_SIZE]
    bytes are the string table. *)
Inductive elfcore :=
| Elf32Core (ehdr : Elf32.Ehdr) (phdrs : list Elf32.Phdr)
| SectionCore (ehdr : Elf64.Ehdr) (shdrs : list Elf64.Shdr)
              (strtab : list ascii).

(** [struct ramdump_device].  Left out: [name] (used for logging only),
    the locks, [cdev], [dev], the wait queue and [attrs] (written before
    each [dma_remap] and read nowhere else).  [ramdump_complete] is the
    [done] counter of the completion; [segments] is the pointer to the
    caller's array, [None] for [NULL]. *)
Record ramdump_device := {
  consumers : Z;
  readers_left : Z;
  ramdump_status : Z;
  ramdump_complete : Z;
  consumer_list : list consumer_entry;
  nsegments : Z;
  segments : option (list ramdump_segment);
  elfcore_size : Z;
  elfcore_buf : option elfcore;
  complete_ramdump : bool;
  abort_ramdump : bool
}.

(** The device [create_ramdump_device] returns: [kzalloc]ed, so every
    field is zero. *)
Definition create_ramdump_device (complete : bool) : ramdump_device :=
  {| consumers := 0; readers_left := 0; ramdump_status := 0;
     ramdump_complete := 0; consumer_list := []; nsegments := 0;
     segments := None; elfcore_size := 0; elfcore_buf := None;
     complete_ramdump := complete; abort_ramdump := false |}.

Definition set_consumers (rd : ramdump_device) (n : Z)
    (l : list consumer_entry) : ramdump_device :=
  {| consumers := n; readers_left := readers_left rd;
     ramdump_status := ramdump_status rd;
     ramdump_complete := ramdump_complete rd; consumer_list := l;
     nsegments := nsegments rd; segments := segments rd;
     elfcore_size := elfcore_size rd; elfcore_buf := elfcore_buf rd;
     complete_ramdump := complete_ramdump rd;
     abort_ramdump := abort_ramdump rd |}.

Definition set_readers_left (rd : ramdump_device) (n done : Z)
    : ramdump_device :=
  {| consumers := consumers rd; readers_left := n;
     ramdump_status := ramdump_status rd; ramdump_complete := done;
     consumer_list := consumer_list rd; nsegments := nsegments rd;
     segments := segments rd; elfcore_size := elfcore_size rd;
     elfcore_buf := elfcore_buf rd;
     complete_ramdump := complete_ramdump rd;
     abort_ramdump := abort_ramdump rd |}.

Definition set_ramdump_status (rd : ramdump_device) (st : Z)
    : ramdump_device :=
  {| consumers := consumers rd; readers_left := readers_left rd;
     ramdump_status := st; ramdump_complete := ramdump_complete rd;
     consumer_list := consumer_list rd; nsegments := nsegments rd;
     segments := segments rd; elfcore_size := elfcore_size rd;
     elfcore_buf := elfcore_buf rd;
     complete_ramdump := complete_ramdump rd;
     abort_ramdump := abort_ramdump rd |}.

Definition set_segments (rd : ramdump_device)
    (segs : option (list ramdump_segment)) (n : Z) : ramdump_device :=
  {| consumers := consumers rd; readers_left := readers_left rd;
     ramdump_status := ramdump_status rd;
     ramdump_complete := ramdump_complete rd;
     consumer_list := consumer_list rd; nsegments := n; segments := segs;
     elfcore_size := elfcore_size rd; elfcore_buf := elfcore_buf rd;
     complete_ramdump := complete_ramdump rd;
     abort_ramdump := abort_ramdump rd |}.

Definition set_elfcore (rd : ramdump_device) (sz : Z)
    (buf : option elfcore) : ramdump_device :=
  {| consumers := consumers rd; readers_left := readers_left rd;
     ramdump_status := ramdump_status rd;
     ramdump_complete := ramdump_complete rd;
     consumer_list := consumer_list rd; nsegments := nsegments rd;
     segments := segments rd; elfcore_size := sz; elfcore_buf := buf;
     complete_ramdump := complete_ramdump rd;
     abort_ramdump := abort_ramdump rd |}.

Definition set_abort_ramdump (rd : ramdump_device) (b : bool)
    : ramdump_device :=
  {| consumers := consumers rd; readers_left := readers_left rd;
     ramdump_status := ramdump_status rd;
     ramdump_complete := ramdump_complete rd;
     consumer_list := consumer_list rd; nsegments := nsegments rd;
     segments := segments rd; elfcore_size := elfcore_size rd;
     elfcore_buf := elfcore_buf rd;
     complete_ramdump := complete_ramdump rd; abort_ramdump := b |}.

(** ** The byte image of the header buffer

    [ramdump_read] copies [elfcore_buf + *pos] to the user: the structs in
    their little-endian layout, one after the other. *)

Fixpoint le_bytes (n : nat) (v : Z) : list Z :=
  match n with
  | O => []
  | S n' => v mod 256 :: le_bytes n' (v / 256)
  end.

Definition ident_bytes (id : list Z) : list Z := firstn 16 (id ++ repeat 0 16).

Definition ehdr32_bytes (e : Elf32.Ehdr) : list Z :=
  ident_bytes (Elf32.e_ident e) ++ le_bytes 2 (Elf32.e_type e)
  ++ le_bytes 2 (Elf32.e_machine e) ++ le_bytes 4 (Elf32.e_version e)
  ++ le_bytes 4 (Elf32.e_entry e) ++ le_bytes 4 (Elf32.e_phoff e)
  ++ le_bytes 4 (Elf32.e_shoff e) ++ le_bytes 4 (Elf32.e_flags e)
  ++ le_bytes 2 (Elf32.e_ehsize e) ++ le_bytes 2 (Elf32.e_phentsize e)
  ++ le_bytes 2 (Elf32.e_phnum e) ++ le_bytes 2 (Elf32.e_shentsize e)
  ++ le_bytes 2 (Elf32.e_shnum e) ++ le_bytes 2 (Elf32.e_shstrndx e).

Definition phdr32_bytes (p : Elf32.Phdr) : list Z :=
  le_bytes 4 (Elf32.p_type p) ++ le_bytes 4 (Elf32.p_offset p)
  ++ le_bytes 4 (Elf32.p_vaddr p) ++ le_bytes 4 (Elf32.p_paddr p)
  ++ le_bytes 4 (Elf32.p_filesz p) ++ le_bytes 4 (Elf32.p_memsz p)
  ++ le_bytes 4 (Elf32.p_flags p) ++ le_bytes 4 (Elf32.p_align p).

Definition ehdr64_bytes (e : Elf64.Ehdr) : list Z :=
  ident_bytes (Elf64.e_ident e) ++ le_bytes 2 (Elf64.e_type e)
  ++ le_bytes 2 (Elf64.e_machine e) ++ le_bytes 4 (Elf64.e_version e)
  ++ le_bytes 8 (Elf64.e_entry e) ++ le_bytes 8 (Elf64.e_phoff e)
  ++ le_bytes 8 (Elf64.e_shoff e) ++ le_bytes 4 (Elf64.e_flags e)
  ++ le_bytes 2 (Elf64.e_ehsize e) ++ le_bytes 2 (Elf64.e_phentsize e)
  ++ le_bytes 2 (Elf64.e_phnum e) ++ le_bytes 2 (Elf64.e_shentsize e)
  ++ le_bytes 2 (Elf64.e_shnum e) ++ le_bytes 2 (Elf64.e_shstrndx e).

Definition shdr64_bytes (s : Elf64.Shdr) : list Z :=
  le_bytes 4 (Elf64.sh_name s) ++ le_bytes 4 (Elf64.sh_type s)
  ++ le_bytes 8 (Elf64.sh_flags s) ++ le_bytes 8 (Elf64.sh_addr s)
  ++ le_bytes 8 (Elf64.sh_offset s) ++ le_bytes 8 (Elf64.sh_size s)
  ++ le_bytes 4 (Elf64.sh_link s) ++ le_bytes 4 (Elf64.sh_info s)
  ++ le_bytes 8 (Elf64.sh_addralign s) ++ le_bytes 8 (Elf64.sh_entsize s).

Definition char_byte (c : ascii) : Z := Z.of_N (N_of_ascii c).

Definition elfcore_bytes (h : elfcore) : list Z :=
  match h with
  | Elf32Core e ps => ehdr32_bytes e ++ flat_map phdr32_bytes ps
  | SectionCore e ss tab =>
      ehdr64_bytes e ++ flat_map shdr64_bytes ss ++ map char_byte tab
  end.

(** ** Consumer side *)

Definition entry_ready (h : nat) (l : list consumer_entry) : bool :=
  existsb (fun e => Nat.eqb (handle e) h && data_ready e) l.

Definition set_data_ready (h : nat) (b : bool) (l : list consumer_entry)
    : list consumer_entry :=
  map (fun e => if Nat.eqb (handle e) h
                then {| handle := handle e; data_ready := b |} else e) l.

Definition list_del (h : nat) (l : list consumer_entry)
    : list consumer_entry :=
  filter (fun e => negb (Nat.eqb (handle e) h)) l.

(** [kzalloc_ok] is whether the entry could be allocated, [h] the entry
    the allocator returned. *)
Definition ramdump_open (kzalloc_ok : bool) (h : nat) (rd : ramdump_device)
    : Z * ramdump_device :=
  if negb kzalloc_ok then (- ENOMEM, rd)
  else
    let rd := set_consumers rd (u32 (consumers rd + 1)) (consumer_list rd) in
    let rd := set_ramdump_status rd 0 in
    let rd := set_consumers rd (consumers rd)
                (consumer_list rd ++ [{| handle := h; data_ready := false |}]) in
    (0, rd).

Definition reset_ramdump_entry (h : nat) (rd : ramdump_device)
    : ramdump_device :=
  let rd := set_consumers rd (consumers rd)
              (set_data_ready h false (consumer_list rd)) in
  let n := s32 (readers_left rd - 1) in
  set_readers_left rd n
    (if n =? 0 then ramdump_complete rd + 1 else ramdump_complete rd).

Definition ramdump_release (h : nat) (rd : ramdump_device)
    : Z * ramdump_device :=
  let rd := if entry_ready h (consumer_list rd)
            then reset_ramdump_entry h rd else rd in
  let rd := set_consumers rd (u32 (consumers rd - 1)) (consumer_list rd) in
  let rd := set_consumers rd (consumers rd) (list_del h (consumer_list rd)) in
  (0, rd).

Definition segments_of (rd : ramdump_device) : list ramdump_segment :=
  match segments rd with
  | Some l => firstn (Z.to_nat (nsegments rd)) l
  | None => []
  end.

(** The [for] loop of [offset_translate]: the index and the offset it
    stops at. *)
Fixpoint offset_translate_loop (segs : list ramdump_segment) (i : nat)
    (user_offset : Z) : nat * Z :=
  match segs with
  | [] => (i, user_offset)
  | s :: rest =>
      if size s <=? user_offset
      then offset_translate_loop rest (S i) (u64 (user_offset - size s))
      else (i, user_offset)
  end.

(** Returns the address, [*data_left] and [*vaddr]. *)
Definition offset_translate (user_offset : Z) (rd : ramdump_device)
    : Z * Z * Z :=
  let '(i, user_offset) :=
    offset_translate_loop (segments_of rd) 0 user_offset in
  match nth_error (segments_of rd) i with
  | None => (0, 0, 0)
  | Some s =>
      (u64 (address s + user_offset), u64 (size s - user_offset),
       if v_address s =? 0 then 0 else u64 (v_address s + user_offset))
  end.

(** *** The copy out of device memory

    [vmem] is the kernel's view of memory, a byte per virtual address.
    The bounce buffer [vzalloc(copy_size)] is a list of [copy_size] zero
    bytes; [alignbuf] is an offset into it.  A [memcpy] whose destination
    range leaves the [copy_size] bytes that were asked for is an invalid
    access: the model stops there with [None]. *)

Section Copy.

Variable vmem : Z -> Z.

Definition mem_bytes (src n : Z) : list Z :=
  map (fun k => vmem (src + Z.of_nat k)) (seq 0 (Z.to_nat n)).

Definition memcpy (buf : list Z) (dst src n : Z) : option (list Z) :=
  if (0 <=? dst) && (dst + n <=? Z.of_nat (List.length buf))
  then Some (firstn (Z.to_nat dst) buf ++ mem_bytes src n
             ++ skipn (Z.to_nat (dst + n)) buf)
  else None.

Definition memcpy_fromio := memcpy.

(** Lines 240-259 of [ramdump_read]; the result is [finalbuf]. *)
Definition three_phase_copy (device_mem copy_size : Z) : option (list Z) :=
  let finalbuf := repeat 0 (Z.to_nat copy_size) in
  let alignsize := copy_size in
  let phase1 :=
    if negb (Z.land device_mem 7 =? 0) then
      let bytes_before := 8 - Z.land device_mem 7 in
      match memcpy_fromio finalbuf 0 device_mem bytes_before with
      | None => None
      | Some buf =>
          Some (buf, device_mem + bytes_before, bytes_before,
                u64 (alignsize - bytes_before))
      end
    else Some (finalbuf, device_mem, 0, alignsize) in
  match phase1 with
  | None => None
  | Some (buf, device_mem, alignbuf, alignsize) =>
      if negb (Z.land alignsize 7 =? 0) then
        let bytes_after := Z.land alignsize 7 in
        match memcpy buf alignbuf device_mem (alignsize - bytes_after) with
        | None => None
        | Some buf =>
            memcpy_fromio buf (alignbuf + (alignsize - bytes_after))
              (device_mem + (alignsize - bytes_after)) bytes_after
        end
      else memcpy buf alignbuf device_mem alignsize
  end.

(** The plain bulk copy the three phases stand for. *)
Definition plain_copy (device_mem copy_size : Z) : option (list Z) :=
  Some (mem_bytes device_mem copy_size).

End Copy.

(** *** [ramdump_read] *)

(** What the rest of the kernel decides for one call of [ramdump_read]. *)
Record read_env := {
  f_nonblock : bool;                 (* filep->f_flags & O_NONBLOCK *)
  signal_pending : bool;             (* the sleep is interrupted *)
  vmem : Z -> Z;                     (* kernel virtual memory *)
  dma_remap : Z -> Z -> Z;           (* address, size: mapping or NULL *)
  vzalloc : Z -> bool;               (* size: allocation succeeds *)
  copy_to_user_hdr : bool;           (* line 191 copies everything *)
  copy_to_user_data : bool           (* line 261 copies everything *)
}.

Inductive read_outcome :=
| RdReturn (ret : Z)     (* the value returned to the caller *)
| RdBlocked              (* asleep on dump_wait_q *)
| RdOops.                (* invalid memory access in the kernel *)

(** [rr_pos] is [*pos] after the call, [rr_user] the bytes written to the
    user buffer, from its start. *)
Record read_result := {
  rr_out : read_outcome;
  rr_pos : Z;
  rr_user : list Z;
  rr_dev : ramdump_device
}.

(** The [ramdump_done] label. *)
Definition ramdump_done (h : nat) (rd : ramdump_device) (ret : Z)
    (user : list Z) : read_result :=
  {| rr_out := RdReturn ret; rr_pos := 0; rr_user := user;
     rr_dev := reset_ramdump_entry h rd |}.

(** Lines 204-280: the read out of the segment at [*pos]. *)
Definition ramdump_read_segment (env : read_env) (h : nat)
    (count pos orig_pos : Z) (user : list Z) (rd : ramdump_device)
    : read_result :=
  let '(addr, data_left, vaddr) :=
    offset_translate (u64 (pos - elfcore_size rd)) rd in
  if data_left =? 0 then ramdump_done h (set_ramdump_status rd 0) 0 user
  else
    let copy_size := Z.min count MAX_IOREMAP_SIZE in
    let copy_size := Z.min copy_size data_left in
    let device_mem :=
      if negb (vaddr =? 0) then vaddr else dma_remap env addr copy_size in
    if device_mem =? 0
    then ramdump_done h (set_ramdump_status rd (-1)) (- ENOMEM) user
    else if negb (vzalloc env copy_size)
    then ramdump_done h (set_ramdump_status rd (-1)) (- ENOMEM) user
    else
      match three_phase_copy (vmem env) device_mem copy_size with
      | None => {| rr_out := RdOops; rr_pos := pos; rr_user := user;
                   rr_dev := rd |}
      | Some finalbuf =>
          if negb (copy_to_user_data env)
          then ramdump_done h (set_ramdump_status rd (-1)) (- EFAULT) user
          else {| rr_out := RdReturn (pos + copy_size - orig_pos);
                  rr_pos := pos + copy_size;
                  rr_user := user ++ finalbuf; rr_dev := rd |}
      end.

(** [elfcore_buf + pos], [copy_size] bytes: [None] when that dereferences
    [NULL]. *)
Definition elfcore_read (rd : ramdump_device) (pos copy_size : Z)
    : option (list Z) :=
  if copy_size =? 0 then Some []
  else match elfcore_buf rd with
       | None => None
       | Some hdr =>
           Some (firstn (Z.to_nat copy_size)
                   (skipn (Z.to_nat pos) (elfcore_bytes hdr)))
       end.

(** Lines 187-280: the read of a ready consumer, out of the header first
    and then out of a segment. *)
Definition ramdump_read_stream (env : read_env) (h : nat) (count pos : Z)
    (rd : ramdump_device) : read_result :=
  if pos <? elfcore_size rd then
    let copy_size := u64 (elfcore_size rd - pos) in
    let copy_size := Z.min copy_size count in
    match elfcore_read rd pos copy_size with
    | None => {| rr_out := RdOops; rr_pos := pos; rr_user := [];
                 rr_dev := rd |}
    | Some bytes =>
        if negb (copy_to_user_hdr env) then ramdump_done h rd (- EFAULT) []
        else
          if count - copy_size =? 0 then
            {| rr_out := RdReturn copy_size; rr_pos := pos + copy_size;
               rr_user := bytes; rr_dev := rd |}
          else
            ramdump_read_segment env h (count - copy_size)
              (pos + copy_size) pos bytes rd
    end
  else ramdump_read_segment env h count pos pos [] rd.

(** [h] is the entry of the file, [count] and [pos] the arguments
    ([0 <= pos], as the VFS checks before it calls). *)
Definition ramdump_read (env : read_env) (h : nat) (count pos : Z)
    (rd : ramdump_device) : read_result :=
  let unchanged out :=
    {| rr_out := out; rr_pos := pos; rr_user := []; rr_dev := rd |} in
  let ready := entry_ready h (consumer_list rd) in
  if f_nonblock env && negb ready then unchanged (RdReturn (- EAGAIN))
  else if negb (ready || abort_ramdump rd) then
    if signal_pending env then unchanged (RdReturn (- ERESTARTSYS))
    else unchanged RdBlocked
  else if abort_ramdump rd then
    ramdump_done h (set_ramdump_status rd (-1)) (- ETIME) []
  else ramdump_read_stream env h count pos rd.

(** [ramdump_poll]: the mask is [POLLIN | POLLRDNORM] or [0]. *)
Definition ramdump_poll (h : nat) (rd : ramdump_device) : bool :=
  entry_ready h (consumer_list rd).

(** ** Interleavings

    The file operations other threads run while the producer is inside a
    dump call. *)
Inductive event :=
| EvOpen (kzalloc_ok : bool) (h : nat)
| EvRelease (h : nat)
| EvRead (env : read_env) (h : nat) (count pos : Z).

Definition run_event (ev : event) (rd : ramdump_device)
    : read_outcome * ramdump_device :=
  match ev with
  | EvOpen ok h => let '(r, rd') := ramdump_open ok h rd in (RdReturn r, rd')
  | EvRelease h => let '(r, rd') := ramdump_release h rd in (RdReturn r, rd')
  | EvRead env h count pos =>
      let r := ramdump_read env h count pos rd in (rr_out r, rr_dev r)
  end.

(** The device after the events and what each of them returned; [None]
    when one of them crashed the kernel. *)
Fixpoint run_events (evs : list event) (rd : ramdump_device)
    : option (list read_outcome * ramdump_device) :=
  match evs with
  | [] => Some ([], rd)
  | ev :: rest =>
      match run_event ev rd with
      | (RdOops, _) => None
      | (out, rd') =>
          match run_events rest rd' with
          | None => None
          | Some (outs, rd'') => Some (out :: outs, rd'')
          end
      end
  end.

(** ** Producer side *)

Definition null_segment : ramdump_segment :=
  {| name := None; address := 0; v_address := 0; size := 0 |}.

(** [segments[i].size = n], in the caller's array. *)
Fixpoint store_size (segs : list ramdump_segment) (i : nat) (n : Z)
    : list ramdump_segment :=
  match segs, i with
  | [], _ => []
  | s :: rest, O => set_size s n :: rest
  | s :: rest, S i' => s :: store_size rest i' n
  end.

(** One turn of the loop of lines 461-463. *)
Definition compact_step (segs : list ramdump_segment) (i : nat)
    : list ramdump_segment :=
  store_size segs i
    (u64 (address (nth (S i) segs null_segment)
          - address (nth i segs null_segment))).

Definition compact_segments (segs : list ramdump_segment) (nsegments : Z)
    : list ramdump_segment :=
  fold_left compact_step (seq 0 (Z.to_nat (nsegments - 1))) segs.

Definition elf32_ehdr (nsegments : Z) : Elf32.Ehdr :=
  {| Elf32.e_ident :=
       ELFMAG ++ [ELFCLASS32; ELFDATA2LSB; EV_CURRENT; ELFOSABI_NONE]
       ++ repeat 0 8;
     Elf32.e_type := ET_CORE; Elf32.e_machine := 0;
     Elf32.e_version := EV_CURRENT; Elf32.e_entry := 0;
     Elf32.e_phoff := Elf32.sizeof_Ehdr; Elf32.e_shoff := 0;
     Elf32.e_flags := 0; Elf32.e_ehsize := Elf32.sizeof_Ehdr;
     Elf32.e_phentsize := Elf32.sizeof_Phdr;
     Elf32.e_phnum := u16 nsegments; Elf32.e_shentsize := 0;
     Elf32.e_shnum := 0; Elf32.e_shstrndx := 0 |}.

(** The loop of lines 493-500; [offset] is the [unsigned long] running
    total. *)
Fixpoint fill_phdrs (segs : list ramdump_segment) (offset : Z)
    : list Elf32.Phdr :=
  match segs with
  | [] => []
  | s :: rest =>
      let phdr :=
        {| Elf32.p_type := PT_LOAD; Elf32.p_offset := u32 offset;
           Elf32.p_vaddr := u32 (address s);
           Elf32.p_paddr := u32 (address s);
           Elf32.p_filesz := u32 (size s); Elf32.p_memsz := u32 (size s);
           Elf32.p_flags := Z.lor (Z.lor PF_R PF_W) PF_X;
           Elf32.p_align := 0 |} in
      phdr :: fill_phdrs rest (u64 (offset + Elf32.p_filesz phdr))
  end.

(** Lines 503-509 and 638-644: the session starts for the consumers on the
    list. *)
Definition start_session (rd : ramdump_device) : ramdump_device :=
  let rd := set_consumers rd (consumers rd)
              (map (fun e => {| handle := handle e; data_ready := true |})
                   (consumer_list rd)) in
  let rd := set_ramdump_status rd (-1) in
  let rd := set_abort_ramdump rd false in
  set_readers_left rd (s32 (consumers rd)) 0.

(** The part of a dump call that runs under [consumer_lock]: it returns,
    or leaves the device prepared and goes to wait. *)
Inductive prepared :=
| PrepReturn (ret : Z) (rd : ramdump_device) (segs : list ramdump_segment)
| PrepOops
| PrepWait (rd : ramdump_device) (segs : list ramdump_segment).

(** Lines 453-513 of [_do_ramdump].  [segs] is the caller's array, returned
    as the call leaves it; [kzalloc_ok] is whether the header could be
    allocated. *)
Definition _do_ramdump_prepare (kzalloc_ok : bool) (rd : ramdump_device)
    (segs : list ramdump_segment) (use_elf complete_ramdump : bool)
    : prepared :=
  let nsegments := Z.of_nat (List.length segs) in
  if consumers rd =? 0 then PrepReturn (- EPIPE) rd segs
  else
    let segs :=
      if complete_ramdump then compact_segments segs nsegments else segs in
    let rd := set_segments rd (Some segs) nsegments in
    if use_elf then
      let sz := u64 (Elf32.sizeof_Ehdr + Elf32.sizeof_Phdr * nsegments) in
      if negb kzalloc_ok then PrepReturn (- ENOMEM) (set_elfcore rd sz None) segs
      else
        let buf := Elf32Core (elf32_ehdr nsegments) (fill_phdrs segs sz) in
        PrepWait (start_session (set_elfcore rd sz (Some buf))) segs
    else PrepWait (start_session rd) segs.

(** *** The section header block of [_do_minidump] *)

Definition zero_char : ascii := Ascii.zero.

(** Writes [cs] at offset [off] of the string table, which ends where the
    header buffer ends: [None] when the write leaves it. *)
Definition store_chars (strtab : list ascii) (off : Z) (cs : list ascii)
    : option (list ascii) :=
  if (0 <=? off)
     && (off + Z.of_nat (List.length cs) <=? Z.of_nat (List.length strtab))
  then Some (firstn (Z.to_nat off) strtab ++ cs
             ++ skipn (Z.to_nat off + List.length cs) strtab)
  else None.

(** [strlcpy(strtab + off, src, size)] of lib/string.c: copies at most
    [size - 1] characters and a terminator, returns [strlen(src)]. *)
Definition strlcpy (strtab : list ascii) (off : Z) (src : string) (sz : Z)
    : option (list ascii) * Z :=
  let ret := Z.of_nat (String.length src) in
  if sz =? 0 then (Some strtab, ret)
  else
    let len := if sz <=? ret then sz - 1 else ret in
    (store_chars strtab off
       (firstn (Z.to_nat len) (list_ascii_of_string src) ++ [zero_char]),
     ret).

(** Modelled from the spec: [elf_str_table] of linux/elf.h, which is not
    among the sources: the string table is the fixed 512-byte block that
    section [e_shstrndx] describes, and there is none when [e_shstrndx]
    is [SHN_UNDEF]. *)
Definition elf_str_table (ehdr : Elf64.Ehdr) (strtab : list ascii)
    : option (list ascii) :=
  if Elf64.e_shstrndx ehdr =? 0 then None else Some strtab.

(** Returns the string table, the name offset and [*strtable_idx]. *)
Definition set_section_name (nm : option string) (ehdr : Elf64.Ehdr)
    (strtab : list ascii) (strtable_idx : Z)
    : option (list ascii) * Z * Z :=
  let idx := strtable_idx in
  match elf_str_table ehdr strtab, nm with
  | None, _ | _, None => (Some strtab, 0, strtable_idx)
  | Some tab, Some nm =>
      let ret := idx in
      let '(tab', n) := strlcpy tab idx nm MAX_NAME_LENGTH in
      let idx := s32 (idx + n) in
      (tab', u32 ret, s32 (idx + 1))
  end.

Definition elf64_ehdr : Elf64.Ehdr :=
  {| Elf64.e_ident :=
       ELFMAG ++ [ELF_CLASS; ELF_DATA; EV_CURRENT; ELF_OSABI] ++ repeat 0 8;
     Elf64.e_type := ET_CORE; Elf64.e_machine := ELF_ARCH;
     Elf64.e_version := EV_CURRENT; Elf64.e_entry := 0;
     Elf64.e_phoff := 0; Elf64.e_shoff := Elf64.sizeof_Ehdr;
     Elf64.e_flags := 0; Elf64.e_ehsize := Elf64.sizeof_Ehdr;
     Elf64.e_phentsize := 0; Elf64.e_phnum := 0;
     Elf64.e_shentsize := Elf64.sizeof_Shdr; Elf64.e_shnum := 0;
     Elf64.e_shstrndx := 1 |}.

Definition set_e_shnum (e : Elf64.Ehdr) (n : Z) : Elf64.Ehdr :=
  {| Elf64.e_ident := Elf64.e_ident e; Elf64.e_type := Elf64.e_type e;
     Elf64.e_machine := Elf64.e_machine e;
     Elf64.e_version := Elf64.e_version e;
     Elf64.e_entry := Elf64.e_entry e; Elf64.e_phoff := Elf64.e_phoff e;
     Elf64.e_shoff := Elf64.e_shoff e; Elf64.e_flags := Elf64.e_flags e;
     Elf64.e_ehsize := Elf64.e_ehsize e;
     Elf64.e_phentsize := Elf64.e_phentsize e;
     Elf64.e_phnum := Elf64.e_phnum e;
     Elf64.e_shentsize := Elf64.e_shentsize e; Elf64.e_shnum := n;
     Elf64.e_shstrndx := Elf64.e_shstrndx e |}.

Definition null_shdr : Elf64.Shdr :=
  {| Elf64.sh_name := 0; Elf64.sh_type := 0; Elf64.sh_flags := 0;
     Elf64.sh_addr := 0; Elf64.sh_offset := 0; Elf64.sh_size := 0;
     Elf64.sh_link := 0; Elf64.sh_info := 0; Elf64.sh_addralign := 0;
     Elf64.sh_entsize := 0 |}.

(** The loop of lines 624-635: the section headers of the segments and
    the string table after it, [None] when a name was written past the
    end of the buffer. *)
Fixpoint fill_shdrs (ehdr : Elf64.Ehdr) (segs : list ramdump_segment)
    (offset : Z) (strtab : list ascii) (strtable_idx : Z)
    : option (list Elf64.Shdr * list ascii) :=
  match segs with
  | [] => Some ([], strtab)
  | s :: rest =>
      match set_section_name (name s) ehdr strtab strtable_idx with
      | (None, _, _) => None
      | (Some strtab, sh_name, strtable_idx) =>
          let shdr :=
            {| Elf64.sh_name := sh_name; Elf64.sh_type := SHT_PROGBITS;
               Elf64.sh_flags := SHF_WRITE; Elf64.sh_addr := address s;
               Elf64.sh_offset := offset; Elf64.sh_size := size s;
               Elf64.sh_link := 0; Elf64.sh_info := 0;
               Elf64.sh_addralign := 0; Elf64.sh_entsize := 0 |} in
          match fill_shdrs ehdr rest (u64 (offset + Elf64.sh_size shdr))
                  strtab strtable_idx with
          | None => None
          | Some (shdrs, strtab) => Some (shdr :: shdrs, strtab)
          end
      end
  end.

(** Lines 598-636: the header block for [segs]. *)
Definition minidump_header (segs : list ramdump_segment) (sz : Z)
    : option elfcore :=
  let nsegments := Z.of_nat (List.length segs) in
  let ehdr := elf64_ehdr in
  let strtbl_off :=
    u64 (Elf64.sizeof_Ehdr + Elf64.sizeof_Shdr * (nsegments + 2)) in
  let strtab := repeat zero_char (Z.to_nat MAX_STRTBL_SIZE) in
  match set_section_name (Some "STR_TBL"%string) ehdr strtab 1 with
  | (None, _, _) => None
  | (Some strtab, sh_name, strtable_idx) =>
      let strhdr :=
        {| Elf64.sh_name := sh_name; Elf64.sh_type := SHT_STRTAB;
           Elf64.sh_flags := 0; Elf64.sh_addr := 0;
           Elf64.sh_offset := strtbl_off; Elf64.sh_size := MAX_STRTBL_SIZE;
           Elf64.sh_link := 0; Elf64.sh_info := 0;
           Elf64.sh_addralign := 0; Elf64.sh_entsize := 0 |} in
      match fill_shdrs ehdr segs sz strtab strtable_idx with
      | None => None
      | Some (shdrs, strtab) =>
          Some (SectionCore (set_e_shnum ehdr (u16 (nsegments + 2)))
                  (null_shdr :: strhdr :: shdrs) strtab)
      end
  end.

(** Lines 579-648 of [_do_minidump]. *)
Definition _do_minidump_prepare (kzalloc_ok : bool) (rd : ramdump_device)
    (segs : list ramdump_segment) : prepared :=
  let nsegments := Z.of_nat (List.length segs) in
  if consumers rd =? 0 then PrepReturn (- EPIPE) rd segs
  else
    let rd := set_segments rd (Some segs) nsegments in
    let sz := u64 (Elf64.sizeof_Ehdr + Elf64.sizeof_Shdr * (nsegments + 2)
                   + MAX_STRTBL_SIZE) in
    if negb kzalloc_ok then PrepReturn (- ENOMEM) (set_elfcore rd sz None) segs
    else
      match minidump_header segs sz with
      | None => PrepOops
      | Some buf => PrepWait (start_session (set_elfcore rd sz (Some buf))) segs
      end.

(** *** The wait and the end of the call *)

(** What happens around one dump call: whether the header allocation
    succeeds, the operations of other threads while the producer sleeps
    in [wait_for_completion_timeout], and those while it sleeps in
    [synchronize_srcu] after a timeout. *)
Record dump_env := {
  kzalloc_ok : bool;
  during_wait : list event;
  during_sync : list event
}.

Inductive dump_outcome :=
| DumpReturn (ret : Z)
| DumpOops.

(** [dr_segments] is the caller's array after the call, [dr_log] what the
    operations of the other threads returned. *)
Record dump_result := {
  dr_out : dump_outcome;
  dr_dev : ramdump_device;
  dr_segments : list ramdump_segment;
  dr_log : list read_outcome
}.

(** Lines 531-534 and 666-669. *)
Definition free_elfcore (rd : ramdump_device) : ramdump_device :=
  let rd := set_elfcore rd 0 (elfcore_buf rd) in
  set_elfcore rd (elfcore_size rd) None.

(** Lines 516-534 and 651-669.  The wait returns nonzero exactly when the
    completion was signalled by the time the producer runs again. *)
Definition wait_and_finish (env : dump_env) (rd : ramdump_device)
    (segs : list ramdump_segment) : dump_result :=
  match run_events (during_wait env) rd with
  | None => {| dr_out := DumpOops; dr_dev := rd; dr_segments := segs;
               dr_log := [] |}
  | Some (log, rd) =>
      if 0 <? ramdump_complete rd then
        let rd := set_readers_left rd (readers_left rd)
                    (ramdump_complete rd - 1) in
        let ret := if ramdump_status rd =? 0 then 0 else - EPIPE in
        {| dr_out := DumpReturn ret; dr_dev := free_elfcore rd;
           dr_segments := segs; dr_log := log |}
      else
        let ret := - EPIPE in
        let rd := set_abort_ramdump rd true in
        match run_events (during_sync env) rd with
        | None => {| dr_out := DumpOops; dr_dev := rd; dr_segments := segs;
                     dr_log := log |}
        | Some (log', rd) =>
            {| dr_out := DumpReturn ret; dr_dev := free_elfcore rd;
               dr_segments := segs; dr_log := log ++ log' |}
        end
  end.

Definition finish_dump (env : dump_env) (p : prepared)
    (rd : ramdump_device) (segs : list ramdump_segment) : dump_result :=
  match p with
  | PrepReturn ret rd' segs' =>
      {| dr_out := DumpReturn ret; dr_dev := rd'; dr_segments := segs';
         dr_log := [] |}
  | PrepOops =>
      {| dr_out := DumpOops; dr_dev := rd; dr_segments := segs;
         dr_log := [] |}
  | PrepWait rd' segs' => wait_and_finish env rd' segs'
  end.

Definition _do_ramdump (env : dump_env) (rd : ramdump_device)
    (segs : list ramdump_segment) (use_elf complete_ramdump : bool)
    : dump_result :=
  finish_dump env
    (_do_ramdump_prepare (kzalloc_ok env) rd segs use_elf complete_ramdump)
    rd segs.

Definition _do_minidump (env : dump_env) (rd : ramdump_device)
    (segs : list ramdump_segment) : dump_result :=
  finish_dump env (_do_minidump_prepare (kzalloc_ok env) rd segs) rd segs.

Definition do_ramdump (env : dump_env) (rd : ramdump_device)
    (segs : list ramdump_segment) : dump_result :=
  _do_ramdump env rd segs false (complete_ramdump rd).

Definition do_minidump (env : dump_env) (rd : ramdump_device)
    (segs : list ramdump_segment) : dump_result :=
  _do_minidump env rd segs.

Definition do_minidump_elf32 (env : dump_env) (rd : ramdump_device)
    (segs : list ramdump_segment) : dump_result :=
  _do_ramdump env rd segs true false.

Definition do_elf_ramdump (env : dump_env) (rd : ramdump_device)
    (segs : list ramdump_segment) : dump_result :=
  _do_ramdump env rd segs true (complete_ramdump rd).

(** ** Predicates of the properties *)

(** The fields no file operation of a consumer writes. *)
Definition same_session_data (rd rd' : ramdump_device) : Prop :=
  segments rd' = segments rd /\ nsegments rd' = nsegments rd
  /\ elfcore_size rd' = elfcore_size rd /\ elfcore_buf rd' = elfcore_buf rd
  /\ complete_ramdump rd' = complete_ramdump rd.

(** The entry points of the producer, as calls of the two workers. *)
Inductive dump_call :=
| CallRamdump (use_elf complete_ramdump : bool)
| CallMinidump.

Definition dump (c : dump_call) (env : dump_env) (rd : ramdump_device)
    (segs : list ramdump_segment) : dump_result :=
  match c with
  | CallRamdump use_elf complete => _do_ramdump env rd segs use_elf complete
  | CallMinidump => _do_minidump env rd segs
  end.

Definition dump_prepare (c : dump_call) (kzalloc_ok : bool)
    (rd : ramdump_device) (segs : list ramdump_segment) : prepared :=
  match c with
  | CallRamdump use_elf complete =>
      _do_ramdump_prepare kzalloc_ok rd segs use_elf complete
  | CallMinidump => _do_minidump_prepare kzalloc_ok rd segs
  end.

(** The header is gone, its size is zero and no segment table is
    attached. *)
Definition clean_idle (rd : ramdump_device) : Prop :=
  elfcore_buf rd = None /\ elfcore_size rd = 0 /\ segments rd = None.

(** The compaction loop read off the list: every segment but the last
    gets the distance to the next address as its size. *)
Fixpoint compacted (segs : list ramdump_segment) : list ramdump_segment :=
  match segs with
  | s :: (t :: _) as rest =>
      set_size s (u64 (address t - address s)) :: compacted rest
  | _ => segs
  end.

(** The sum of the sizes of a list of segments. *)
Definition sum_sizes (segs : list ramdump_segment) : Z :=
  fold_right (fun s acc => size s + acc) 0 segs.

(** The C string that starts at offset [off] of a string table. *)
Fixpoint c_string (cs : list ascii) : string :=
  match cs with
  | [] => EmptyString
  | c :: rest =>
      if Ascii.eqb c zero_char then EmptyString else String c (c_string rest)
  end.

Definition c_string_at (strtab : list ascii) (off : Z) : string :=
  c_string (skipn (Z.to_nat off) strtab).

(** The number of bytes a read at [pos] takes out of the header. *)
Definition header_part (rd : ramdump_device) (pos count : Z) : Z :=
  if pos <? elfcore_size rd then Z.min (elfcore_size rd - pos) count else 0.

(** [*data_left] as [offset_translate] sets it. *)
Definition data_left_at (rd : ramdump_device) (user_offset : Z) : Z :=
  snd (fst (offset_translate user_offset rd)).

(** The kernel address [ramdump_read] copies from: the segment's own
    mapping when it has one, else what [dma_remap] returns. *)
Definition device_mem_of (env : read_env) (addr vaddr copy_size : Z) : Z :=
  if negb (vaddr =? 0) then vaddr else dma_remap env addr copy_size.

(** The three-phase copy stays inside its buffer. *)
Definition copy_in_bounds (device_mem copy_size : Z) : Prop :=
  Z.land device_mem 7 = 0 \/ 8 - Z.land device_mem 7 <= copy_size.

(** ** Invariants of the consumer list *)

Definition handles (rd : ramdump_device) : list nat :=
  map handle (consumer_list rd).

(** The number of entries with [data_ready] set. *)
Definition ready_count (l : list consumer_entry) : nat :=
  List.length (filter data_ready l).

(** The entries are distinct and [consumers] counts them; the count fits
    the [int] it is copied to. *)
Definition registry_ok (rd : ramdump_device) : Prop :=
  NoDup (handles rd)
  /\ consumers rd = Z.of_nat (List.length (consumer_list rd))
  /\ Z.of_nat (List.length (consumer_list rd)) < 2 ^ 31.

(** A session that is not aborted: [readers_left] counts the entries that
    are still ready, and the completion is signalled once, when there is
    none left. *)
Definition session_ok (rd : ramdump_device) : Prop :=
  abort_ramdump rd = false
  /\ readers_left rd = Z.of_nat (ready_count (consumer_list rd))
  /\ ((ramdump_complete rd = 0 /\ (0 < ready_count (consumer_list rd))%nat)
      \/ (ramdump_complete rd = 1 /\ ready_count (consumer_list rd) = 0%nat)).

(** What the kernel guarantees about the file operations it runs: [open]
    gets an entry that is not on the list, [release] runs on an entry
    that is. *)
Definition event_ok (ev : event) (rd : ramdump_device) : Prop :=
  match ev with
  | EvOpen _ h =>
      ~ In h (handles rd)
      /\ Z.of_nat (List.length (consumer_list rd)) + 1 < 2 ^ 31
  | EvRelease h => In h (handles rd)
  | EvRead _ _ _ _ => True
  end.

(** Every event of the list is one the kernel can run in the state it
    finds. *)
Fixpoint events_ok (evs : list event) (rd : ramdump_device) : Prop :=
  match evs with
  | [] => True
  | ev :: rest => event_ok ev rd /\ events_ok rest (snd (run_event ev rd))
  end.

(** ** The stream of the segments *)

(** The bytes of a segment that has a kernel mapping, and the segments
    one after the other. *)
Definition segment_bytes (vmem : Z -> Z) (s : ramdump_segment) : list Z :=
  mem_bytes vmem (v_address s) (size s).

Definition segments_stream (vmem : Z -> Z) (segs : list ramdump_segment)
    : list Z :=
  flat_map (segment_bytes vmem) segs.

(** The segment has a mapping, which does not wrap around. *)
Definition mapped (s : ramdump_segment) : Prop :=
  0 < v_address s /\ v_address s + size s <= 2 ^ 64.

(** ** The names in the string table *)

(** The bytes the name of a segment takes in the string table. *)
Definition name_room (s : ramdump_segment) : Z :=
  match name s with
  | Some n => Z.of_nat (String.length n) + 1
  | None => 0
  end.

Definition names_room (segs : list ramdump_segment) : Z :=
  fold_right (fun s acc => name_room s + acc) 0 segs.

(** The name, if there is one, is a C string of at most 15 characters. *)
Definition short_name (s : ramdump_segment) : Prop :=
  match name s with
  | Some n =>
      Z.of_nat (String.length n) <= MAX_NAME_LENGTH - 1
      /\ Forall (fun c => c <> zero_char) (list_ascii_of_string n)
  | None => True
  end.

(** ** Creating and destroying devices *)

Module Registry.

Definition RAMDUMP_NUM_DEVICES : Z := 256.
Definition ENODEV : Z := 19.

(** The variables of the file: whether the device class and region are
    set up, whether [rd_minor_mutex] is held, and the minor numbers the
    IDA [rd_minor_id] has given out.  Left out: [ramdump_class] and
    [ramdump_dev], which only [device_create] and [cdev_add] read. *)
Record state := {
  ramdump_devnode_inited : bool;
  rd_minor_mutex : bool;
  rd_minor_id : list Z
}.

(** What the kernel decides for one call of [create_ramdump_device]: the
    values [alloc_chrdev_region], [ida_simple_get] and [cdev_add]
    return, the error of [device_create] (0 for none), whether the device
    structure can be allocated, and whether there is a parent with the
    ["qcom,complete-ramdump"] property. *)
Record create_env := {
  alloc_chrdev_region : Z;
  kzalloc_dev : bool;
  ida_simple_get : Z;
  parent_complete : bool;
  device_create : Z;
  cdev_add : Z
}.

(** What [create_ramdump_device] returns: [NULL], an [ERR_PTR], or a
    device with its minor number; or nothing, when it sleeps on a mutex
    nobody will release. *)
Inductive created :=
| RetNull
| RetErr (err : Z)
| RetDev (minor : Z) (rd : ramdump_device)
| Sleeps.

Definition set_inited (st : state) (b : bool) : state :=
  {| ramdump_devnode_inited := b; rd_minor_mutex := rd_minor_mutex st;
     rd_minor_id := rd_minor_id st |}.

Definition set_mutex (st : state) (b : bool) : state :=
  {| ramdump_devnode_inited := ramdump_devnode_inited st;
     rd_minor_mutex := b; rd_minor_id := rd_minor_id st |}.

Definition set_ids (st : state) (ids : list Z) : state :=
  {| ramdump_devnode_inited := ramdump_devnode_inited st;
     rd_minor_mutex := rd_minor_mutex st; rd_minor_id := ids |}.

(** [ida_simple_remove]: the id is free again. *)
Fixpoint ida_simple_remove (ids : list Z) (id : Z) : list Z :=
  match ids with
  | [] => []
  | x :: rest => if x =? id then rest else x :: ida_simple_remove rest id
  end.

(** [ramdump_devnode_init]: the return value and the flag. *)
Definition ramdump_devnode_init (env : create_env) (st : state)
    : Z * state :=
  let ret := alloc_chrdev_region env in
  if ret <? 0 then (ret, st) else (0, set_inited st true).

(** Lines 331-412.  [dev_name] is [None] for [NULL]. *)
Definition create_ramdump_device (dev_name : option string)
    (env : create_env) (st : state) : created * state :=
  match dev_name with
  | None => (RetNull, st)
  | Some _ =>
      if rd_minor_mutex st then (Sleeps, st)
      else
        let st := set_mutex st true in
        let '(ret, st) :=
          if negb (ramdump_devnode_inited st)
          then ramdump_devnode_init env st else (0, st) in
        if negb (ret =? 0) then (RetErr ret, st)
        else
          let st := set_mutex st false in
          if negb (kzalloc_dev env) then (RetNull, st)
          else
            let minor := ida_simple_get env in
            if minor <? 0 then (RetErr (- ENODEV), st)
            else
              let st := set_ids st (minor :: rd_minor_id st) in
              let rd := create_ramdump_device (parent_complete env) in
              if negb (device_create env =? 0) then
                (RetErr (device_create env),
                 set_ids st (ida_simple_remove (rd_minor_id st) minor))
              else if cdev_add env <? 0 then
                (RetErr (cdev_add env),
                 set_ids st (ida_simple_remove (rd_minor_id st) minor))
              else (RetDev minor rd, st)
  end.

(** Lines 415-428, for a device [create_ramdump_device] returned. *)
Definition destroy_ramdump_device (minor : Z) (st : state) : state :=
  set_ids st (ida_simple_remove (rd_minor_id st) minor).

End Registry.

(** ** Concrete devices and environments *)

Module Scenario.

Definition seg (a s : Z) : ramdump_segment :=
  {| name := None; address := a; v_address := 0; size := s |}.

Definition named (n : string) (a s : Z) : ramdump_segment :=
  {| name := Some n; address := a; v_address := 0; size := s |}.

(** Memory holds the low byte of each address; physical memory is mapped
    at a fixed displacement. *)
Definition reader (user_ok : bool) : read_env :=
  {| f_nonblock := false; signal_pending := false;
     vmem := fun a => a mod 256;
     dma_remap := fun a _ => 65536 + a;
     vzalloc := fun n => 0 <? n;
     copy_to_user_hdr := user_ok; copy_to_user_data := user_ok |}.

(** A device with consumer 1, and one with consumers 1 and 2. *)
Definition one_consumer : ramdump_device :=
  snd (ramdump_open true 1%nat (create_ramdump_device false)).

Definition two_consumers : ramdump_device :=
  snd (ramdump_open true 2%nat one_consumer).

(** Nothing happens while the producer waits: it times out. *)
Definition nobody : dump_env :=
  {| kzalloc_ok := true; during_wait := []; during_sync := [] |}.

(** Consumer 1 reads the 16 bytes of the only segment, then reads the end
    of the stream. *)
Definition reads_all : dump_env :=
  {| kzalloc_ok := true;
     during_wait := [EvRead (reader true) 1%nat 16 0;
                     EvRead (reader true) 1%nat 16 16];
     during_sync := [] |}.

(** The read of consumer 1 cannot write the user buffer; then a second
    consumer opens the device. *)
Definition fault_then_open : dump_env :=
  {| kzalloc_ok := true;
     during_wait := [EvRead (reader false) 1%nat 16 0; EvOpen true 2%nat];
     during_sync := [] |}.

Definition fault_only : dump_env :=
  {| kzalloc_ok := true;
     during_wait := [EvRead (reader false) 1%nat 16 0];
     during_sync := [] |}.

Definition out_of_memory : dump_env :=
  {| kzalloc_ok := false; during_wait := []; during_sync := [] |}.

(** Consumer 1 reads the ELF32 header of one segment (84 bytes) and the 16
    bytes of the segment in one call, then reads the end of the stream. *)
Definition reads_elf : dump_env :=
  {| kzalloc_ok := true;
     during_wait := [EvRead (reader true) 1%nat 100 0;
                     EvRead (reader true) 1%nat 100 100];
     during_sync := [] |}.

(** A segment at the 4 GiB boundary. *)
Definition high_segment : ramdump_segment := seg 4294967296 256.

(** A segment with a name of 20 characters, followed by one with a short
    name. *)
Definition long_then_short : list ramdump_segment :=
  [named "abcdefghijklmnopqrst" 4096 16; named "b" 8192 32].

(** 32 segments with names of 15 characters. *)
Definition many_names : list ramdump_segment :=
  repeat (named "abcdefghijklmno" 4096 16) 32.

(** The device during an ELF32 dump of one segment of 2 MiB; the header
    has 84 bytes. *)
Definition elf_session : ramdump_device :=
  match _do_ramdump_prepare true one_consumer [seg 4096 2097152]
          true false with
  | PrepWait rd _ => rd
  | _ => one_consumer
  end.

(** The device during a raw dump of segments of 10 and 20 bytes, whose
    bytes 5 are mapped at multiples of 8. *)
Definition raw_session : ramdump_device :=
  match _do_ramdump_prepare true one_consumer [seg 3 10; seg 19 20]
          false false with
  | PrepWait rd _ => rd
  | _ => one_consumer
  end.

(** Consumer 1 opens, consumer 2 opens, consumer 1 closes, consumer 2
    tries to read. *)
Definition comings_and_goings : list event :=
  [EvOpen true 1%nat; EvOpen true 2%nat; EvRelease 1%nat;
   EvRead (reader true) 2%nat 16 0].


(** Both consumers of [two_consumers] read at offset 100, the end of the
    stream of an ELF32 dump of one segment of 16 bytes. *)
Definition all_read_the_end : dump_env :=
  {| kzalloc_ok := true;
     during_wait :=
       map (fun e => EvRead (reader true) (handle e) 16 100)
           (consumer_list two_consumers);
     during_sync := [] |}.

(** Segments of 10 and 20 bytes with kernel mappings at 4096 and 8192. *)
Definition mapped_segments : list ramdump_segment :=
  [{| name := None; address := 16; v_address := 4096; size := 10 |};
   {| name := None; address := 64; v_address := 8192; size := 20 |}].

Definition mapped_session : ramdump_device :=
  match _do_ramdump_prepare true one_consumer mapped_segments
          false false with
  | PrepWait rd _ => rd
  | _ => one_consumer
  end.

(** Segments with short names, and one without a name. *)
Definition short_names : list ramdump_segment :=
  [named "modem" 4096 16; seg 8192 32; named "adsp" 16384 64].

(** The device during an ELF32 dump of no segment at all: the stream is
    the file header of 52 bytes. *)
Definition empty_elf_session : ramdump_device :=
  match _do_ramdump_prepare true one_consumer [] true false with
  | PrepWait rd _ => rd
  | _ => one_consumer
  end.

(** The device during an ELF32 dump of the mapped segments; the header
    has 116 bytes. *)
Definition mapped_elf_session : ramdump_device :=
  match _do_ramdump_prepare true one_consumer mapped_segments
          true false with
  | PrepWait rd _ => rd
  | _ => one_consumer
  end.

(** The registry before the first device, and a call for which
    [alloc_chrdev_region] fails with [-EBUSY]. *)
Definition fresh_registry : Registry.state :=
  {| Registry.ramdump_devnode_inited := false;
     Registry.rd_minor_mutex := false;
     Registry.rd_minor_id := [] |}.

Definition no_region : Registry.create_env :=
  {| Registry.alloc_chrdev_region := -16;
     Registry.kzalloc_dev := true;
     Registry.ida_simple_get := 0;
     Registry.parent_complete := false;
     Registry.device_create := 0;
     Registry.cdev_add := 0 |}.

(** The device during a raw dump of segments of 10 and 20 bytes at 8-byte
    aligned addresses. *)
Definition aligned_session : ramdump_device :=
  match _do_ramdump_prepare true one_consumer [seg 4096 10; seg 8192 20]
          false false with
  | PrepWait rd _ => rd
  | _ => one_consumer
  end.

(** The device during a raw dump of the same segments that follows an
    ELF32 dump whose header could not be allocated. *)
Definition stale_header_session : ramdump_device :=
  match _do_ramdump_prepare true
          (dr_dev (dump (CallRamdump true false) out_of_memory one_consumer
                     [seg 4096 10; seg 8192 20]))
          [seg 4096 10; seg 8192 20] false false with
  | PrepWait rd _ => rd
  | _ => one_consumer
  end.

End Scenario.

(** * Properties *)

(** ** Machine integers *)

Lemma u64_small x : 0 <= x < 2 ^ 64 -> u64 x = x.
Proof. intros H; unfold u64; apply Z.mod_small; exact H. Qed.

Lemma u32_small x : 0 <= x < 2 ^ 32 -> u32 x = x.
Proof. intros H; unfold u32; apply Z.mod_small; exact H. Qed.

Lemma s32_small x : - 2 ^ 31 <= x < 2 ^ 31 -> s32 x = x.
Proof. intros H; unfold s32; rewrite Z.mod_small; lia. Qed.

Lemma u64_range x : 0 <= u64 x < 2 ^ 64.
Proof. unfold u64; apply Z.mod_pos_bound; lia. Qed.

Lemma u32_range x : 0 <= u32 x < 2 ^ 32.
Proof. unfold u32; apply Z.mod_pos_bound; lia. Qed.

Lemma u32_u64 x : u32 (u64 x) = u32 x.
Proof.
  unfold u32, u64.
  apply Z.mod_mod_divide.
  exists (2 ^ 32); reflexivity.
Qed.

Lemma u32_add_l x y : u32 (u32 x + y) = u32 (x + y).
Proof. unfold u32; apply Z.add_mod_idemp_l; lia. Qed.

Lemma u32_add_r x y : u32 (x + u32 y) = u32 (x + y).
Proof. unfold u32; apply Z.add_mod_idemp_r; lia. Qed.


(** ** What the operations of the consumers leave alone *)

Lemma same_session_data_refl rd : same_session_data rd rd.
Proof. repeat split. Qed.

Lemma same_session_data_trans rd1 rd2 rd3 :
  same_session_data rd1 rd2 -> same_session_data rd2 rd3 ->
  same_session_data rd1 rd3.
Proof.
  unfold same_session_data; intros (A & B & C & D & E) (A' & B' & C' & D' & E').
  repeat split; congruence.
Qed.

Lemma reset_ramdump_entry_frame h rd :
  same_session_data rd (reset_ramdump_entry h rd).
Proof. repeat split. Qed.

Lemma ramdump_done_frame h rd rd0 ret user :
  same_session_data rd0 rd ->
  same_session_data rd0 (rr_dev (ramdump_done h rd ret user)).
Proof.
  intros H; eapply same_session_data_trans; [exact H|].
  apply reset_ramdump_entry_frame.
Qed.

Lemma ramdump_read_segment_frame env h count pos orig user rd :
  same_session_data rd
    (rr_dev (ramdump_read_segment env h count pos orig user rd)).
Proof.
  unfold ramdump_read_segment.
  destruct (offset_translate _ rd) as [[addr data_left] vaddr].
  repeat match goal with
         | |- context [if ?c then _ else _] => destruct c
         | |- context [match ?c with Some _ => _ | None => _ end] => destruct c
         end;
    try apply ramdump_done_frame; repeat split.
Qed.

Lemma ramdump_read_frame env h count pos rd :
  same_session_data rd (rr_dev (ramdump_read env h count pos rd)).
Proof.
  unfold ramdump_read, ramdump_read_stream.
  repeat match goal with
         | |- context [if ?c then _ else _] => destruct c
         | |- context [match ?c with Some _ => _ | None => _ end] => destruct c
         end;
    try apply ramdump_read_segment_frame;
    try apply ramdump_done_frame; repeat split.
Qed.

Lemma run_event_frame ev rd :
  same_session_data rd (snd (run_event ev rd)).
Proof.
  destruct ev as [ok h|h|env h count pos]; simpl.
  - unfold ramdump_open; destruct ok; repeat split.
  - unfold ramdump_release; destruct (entry_ready _ _); repeat split.
  - apply ramdump_read_frame.
Qed.

Lemma run_events_frame evs : forall rd log rd',
  run_events evs rd = Some (log, rd') -> same_session_data rd rd'.
Proof.
  induction evs as [|ev evs IH]; simpl; intros rd log rd' H.
  - inversion H; subst; apply same_session_data_refl.
  - pose proof (run_event_frame ev rd) as F.
    destruct (run_event ev rd) as [out rd1]; simpl in F.
    destruct (run_events evs rd1) as [[outs rd2]|] eqn:E.
    + apply IH in E.
      assert (rd' = rd2) by (destruct out; inversion H; reflexivity).
      subst; eapply same_session_data_trans; eassumption.
    + destruct out; discriminate.
Qed.

(** ** The end of a dump call *)

Lemma dump_prepare_cases c kz rd segs :
  (consumers rd = 0 /\ dump_prepare c kz rd segs = PrepReturn (- EPIPE) rd segs)
  \/ (consumers rd <> 0 /\ exists rd', exists segs',
        dump_prepare c kz rd segs = PrepReturn (- ENOMEM) rd' segs')
  \/ (consumers rd <> 0 /\ dump_prepare c kz rd segs = PrepOops)
  \/ (consumers rd <> 0 /\ exists rd', exists segs',
        dump_prepare c kz rd segs = PrepWait rd' segs'
        /\ segments rd' = Some segs'
        /\ nsegments rd' = Z.of_nat (List.length segs)).
Proof.
  destruct (Z.eqb_spec (consumers rd) 0) as [E|E].
  - left; split; [exact E|].
    destruct c; simpl; unfold _do_ramdump_prepare, _do_minidump_prepare;
      rewrite E; reflexivity.
  - right.
    apply Z.eqb_neq in E.
    destruct c as [use_elf complete|]; simpl;
      unfold _do_ramdump_prepare, _do_minidump_prepare; rewrite E.
    + destruct use_elf; [destruct kz|]; simpl.
      * right; right; split; [apply Z.eqb_neq; exact E|].
        eexists; eexists; repeat split.
      * left; split; [apply Z.eqb_neq; exact E|].
        eexists; eexists; reflexivity.
      * right; right; split; [apply Z.eqb_neq; exact E|].
        eexists; eexists; repeat split.
    + destruct kz; simpl.
      * destruct (minidump_header segs _) as [buf|].
        -- right; right; split; [apply Z.eqb_neq; exact E|].
           eexists; eexists; repeat split.
        -- right; left; split; [apply Z.eqb_neq; exact E|reflexivity].
      * left; split; [apply Z.eqb_neq; exact E|].
        eexists; eexists; reflexivity.
Qed.

Lemma dump_unfold c env rd segs :
  dump c env rd segs
  = finish_dump env (dump_prepare c (kzalloc_ok env) rd segs) rd segs.
Proof. destruct c; reflexivity. Qed.

Lemma wait_and_finish_returns env rd segs ret :
  dr_out (wait_and_finish env rd segs) = DumpReturn ret ->
  (ret = 0 \/ ret = - EPIPE)
  /\ elfcore_buf (dr_dev (wait_and_finish env rd segs)) = None
  /\ elfcore_size (dr_dev (wait_and_finish env rd segs)) = 0
  /\ segments (dr_dev (wait_and_finish env rd segs)) = segments rd
  /\ nsegments (dr_dev (wait_and_finish env rd segs)) = nsegments rd
  /\ dr_segments (wait_and_finish env rd segs) = segs.
Proof.
  unfold wait_and_finish.
  destruct (run_events (during_wait env) rd) as [[log rd1]|] eqn:E1;
    [|discriminate].
  apply run_events_frame in E1; destruct E1 as (S1 & N1 & _).
  destruct (0 <? ramdump_complete rd1).
  - simpl; intros H; inversion H; subst.
    repeat split; try assumption.
    destruct (ramdump_status rd1 =? 0); auto.
  - destruct (run_events (during_sync env) _) as [[log2 rd2]|] eqn:E2;
      [|discriminate].
    apply run_events_frame in E2; destruct E2 as (S2 & N2 & _).
    simpl in *; intros H; inversion H; subst.
    repeat split; auto; congruence.
Qed.

(** C1, as the code has it.  A dump call in either mode that returns
    anything but [-ENOMEM] either found no consumer and left the device
    as it was, or ends with the header buffer freed and the header size
    reset to 0, while the device still points to the caller's segment
    array, with its segment count: the segment table is not cleared. *)
Theorem dump_return_frees_header c env rd segs ret :
  dr_out (dump c env rd segs) = DumpReturn ret ->
  ret <> - ENOMEM ->
  (consumers rd = 0 /\ ret = - EPIPE /\ dr_dev (dump c env rd segs) = rd)
  \/ (consumers rd <> 0
      /\ elfcore_buf (dr_dev (dump c env rd segs)) = None
      /\ elfcore_size (dr_dev (dump c env rd segs)) = 0
      /\ segments (dr_dev (dump c env rd segs))
         = Some (dr_segments (dump c env rd segs))
      /\ nsegments (dr_dev (dump c env rd segs))
         = Z.of_nat (List.length segs)).
Proof.
  rewrite dump_unfold.
  destruct (dump_prepare_cases c (kzalloc_ok env) rd segs)
    as [(E & P)|[(E & rd' & segs' & P)|[(E & P)|(E & rd' & segs' & P & S & N)]]];
    rewrite P; simpl.
  - intros H _; inversion H; subst; left; auto.
  - intros H Hne; inversion H; subst; contradiction.
  - discriminate.
  - intros H _; apply wait_and_finish_returns in H.
    destruct H as (_ & B & Z0 & S' & N' & D).
    right; repeat split; try assumption; congruence.
Qed.

Lemma dump_return_frees_header_witness :
  let r := dump (CallRamdump true false) Scenario.reads_elf
             Scenario.one_consumer [Scenario.seg 4096 16] in
  dr_out r = DumpReturn 0
  /\ 0 <> - ENOMEM
  /\ ((consumers Scenario.one_consumer = 0 /\ 0 = - EPIPE
       /\ dr_dev r = Scenario.one_consumer)
      \/ (consumers Scenario.one_consumer <> 0
          /\ elfcore_buf (dr_dev r) = None
          /\ elfcore_size (dr_dev r) = 0
          /\ segments (dr_dev r) = Some (dr_segments r)
          /\ nsegments (dr_dev r) = 1)).
Proof.
  intros r.
  assert (H : dr_out r = DumpReturn 0) by (vm_compute; reflexivity).
  assert (N : 0 <> - ENOMEM) by (vm_compute; discriminate).
  split; [exact H|split; [exact N|]].
  exact (dump_return_frees_header (CallRamdump true false)
           Scenario.reads_elf Scenario.one_consumer
           [Scenario.seg 4096 16] 0 H N).
Defined.

(** C1 as stated fails: after a raw dump that succeeded, the device still
    holds the segment table. *)
Lemma dump_leaves_segments_attached :
  let r := dump (CallRamdump false false) Scenario.reads_all
             Scenario.one_consumer [Scenario.seg 4096 16] in
  dr_out r = DumpReturn 0
  /\ dr_log r = [RdReturn 16; RdReturn 0]
  /\ segments (dr_dev r) = Some [Scenario.seg 4096 16]
  /\ ~ clean_idle (dr_dev r).
Proof.
  repeat split; try (vm_compute; reflexivity).
  intros (_ & _ & H); vm_compute in H; discriminate.
Qed.

(** The allocation failure of lines 474-477 returns with the header size
    it had just computed. *)
Lemma dump_enomem_keeps_size :
  let r := dump (CallRamdump true false) Scenario.out_of_memory
             Scenario.one_consumer [Scenario.seg 4096 16] in
  dr_out r = DumpReturn (- ENOMEM)
  /\ elfcore_buf (dr_dev r) = None /\ elfcore_size (dr_dev r) = 84.
Proof. repeat split; vm_compute; reflexivity. Qed.

(** ** A dump without consumers *)

(** C9.  On a device without consumers a dump call of either worker
    returns [-EPIPE] out of the locked part: it does not reach the wait,
    nothing another thread does is awaited ([dr_log] is empty, whatever
    the environment offers), and the device, with its segment table, its
    header and its consumer list, is what it was; the caller's array is
    untouched. *)
Theorem dump_without_consumers c env rd segs :
  consumers rd = 0 ->
  dump_prepare c (kzalloc_ok env) rd segs = PrepReturn (- EPIPE) rd segs
  /\ dump c env rd segs
     = {| dr_out := DumpReturn (- EPIPE); dr_dev := rd;
          dr_segments := segs; dr_log := [] |}.
Proof.
  intros E.
  assert (P : dump_prepare c (kzalloc_ok env) rd segs
              = PrepReturn (- EPIPE) rd segs).
  { destruct c; simpl; unfold _do_ramdump_prepare, _do_minidump_prepare;
      rewrite E; reflexivity. }
  split; [exact P|].
  rewrite dump_unfold, P; reflexivity.
Qed.

Lemma dump_without_consumers_witness :
  consumers (create_ramdump_device true) = 0
  /\ dump (CallRamdump true true) Scenario.reads_elf
       (create_ramdump_device true) [Scenario.seg 4096 16; Scenario.seg 8192 16]
     = {| dr_out := DumpReturn (- EPIPE);
          dr_dev := create_ramdump_device true;
          dr_segments := [Scenario.seg 4096 16; Scenario.seg 8192 16];
          dr_log := [] |}
  /\ dump CallMinidump Scenario.reads_elf
       (create_ramdump_device true) [Scenario.seg 4096 16]
     = {| dr_out := DumpReturn (- EPIPE);
          dr_dev := create_ramdump_device true;
          dr_segments := [Scenario.seg 4096 16];
          dr_log := [] |}.
Proof.
  split; [reflexivity|split].
  - apply (dump_without_consumers (CallRamdump true true)); reflexivity.
  - apply (dump_without_consumers CallMinidump); reflexivity.
Defined.

(** ** Opening the device during a session *)

(** C10.  [ramdump_open] appends the new entry to the consumer list,
    counts it, and sets [ramdump_status] to 0; every other field keeps
    its value.  So when the only reader of a session fails with [-EFAULT]
    and a second consumer opens the device before the producer runs
    again, the dump call returns 0; without that open it returns
    [-EPIPE]. *)
Theorem open_resets_ramdump_status :
  (forall h rd,
     ramdump_open true h rd
     = (0, {| consumers := u32 (consumers rd + 1);
              readers_left := readers_left rd;
              ramdump_status := 0;
              ramdump_complete := ramdump_complete rd;
              consumer_list :=
                consumer_list rd ++ [{| handle := h; data_ready := false |}];
              nsegments := nsegments rd;
              segments := segments rd;
              elfcore_size := elfcore_size rd;
              elfcore_buf := elfcore_buf rd;
              complete_ramdump := complete_ramdump rd;
              abort_ramdump := abort_ramdump rd |}))
  /\ (let r := do_ramdump Scenario.fault_then_open Scenario.one_consumer
                 [Scenario.seg 4096 16] in
      dr_log r = [RdReturn (- EFAULT); RdReturn 0]
      /\ dr_out r = DumpReturn 0)
  /\ (let r := do_ramdump Scenario.fault_only Scenario.one_consumer
                 [Scenario.seg 4096 16] in
      dr_log r = [RdReturn (- EFAULT)]
      /\ dr_out r = DumpReturn (- EPIPE)).
Proof.
  split; [intros h rd; reflexivity|].
  split; split; vm_compute; reflexivity.
Qed.

(** ** A read that finds the dump aborted *)

Lemma entry_ready_reset h l :
  entry_ready h (set_data_ready h false l) = false.
Proof.
  induction l as [|e l IH]; simpl; [reflexivity|].
  destruct (Nat.eqb_spec (handle e) h) as [E|E]; simpl.
  - rewrite E, Nat.eqb_refl; simpl; exact IH.
  - apply Nat.eqb_neq in E; rewrite E; simpl; exact IH.
Qed.

Lemma ramdump_read_aborted env h count pos rd :
  abort_ramdump rd = true ->
  f_nonblock env && negb (entry_ready h (consumer_list rd)) = false ->
  ramdump_read env h count pos rd
  = ramdump_done h (set_ramdump_status rd (-1)) (- ETIME) [].
Proof.
  intros A N; unfold ramdump_read; rewrite N, A.
  rewrite orb_true_r; reflexivity.
Qed.

(** On that path the entry is not ready afterwards and the count of
    readers left has gone down by one, whether the entry was ready
    before or not. *)
Lemma ramdump_read_aborted_effect env h count pos rd :
  abort_ramdump rd = true ->
  f_nonblock env && negb (entry_ready h (consumer_list rd)) = false ->
  let r := ramdump_read env h count pos rd in
  rr_out r = RdReturn (- ETIME)
  /\ entry_ready h (consumer_list (rr_dev r)) = false
  /\ readers_left (rr_dev r) = s32 (readers_left rd - 1).
Proof.
  intros A N r; subst r; rewrite ramdump_read_aborted by assumption.
  simpl; repeat split.
  apply entry_ready_reset.
Qed.

(** C5.  Consumers 1 and 2 take part in a raw dump of one segment of 16
    bytes.  Consumer 1 reads it to the end of the stream, which takes it
    off the count of readers left (2 to 1) and clears its [data_ready];
    consumer 2 never reads, so the dump times out and leaves
    [abort_ramdump] set.  The next read of consumer 1 fails with [-ETIME]
    and takes the count down again, to 0, which signals the completion
    while consumer 2 is still marked ready. *)
Theorem aborted_read_decrements_twice :
  let r := do_ramdump Scenario.reads_all Scenario.two_consumers
             [Scenario.seg 4096 16] in
  let r' := ramdump_read (Scenario.reader true) 1%nat 16 0 (dr_dev r) in
  dr_out r = DumpReturn (- EPIPE)
  /\ dr_log r = [RdReturn 16; RdReturn 0]
  /\ abort_ramdump (dr_dev r) = true
  /\ entry_ready 1%nat (consumer_list (dr_dev r)) = false
  /\ readers_left (dr_dev r) = 1
  /\ ramdump_complete (dr_dev r) = 0
  /\ rr_out r' = RdReturn (- ETIME)
  /\ readers_left (rr_dev r') = 0
  /\ ramdump_complete (rr_dev r') = 1
  /\ entry_ready 2%nat (consumer_list (rr_dev r')) = true.
Proof. repeat split; vm_compute; reflexivity. Qed.

(** ** The three-phase copy *)

Lemma length_mem_bytes vmem src n :
  List.length (mem_bytes vmem src n) = Z.to_nat n.
Proof. unfold mem_bytes; rewrite length_map, length_seq; reflexivity. Qed.

Lemma map_seq_offset {A : Type} n : forall (f : nat -> A) s,
  map f (seq s n) = map (fun k => f (s + k)%nat) (seq 0 n).
Proof.
  induction n as [|n IH]; intros f s; simpl; [reflexivity|].
  rewrite Nat.add_0_r; f_equal.
  rewrite (IH f (S s)), (IH (fun k => f (s + k)%nat) 1%nat).
  apply map_ext; intros k; f_equal; lia.
Qed.

Lemma mem_bytes_app vmem src a b :
  0 <= a -> 0 <= b ->
  mem_bytes vmem src (a + b)
  = mem_bytes vmem src a ++ mem_bytes vmem (src + a) b.
Proof.
  intros Ha Hb; unfold mem_bytes.
  rewrite Z2Nat.inj_add by assumption.
  rewrite seq_app, map_app; f_equal.
  rewrite map_seq_offset.
  apply map_ext; intros k; f_equal.
  rewrite Nat.add_0_l, Nat2Z.inj_add, Z2Nat.id by assumption; lia.
Qed.

(** A [memcpy] that continues a buffer filled up to [k] with the bytes of
    [base]. *)
Lemma memcpy_extend vmem buf base k n size :
  Z.of_nat (List.length buf) = size ->
  0 <= k -> 0 <= n -> k + n <= size ->
  firstn (Z.to_nat k) buf = mem_bytes vmem base k ->
  exists buf',
    memcpy vmem buf k (base + k) n = Some buf'
    /\ Z.of_nat (List.length buf') = size
    /\ firstn (Z.to_nat (k + n)) buf' = mem_bytes vmem base (k + n).
Proof.
  intros L Hk Hn Hs F; unfold memcpy.
  replace (0 <=? k) with true by (symmetry; apply Z.leb_le; exact Hk).
  replace (k + n <=? Z.of_nat (List.length buf)) with true
    by (symmetry; apply Z.leb_le; lia).
  simpl; eexists; split; [reflexivity|].
  assert (Lf : List.length (firstn (Z.to_nat k) buf) = Z.to_nat k)
    by (rewrite length_firstn; lia).
  split.
  - rewrite !length_app, Lf, length_mem_bytes, length_skipn; lia.
  - rewrite app_assoc, firstn_app.
    rewrite length_app, Lf, length_mem_bytes.
    replace (Z.to_nat (k + n) - (Z.to_nat k + Z.to_nat n))%nat with 0%nat
      by lia.
    rewrite firstn_O, app_nil_r, firstn_all2
      by (rewrite length_app, Lf, length_mem_bytes; lia).
    rewrite F; symmetry; apply mem_bytes_app; assumption.
Qed.

Lemma land_7_range x : 0 <= Z.land x 7 < 8.
Proof.
  change 7 with (Z.ones 3); rewrite Z.land_ones by lia.
  apply Z.mod_pos_bound; lia.
Qed.

(** When the copy is at least as long as the leading unaligned bytes the
    three phases are the plain copy. *)
Lemma three_phase_copy_plain vmem device_mem copy_size :
  0 <= copy_size < 2 ^ 64 ->
  Z.land device_mem 7 = 0 \/ 8 - Z.land device_mem 7 <= copy_size ->
  three_phase_copy vmem device_mem copy_size
  = plain_copy vmem device_mem copy_size.
Proof.
  intros R A; unfold three_phase_copy, plain_copy, memcpy_fromio.
  set (buf0 := repeat 0 (Z.to_nat copy_size)).
  assert (L0 : Z.of_nat (List.length buf0) = copy_size)
    by (unfold buf0; rewrite repeat_length; lia).
  pose proof (land_7_range device_mem) as B.
  assert (P1 : exists buf k,
    (if negb (Z.land device_mem 7 =? 0)
     then match memcpy vmem buf0 0 device_mem (8 - Z.land device_mem 7) with
          | Some buf => Some (buf, device_mem + (8 - Z.land device_mem 7),
                              8 - Z.land device_mem 7,
                              u64 (copy_size - (8 - Z.land device_mem 7)))
          | None => None
          end
     else Some (buf0, device_mem, 0, copy_size))
    = Some (buf, device_mem + k, k, copy_size - k)
    /\ 0 <= k <= copy_size
    /\ Z.of_nat (List.length buf) = copy_size
    /\ firstn (Z.to_nat k) buf = mem_bytes vmem device_mem k).
  { destruct (Z.eqb_spec (Z.land device_mem 7) 0) as [E|E]; cbn [negb].
    - exists buf0, 0; rewrite Z.add_0_r, Z.sub_0_r.
      repeat split; try lia; assumption.
    - destruct A as [A|A]; [contradiction|].
      destruct (memcpy_extend vmem buf0 device_mem 0
                  (8 - Z.land device_mem 7) copy_size)
        as (buf & M & L & F); try lia; try reflexivity.
      rewrite Z.add_0_r in M; rewrite M.
      exists buf, (8 - Z.land device_mem 7).
      rewrite u64_small by lia.
      repeat split; try lia; assumption. }
  destruct P1 as (buf & k & -> & K & L & F).
  pose proof (land_7_range (copy_size - k)) as B2.
  assert (M8 : Z.land (copy_size - k) 7 <= copy_size - k).
  { change 7 with (Z.ones 3); rewrite Z.land_ones by lia.
    apply Z.mod_le; lia. }
  destruct (Z.eqb_spec (Z.land (copy_size - k) 7) 0) as [E|E]; cbn [negb].
  - destruct (memcpy_extend vmem buf device_mem k (copy_size - k) copy_size)
      as (buf' & M & L' & F'); try lia; try assumption.
    rewrite M; f_equal.
    replace (k + (copy_size - k)) with copy_size in F' by lia.
    rewrite <- F'; symmetry; apply firstn_all2; lia.
  - set (tail := Z.land (copy_size - k) 7) in *.
    destruct (memcpy_extend vmem buf device_mem k (copy_size - k - tail)
                copy_size) as (buf1 & M1 & L1 & F1);
      try lia; try assumption.
    rewrite M1.
    destruct (memcpy_extend vmem buf1 device_mem (k + (copy_size - k - tail))
                tail copy_size) as (buf2 & M2 & L2 & F2);
      try lia; try assumption.
    replace (device_mem + k + (copy_size - k - tail))
      with (device_mem + (k + (copy_size - k - tail))) by lia.
    rewrite M2; f_equal.
    replace (k + (copy_size - k - tail) + tail) with copy_size in F2 by lia.
    rewrite <- F2; symmetry; apply firstn_all2; lia.
Qed.

(** When it is shorter, the first phase writes past the end of the bounce
    buffer. *)
Lemma three_phase_copy_overrun vmem device_mem copy_size :
  Z.land device_mem 7 <> 0 ->
  0 <= copy_size < 8 - Z.land device_mem 7 ->
  three_phase_copy vmem device_mem copy_size = None.
Proof.
  intros E R; unfold three_phase_copy, memcpy_fromio, memcpy.
  apply Z.eqb_neq in E; rewrite E; cbn [negb].
  rewrite repeat_length, Z2Nat.id, Z.add_0_l by lia.
  replace (8 - Z.land device_mem 7 <=? copy_size) with false
    by (symmetry; apply Z.leb_gt; lia).
  rewrite andb_false_r; reflexivity.
Qed.

(** C8.  A copy of 1 byte from an address one past an 8-byte boundary:
    the plain copy is that byte, the three-phase copy starts with a
    [memcpy_fromio] of [bytes_before = 7] bytes into the 1-byte buffer.
    A reader meets it: after a read of 9 bytes of a 10-byte segment at an
    aligned mapping, the read of the last byte stops in the kernel. *)
Theorem three_phase_copy_short_unaligned :
  (forall vmem,
     plain_copy vmem 4097 1 = Some [vmem 4097]
     /\ three_phase_copy vmem 4097 1 = None)
  /\ (match _do_ramdump_prepare true Scenario.one_consumer
              [Scenario.seg 4096 10] false false with
      | PrepWait rd _ =>
          let r := ramdump_read (Scenario.reader true) 1%nat 9 0 rd in
          rr_out r = RdReturn 9
          /\ rr_out (ramdump_read (Scenario.reader true) 1%nat 9 9 (rr_dev r))
             = RdOops
      | _ => False
      end).
Proof.
  split; [intros vmem; split; reflexivity|].
  vm_compute; split; reflexivity.
Qed.

(** ** Compaction *)

Lemma compact_step_cons x l i :
  compact_step (x :: l) (S i) = x :: compact_step l i.
Proof. reflexivity. Qed.

Lemma fold_compact_step_cons m : forall a x l,
  fold_left compact_step (seq (S a) m) (x :: l)
  = x :: fold_left compact_step (seq a m) l.
Proof.
  induction m as [|m IH]; intros a x l; simpl; [reflexivity|].
  rewrite compact_step_cons; apply IH.
Qed.

(** The loop over the indices computes [compacted]. *)
Lemma compact_segments_compacted segs :
  compact_segments segs (Z.of_nat (List.length segs)) = compacted segs.
Proof.
  unfold compact_segments.
  induction segs as [|s [|t rest] IH]; try reflexivity.
  replace (Z.to_nat (Z.of_nat (List.length (s :: t :: rest)) - 1))
    with (S (List.length rest)) by (simpl List.length; lia).
  cbn [seq fold_left].
  unfold compact_step at 2; cbn [store_size nth].
  rewrite fold_compact_step_cons.
  change (compacted (s :: t :: rest))
    with (set_size s (u64 (address t - address s)) :: compacted (t :: rest)).
  f_equal.
  rewrite <- IH; f_equal; f_equal.
  simpl List.length; lia.
Qed.

Lemma length_compacted segs :
  List.length (compacted segs) = List.length segs.
Proof.
  induction segs as [|s [|t rest] IH]; try reflexivity.
  cbn [compacted List.length] in *; rewrite IH; reflexivity.
Qed.

Lemma nth_error_compacted segs : forall i s,
  nth_error segs i = Some s ->
  exists s',
    nth_error (compacted segs) i = Some s'
    /\ name s' = name s /\ address s' = address s
    /\ v_address s' = v_address s
    /\ (forall t, nth_error segs (S i) = Some t ->
          size s' = u64 (address t - address s))
    /\ (nth_error segs (S i) = None -> size s' = size s).
Proof.
  induction segs as [|s0 [|t rest] IH]; intros i s H.
  - destruct i; discriminate.
  - destruct i as [|i]; [|destruct i; discriminate].
    inversion H; subst; exists s; repeat split.
    intros t Ht; discriminate.
  - destruct i as [|i].
    + inversion H; subst.
      exists (set_size s (u64 (address t - address s))).
      repeat split.
      * intros t' Ht; inversion Ht; subst; reflexivity.
      * intros Hn; discriminate.
    + cbn [compacted nth_error].
      apply (IH i s); exact H.
Qed.

(** The caller's array after [_do_ramdump], on a device with consumers. *)
Lemma dr_segments_do_ramdump env rd segs use_elf complete :
  consumers rd <> 0 ->
  dr_segments (_do_ramdump env rd segs use_elf complete)
  = if complete then compacted segs else segs.
Proof.
  intros E; apply Z.eqb_neq in E.
  unfold _do_ramdump, _do_ramdump_prepare; rewrite E.
  rewrite compact_segments_compacted.
  set (segs' := if complete then compacted segs else segs).
  assert (W : forall rd', dr_segments (wait_and_finish env rd' segs') = segs').
  { intros rd'; unfold wait_and_finish.
    destruct (run_events (during_wait env) rd') as [[log rd1]|];
      [|reflexivity].
    destruct (0 <? ramdump_complete rd1); [reflexivity|].
    destruct (run_events (during_sync env) _) as [[log2 rd2]|]; reflexivity. }
  destruct use_elf; [destruct (kzalloc_ok env)|]; simpl; try apply W.
  reflexivity.
Qed.

(** C6.  A [_do_ramdump] call with [complete_ramdump] set, on a device
    with consumers, leaves the caller's array with the same length, names,
    addresses and mappings; the size of every segment that has a
    successor is the [unsigned long] difference of the successor's
    address and its own, which is the plain difference when the addresses
    ascend; the size of the last segment is as given. *)
Theorem complete_ramdump_rewrites_sizes env rd segs use_elf :
  consumers rd <> 0 ->
  let segs' := dr_segments (_do_ramdump env rd segs use_elf true) in
  List.length segs' = List.length segs
  /\ forall i s,
       nth_error segs i = Some s ->
       exists s',
         nth_error segs' i = Some s'
         /\ name s' = name s /\ address s' = address s
         /\ v_address s' = v_address s
         /\ (forall t, nth_error segs (S i) = Some t ->
               size s' = u64 (address t - address s)
               /\ (0 <= address s <= address t -> address t < 2 ^ 64 ->
                   size s' = address t - address s))
         /\ (nth_error segs (S i) = None -> size s' = size s).
Proof.
  intros E segs'; subst segs'.
  rewrite dr_segments_do_ramdump by exact E.
  split; [apply length_compacted|].
  intros i s H.
  destruct (nth_error_compacted segs i s H) as (s' & N & A & B & C & D & L).
  exists s'; repeat split; try assumption.
  - apply D; assumption.
  - intros R1 R2; rewrite (D t) by assumption.
    apply u64_small; lia.
Qed.

Lemma complete_ramdump_rewrites_sizes_witness :
  let segs := [Scenario.seg 4096 1; Scenario.seg 8192 2;
               Scenario.seg 20480 7] in
  let segs' := dr_segments (_do_ramdump Scenario.nobody
                              Scenario.one_consumer segs false true) in
  consumers Scenario.one_consumer <> 0
  /\ segs' = [Scenario.seg 4096 4096; Scenario.seg 8192 12288;
              Scenario.seg 20480 7]
  /\ List.length segs' = List.length segs
  /\ forall i s,
       nth_error segs i = Some s ->
       exists s',
         nth_error segs' i = Some s'
         /\ name s' = name s /\ address s' = address s
         /\ v_address s' = v_address s
         /\ (forall t, nth_error segs (S i) = Some t ->
               size s' = u64 (address t - address s)
               /\ (0 <= address s <= address t -> address t < 2 ^ 64 ->
                   size s' = address t - address s))
         /\ (nth_error segs (S i) = None -> size s' = size s).
Proof.
  intros segs segs'.
  assert (E : consumers Scenario.one_consumer <> 0)
    by (vm_compute; discriminate).
  split; [exact E|].
  split; [vm_compute; reflexivity|].
  exact (complete_ramdump_rewrites_sizes Scenario.nobody
           Scenario.one_consumer segs false E).
Defined.

(** ** The ELF32 core header *)

Lemma length_fill_phdrs segs : forall offset,
  List.length (fill_phdrs segs offset) = List.length segs.
Proof.
  induction segs as [|s rest IH]; intros offset; simpl;
    [reflexivity|rewrite IH; reflexivity].
Qed.

Lemma u32_running_total offset sz :
  u32 (u64 (offset + u32 sz)) = u32 (offset + sz).
Proof. rewrite u32_u64; apply u32_add_r. Qed.

Lemma nth_error_fill_phdrs segs : forall offset i s,
  nth_error segs i = Some s ->
  exists phdr,
    nth_error (fill_phdrs segs offset) i = Some phdr
    /\ Elf32.p_type phdr = PT_LOAD
    /\ Elf32.p_flags phdr = 7
    /\ Elf32.p_vaddr phdr = u32 (address s)
    /\ Elf32.p_paddr phdr = u32 (address s)
    /\ Elf32.p_filesz phdr = u32 (size s)
    /\ Elf32.p_memsz phdr = u32 (size s)
    /\ Elf32.p_align phdr = 0
    /\ Elf32.p_offset phdr = u32 (offset + sum_sizes (firstn i segs)).
Proof.
  induction segs as [|s0 rest IH]; intros offset i s H.
  - destruct i; discriminate.
  - destruct i as [|i].
    + inversion H; subst; simpl.
      eexists; split; [reflexivity|]; simpl.
      rewrite Z.add_0_r; repeat split.
    + simpl in H.
      destruct (IH (u64 (offset + u32 (size s0))) i s H)
        as (phdr & N & T & F & V & P & FS & MS & AL & O).
      exists phdr; simpl; repeat split; try assumption.
      rewrite O.
      rewrite <- u32_add_l, u32_running_total, u32_add_l.
      f_equal; lia.
Qed.

(** C3, as the code has it.  In ELF32 mode, on a device with consumers
    and with the header allocated, the device gets a header of
    [sizeof(Elf32_Ehdr) + N * sizeof(Elf32_Phdr)] bytes: the file header
    and one program header per segment, in segment order, with
    [PT_LOAD], flags 7 (read, write, execute), and with the address, the
    size and the running total (size of the header block plus the sizes
    of the segments before) each reduced modulo 2^32, the width of the
    ELF32 fields.  They are the segment's own values when these are below
    2^32. *)
Theorem elf32_header_program_headers rd segs (complete : bool) :
  consumers rd <> 0 ->
  let N := Z.of_nat (List.length segs) in
  let hsize := Elf32.sizeof_Ehdr + N * Elf32.sizeof_Phdr in
  let segs' := if complete then compacted segs else segs in
  exists rd' phdrs,
    _do_ramdump_prepare true rd segs true complete = PrepWait rd' segs'
    /\ elfcore_size rd' = u64 hsize
    /\ elfcore_buf rd' = Some (Elf32Core (elf32_ehdr N) phdrs)
    /\ List.length phdrs = List.length segs
    /\ forall i s,
         nth_error segs' i = Some s ->
         exists phdr,
           nth_error phdrs i = Some phdr
           /\ Elf32.p_type phdr = PT_LOAD
           /\ Elf32.p_flags phdr = Z.lor (Z.lor PF_R PF_W) PF_X
           /\ Elf32.p_vaddr phdr = u32 (address s)
           /\ Elf32.p_paddr phdr = u32 (address s)
           /\ Elf32.p_filesz phdr = u32 (size s)
           /\ Elf32.p_memsz phdr = u32 (size s)
           /\ Elf32.p_offset phdr
              = u32 (hsize + sum_sizes (firstn i segs'))
           /\ (0 <= address s < 2 ^ 32 ->
               Elf32.p_vaddr phdr = address s
               /\ Elf32.p_paddr phdr = address s)
           /\ (0 <= size s < 2 ^ 32 ->
               Elf32.p_filesz phdr = size s /\ Elf32.p_memsz phdr = size s)
           /\ (0 <= hsize + sum_sizes (firstn i segs') < 2 ^ 32 ->
               Elf32.p_offset phdr = hsize + sum_sizes (firstn i segs')).
Proof.
  intros E N hsize segs'; apply Z.eqb_neq in E.
  unfold _do_ramdump_prepare; rewrite E, compact_segments_compacted.
  fold N; fold segs'; cbn [negb].
  eexists; eexists; split; [reflexivity|].
  assert (L : List.length segs' = List.length segs)
    by (unfold segs'; destruct complete;
        [apply length_compacted|reflexivity]).
  replace (Elf32.sizeof_Ehdr + Elf32.sizeof_Phdr * N) with hsize
    by (unfold hsize; lia).
  split; [reflexivity|].
  split; [reflexivity|].
  split; [rewrite length_fill_phdrs; exact L|].
  intros i s H.
  destruct (nth_error_fill_phdrs segs' (u64 hsize) i s H)
    as (phdr & Nth & T & F & V & P & FS & MS & AL & O).
  assert (O' : Elf32.p_offset phdr = u32 (hsize + sum_sizes (firstn i segs')))
    by (rewrite O, <- u32_add_l, u32_u64, u32_add_l; reflexivity).
  exists phdr; repeat split; try assumption.
  - rewrite V; apply u32_small; assumption.
  - rewrite P; apply u32_small; assumption.
  - rewrite FS; apply u32_small; assumption.
  - rewrite MS; apply u32_small; assumption.
  - rewrite O'; apply u32_small; assumption.
Qed.

Lemma elf32_header_program_headers_witness :
  let rd := Scenario.one_consumer in
  let segs := [Scenario.seg 4096 256; Scenario.seg 8192 512] in
  consumers rd <> 0
  /\ exists rd' phdrs,
       _do_ramdump_prepare true rd segs true false = PrepWait rd' segs
       /\ elfcore_size rd' = u64 (52 + 2 * 32)
       /\ elfcore_buf rd' = Some (Elf32Core (elf32_ehdr 2) phdrs)
       /\ List.length phdrs = 2%nat
       /\ forall i s,
            nth_error segs i = Some s ->
            exists phdr,
              nth_error phdrs i = Some phdr
              /\ Elf32.p_type phdr = PT_LOAD
              /\ Elf32.p_flags phdr = Z.lor (Z.lor PF_R PF_W) PF_X
              /\ Elf32.p_vaddr phdr = u32 (address s)
              /\ Elf32.p_paddr phdr = u32 (address s)
              /\ Elf32.p_filesz phdr = u32 (size s)
              /\ Elf32.p_memsz phdr = u32 (size s)
              /\ Elf32.p_offset phdr
                 = u32 (52 + 2 * 32 + sum_sizes (firstn i segs))
              /\ (0 <= address s < 2 ^ 32 ->
                  Elf32.p_vaddr phdr = address s
                  /\ Elf32.p_paddr phdr = address s)
              /\ (0 <= size s < 2 ^ 32 ->
                  Elf32.p_filesz phdr = size s
                  /\ Elf32.p_memsz phdr = size s)
              /\ (0 <= 52 + 2 * 32 + sum_sizes (firstn i segs) < 2 ^ 32 ->
                  Elf32.p_offset phdr
                  = 52 + 2 * 32 + sum_sizes (firstn i segs)).
Proof.
  intros rd segs.
  assert (E : consumers rd <> 0) by (vm_compute; discriminate).
  split; [exact E|].
  exact (elf32_header_program_headers rd segs false E).
Defined.

(** C3 as stated fails: the program header of a segment at address 2^32
    has [p_vaddr = p_paddr = 0]. *)
Lemma elf32_header_truncates_address :
  address Scenario.high_segment = 4294967296
  /\ exists rd' ehdr phdr,
       _do_ramdump_prepare true Scenario.one_consumer
         [Scenario.high_segment] true false
       = PrepWait rd' [Scenario.high_segment]
       /\ elfcore_buf rd' = Some (Elf32Core ehdr [phdr])
       /\ Elf32.p_vaddr phdr = 0 /\ Elf32.p_paddr phdr = 0
       /\ Elf32.p_vaddr phdr <> address Scenario.high_segment.
Proof.
  split; [reflexivity|].
  eexists; eexists; eexists.
  split; [vm_compute; reflexivity|].
  split; [reflexivity|].
  repeat split; vm_compute; discriminate.
Qed.

(** ** The string table of the minidump header *)

(** C4.  The minidump header for a segment named with 20 characters and a
    segment named "b".  The first name is stored at offset 9, right after
    "STR_TBL", cut to 15 characters and a terminator, which ends at
    offset 24; both name offsets resolve to the stored names.  The second
    name is stored at offset 30, not at 25: [set_section_name] advances by
    what [strlcpy] returns, the length of the whole source name, and
    leaves offsets 25 to 29 unused. *)
Theorem long_name_leaves_gap :
  match _do_minidump_prepare true Scenario.one_consumer
          Scenario.long_then_short with
  | PrepWait rd _ =>
      match elfcore_buf rd with
      | Some (SectionCore _ [_; strhdr; sh0; sh1] strtab) =>
          Elf64.sh_name strhdr = 1
          /\ c_string_at strtab 1 = "STR_TBL"%string
          /\ Elf64.sh_name sh0 = 9
          /\ c_string_at strtab 9 = "abcdefghijklmno"%string
          /\ Elf64.sh_name sh1 = 30
          /\ c_string_at strtab 30 = "b"%string
          /\ firstn 6 (skipn 24 strtab) = repeat zero_char 6
          /\ List.length strtab = 512%nat
      | _ => False
      end
  | _ => False
  end.
Proof. vm_compute; repeat split. Qed.

(** With names of 15 characters the table holds 31 of them after
    "STR_TBL"; the 32nd is written past the end of the header buffer. *)
Lemma string_table_overrun :
  _do_minidump_prepare true Scenario.one_consumer Scenario.many_names
  = PrepOops
  /\ exists rd segs,
       _do_minidump_prepare true Scenario.one_consumer
         (firstn 31 Scenario.many_names) = PrepWait rd segs.
Proof.
  split; [vm_compute; reflexivity|].
  eexists; eexists; vm_compute; reflexivity.
Qed.

(** ** The size of one read *)

Lemma data_left_nonneg rd user_offset : 0 <= data_left_at rd user_offset.
Proof.
  unfold data_left_at, offset_translate.
  destruct (offset_translate_loop _ _ _) as [i off].
  destruct (nth_error _ i); simpl; [apply u64_range|lia].
Qed.

Lemma ramdump_read_segment_returns env h count pos orig user rd n :
  rr_out (ramdump_read_segment env h count pos orig user rd) = RdReturn n ->
  n = 0 \/ n = - ENOMEM \/ n = - EFAULT
  \/ (n = pos + Z.min (Z.min count MAX_IOREMAP_SIZE)
                  (data_left_at rd (u64 (pos - elfcore_size rd))) - orig
      /\ data_left_at rd (u64 (pos - elfcore_size rd)) <> 0).
Proof.
  unfold ramdump_read_segment, data_left_at.
  destruct (offset_translate _ rd) as [[addr data_left] vaddr]; simpl.
  destruct (Z.eqb_spec data_left 0) as [E|E];
    [simpl; intros H; inversion H; auto|].
  repeat match goal with
         | |- context [if ?c then _ else _] => destruct c
         | |- context [match ?c with Some _ => _ | None => _ end] => destruct c
         end;
    simpl; intros H; inversion H; auto.
Qed.

(** C7, as the code has it.  A read returns no more than the caller asked
    for.  What it returns beyond the bytes it took out of the header
    comes out of one segment, and is at most 1 MiB and at most what is
    left of that segment; so a read that starts at or after the end of
    the header returns at most 1 MiB, and one that starts inside the
    header at most the rest of the header and 1 MiB. *)
Theorem read_chunk_bounds env h count pos rd n :
  0 <= count -> 0 <= pos -> 0 <= elfcore_size rd < 2 ^ 64 ->
  rr_out (ramdump_read env h count pos rd) = RdReturn n ->
  let hp := header_part rd pos count in
  n <= count
  /\ n - hp <= MAX_IOREMAP_SIZE
  /\ n - hp <= data_left_at rd (u64 (pos + hp - elfcore_size rd))
  /\ (elfcore_size rd <= pos -> n <= MAX_IOREMAP_SIZE).
Proof.
  intros Hc Hp Hs H hp.
  assert (HP : 0 <= hp <= count).
  { unfold hp, header_part.
    destruct (Z.ltb_spec pos (elfcore_size rd)); lia. }
  pose proof (data_left_nonneg rd (u64 (pos + hp - elfcore_size rd))) as DL.
  assert (M : 0 < MAX_IOREMAP_SIZE) by reflexivity.
  assert (G : n <= count /\ n - hp <= MAX_IOREMAP_SIZE
              /\ n - hp <= data_left_at rd (u64 (pos + hp - elfcore_size rd))).
  { revert H; unfold ramdump_read.
    destruct (f_nonblock env && negb _);
      [simpl; intros H; inversion H; unfold EAGAIN; lia|].
    destruct (negb _).
    { destruct (signal_pending env); simpl; intros H; inversion H.
      unfold ERESTARTSYS; lia. }
    destruct (abort_ramdump rd);
      [simpl; intros H; inversion H; unfold ETIME; lia|].
    unfold ramdump_read_stream, hp, header_part in *.
    destruct (Z.ltb_spec pos (elfcore_size rd)) as [L|L].
    - rewrite (u64_small (elfcore_size rd - pos)) by lia.
      set (cs := Z.min (elfcore_size rd - pos) count) in *.
      destruct (elfcore_read rd pos cs) as [bytes|];
        [|simpl; intros H; inversion H].
      destruct (copy_to_user_hdr env); cbn [negb];
        [|simpl; intros H; inversion H; unfold EFAULT; lia].
      destruct (Z.eqb_spec (count - cs) 0) as [E|E];
        [simpl; intros H; inversion H; lia|].
      intros H; apply ramdump_read_segment_returns in H.
      unfold ENOMEM, EFAULT in H.
      destruct H as [H|[H|[H|[H D]]]]; lia.
    - rewrite Z.add_0_r in *.
      intros H; apply ramdump_read_segment_returns in H.
      unfold ENOMEM, EFAULT in H.
      destruct H as [H|[H|[H|[H D]]]]; lia. }
  destruct G as (G1 & G2 & G3); repeat split; try assumption.
  intros L; unfold hp, header_part in G2.
  destruct (Z.ltb_spec pos (elfcore_size rd)); lia.
Qed.

Lemma read_chunk_bounds_witness :
  let rd := Scenario.elf_session in
  let n := 100 in
  0 <= 100 /\ 0 <= 0 /\ 0 <= elfcore_size rd < 2 ^ 64
  /\ rr_out (ramdump_read (Scenario.reader true) 1%nat 100 0 rd) = RdReturn n
  /\ header_part rd 0 100 = 84
  /\ n <= 100
  /\ n - header_part rd 0 100 <= MAX_IOREMAP_SIZE
  /\ n - header_part rd 0 100
     <= data_left_at rd (u64 (0 + header_part rd 0 100 - elfcore_size rd))
  /\ (elfcore_size rd <= 0 -> n <= MAX_IOREMAP_SIZE).
Proof.
  intros rd n.
  assert (H1 : 0 <= 100) by lia.
  assert (H2 : 0 <= 0) by lia.
  assert (H3 : 0 <= elfcore_size rd < 2 ^ 64) by (vm_compute; split; congruence).
  assert (H4 : rr_out (ramdump_read (Scenario.reader true) 1%nat 100 0 rd)
               = RdReturn n) by (vm_compute; reflexivity).
  repeat (split; [assumption|]).
  split; [vm_compute; reflexivity|].
  exact (read_chunk_bounds (Scenario.reader true) 1%nat 100 0 rd n
           H1 H2 H3 H4).
Defined.

(** ** Offsets into the stream *)

Lemma ramdump_read_ready env h count pos rd :
  entry_ready h (consumer_list rd) = true ->
  abort_ramdump rd = false ->
  ramdump_read env h count pos rd = ramdump_read_stream env h count pos rd.
Proof.
  intros R A; unfold ramdump_read; rewrite R, A.
  rewrite andb_false_r; reflexivity.
Qed.

(** The read out of a segment when nothing fails. *)
Lemma ramdump_read_segment_ok env h count pos orig user rd
    addr data_left vaddr :
  offset_translate (u64 (pos - elfcore_size rd)) rd
  = (addr, data_left, vaddr) ->
  data_left <> 0 ->
  let copy_size := Z.min (Z.min count MAX_IOREMAP_SIZE) data_left in
  let device_mem := device_mem_of env addr vaddr copy_size in
  0 <= copy_size < 2 ^ 64 ->
  device_mem <> 0 ->
  vzalloc env copy_size = true ->
  copy_to_user_data env = true ->
  copy_in_bounds device_mem copy_size ->
  ramdump_read_segment env h count pos orig user rd
  = {| rr_out := RdReturn (pos + copy_size - orig);
       rr_pos := pos + copy_size;
       rr_user := user ++ mem_bytes (vmem env) device_mem copy_size;
       rr_dev := rd |}.
Proof.
  intros OT D copy_size device_mem R NZ VZ CU IB.
  unfold ramdump_read_segment; rewrite OT.
  apply Z.eqb_neq in D; rewrite D.
  fold copy_size; unfold device_mem_of in device_mem; fold device_mem.
  apply Z.eqb_neq in NZ; rewrite NZ, VZ, CU; cbn [negb].
  rewrite three_phase_copy_plain by assumption.
  reflexivity.
Qed.

Lemma ramdump_read_segment_eof env h count pos orig user rd :
  data_left_at rd (u64 (pos - elfcore_size rd)) = 0 ->
  ramdump_read_segment env h count pos orig user rd
  = ramdump_done h (set_ramdump_status rd 0) 0 user.
Proof.
  unfold ramdump_read_segment, data_left_at.
  destruct (offset_translate _ rd) as [[addr data_left] vaddr]; simpl.
  intros ->; reflexivity.
Qed.

Lemma ramdump_read_segment_user env h count pos orig user rd :
  exists rest,
    rr_user (ramdump_read_segment env h count pos orig user rd)
    = user ++ rest.
Proof.
  unfold ramdump_read_segment.
  destruct (offset_translate _ rd) as [[addr data_left] vaddr].
  repeat match goal with
         | |- context [if ?c then _ else _] => destruct c
         | |- context [match ?c with Some _ => _ | None => _ end] =>
             destruct c eqn:?
         end;
    simpl;
    first [exists []; rewrite app_nil_r; reflexivity
          |eexists; reflexivity].
Qed.

Lemma sum_sizes_cons s segs :
  sum_sizes (s :: segs) = size s + sum_sizes segs.
Proof. reflexivity. Qed.

Lemma sum_sizes_nonneg segs :
  Forall (fun s => 0 <= size s < 2 ^ 64) segs -> 0 <= sum_sizes segs.
Proof.
  induction 1 as [|s rest Hs _ IH]; simpl; lia.
Qed.

(** Where the loop of [offset_translate] stops. *)
Lemma offset_translate_loop_spec segs :
  Forall (fun s => 0 <= size s < 2 ^ 64) segs ->
  forall i0 off,
    0 <= off < 2 ^ 64 ->
    (off < sum_sizes segs ->
     exists k s,
       offset_translate_loop segs i0 off
       = ((i0 + k)%nat, off - sum_sizes (firstn k segs))
       /\ nth_error segs k = Some s
       /\ 0 <= off - sum_sizes (firstn k segs) < size s
       /\ forall j, (j < k)%nat -> sum_sizes (firstn (S j) segs) <= off)
    /\ (sum_sizes segs <= off ->
        offset_translate_loop segs i0 off
        = ((i0 + List.length segs)%nat, off - sum_sizes segs)).
Proof.
  induction 1 as [|s rest Hs Hrest IH]; intros i0 off Hoff.
  - simpl; split; [lia|].
    intros _; rewrite Nat.add_0_r, Z.sub_0_r; reflexivity.
  - pose proof (sum_sizes_nonneg rest Hrest) as Hnn.
    cbn [offset_translate_loop sum_sizes fold_right].
    fold (sum_sizes rest).
    destruct (Z.leb_spec (size s) off) as [L|L].
    + rewrite u64_small by lia.
      destruct (IH (S i0) (off - size s)) as [IH1 IH2]; [lia|].
      split.
      * intros Hlt.
        destruct IH1 as (k & s' & E & N & R & F); [lia|].
        exists (S k), s'.
        rewrite E, firstn_cons, sum_sizes_cons.
        split; [f_equal; lia|].
        split; [exact N|].
        split; [lia|].
        intros j Hj; rewrite firstn_cons, sum_sizes_cons.
        destruct j as [|j]; [simpl; lia|].
        specialize (F j ltac:(lia)); lia.
      * intros Hge; rewrite IH2 by lia.
        cbn [List.length]; f_equal; lia.
    + split; [|lia].
      intros _; exists 0%nat, s.
      cbn [firstn sum_sizes fold_right nth_error].
      rewrite Nat.add_0_r, Z.sub_0_r.
      repeat split; lia.
Qed.

Section Stream.

Variables (rd : ramdump_device) (segs : list ramdump_segment).
Hypothesis Hsegments : segments rd = Some segs.
Hypothesis Hnsegments : nsegments rd = Z.of_nat (List.length segs).
Hypothesis Hsizes : Forall (fun s => 0 <= size s < 2 ^ 64) segs.

Lemma segments_of_installed : segments_of rd = segs.
Proof.
  unfold segments_of; rewrite Hsegments, Hnsegments, Nat2Z.id.
  apply firstn_all.
Qed.

Lemma offset_translate_inside user_offset :
  0 <= user_offset < sum_sizes segs -> user_offset < 2 ^ 64 ->
  exists i s,
    nth_error segs i = Some s
    /\ 0 <= user_offset - sum_sizes (firstn i segs) < size s
    /\ (forall j, (j < i)%nat -> sum_sizes (firstn (S j) segs) <= user_offset)
    /\ offset_translate user_offset rd
       = (u64 (address s + (user_offset - sum_sizes (firstn i segs))),
          size s - (user_offset - sum_sizes (firstn i segs)),
          if v_address s =? 0 then 0
          else u64 (v_address s + (user_offset - sum_sizes (firstn i segs)))).
Proof.
  intros R1 R2.
  destruct (offset_translate_loop_spec segs Hsizes 0%nat user_offset)
    as [L _]; [lia|].
  destruct L as (i & s & E & N & R & F); [lia|].
  exists i, s; repeat split; try assumption; try lia.
  unfold offset_translate; rewrite segments_of_installed, E.
  cbn [Nat.add]; rewrite N.
  assert (Hs : 0 <= size s < 2 ^ 64).
  { apply nth_error_In in N.
    rewrite Forall_forall in Hsizes; apply (Hsizes s N). }
  rewrite (u64_small (size s - _)) by lia.
  reflexivity.
Qed.

Lemma offset_translate_past_end user_offset :
  sum_sizes segs <= user_offset < 2 ^ 64 ->
  offset_translate user_offset rd = (0, 0, 0).
Proof.
  intros R.
  pose proof (sum_sizes_nonneg segs Hsizes) as Hnn.
  destruct (offset_translate_loop_spec segs Hsizes 0%nat user_offset)
    as [_ L]; [lia|].
  unfold offset_translate; rewrite segments_of_installed, L by lia.
  cbn [Nat.add].
  replace (nth_error segs (List.length segs)) with (@None ramdump_segment)
    by (symmetry; apply nth_error_None; lia).
  reflexivity.
Qed.

Variables (env : read_env) (h : nat).
Hypothesis Hready : entry_ready h (consumer_list rd) = true.
Hypothesis Habort : abort_ramdump rd = false.
Hypothesis Hheader : 0 <= elfcore_size rd < 2 ^ 63.

Lemma read_in_header count o :
  0 < count -> 0 <= o < elfcore_size rd ->
  copy_to_user_hdr env = true ->
  forall hdr, elfcore_buf rd = Some hdr ->
  let r := ramdump_read env h count o rd in
  let k := Z.min (elfcore_size rd - o) count in
  exists rest,
    rr_user r
    = firstn (Z.to_nat k) (skipn (Z.to_nat o) (elfcore_bytes hdr)) ++ rest
    /\ (count <= elfcore_size rd - o ->
        rest = [] /\ rr_out r = RdReturn count /\ rr_pos r = o + count).
Proof.
  intros Hcount Ho Hcopy hdr Hbuf r k; subst r.
  rewrite ramdump_read_ready by assumption.
  unfold ramdump_read_stream.
  replace (o <? elfcore_size rd) with true
    by (symmetry; apply Z.ltb_lt; lia).
  rewrite (u64_small (elfcore_size rd - o)) by lia.
  fold k; unfold elfcore_read.
  replace (k =? 0) with false by (symmetry; apply Z.eqb_neq; lia).
  rewrite Hbuf, Hcopy; cbn [negb].
  destruct (Z.eqb_spec (count - k) 0) as [E|E].
  - exists []; rewrite app_nil_r; split; [reflexivity|].
    intros _; simpl; repeat split; f_equal; lia.
  - destruct (ramdump_read_segment_user env h (count - k) (o + k) o
                (firstn (Z.to_nat k)
                   (skipn (Z.to_nat o) (elfcore_bytes hdr))) rd)
      as (rest & Hrest).
    exists rest; split; [exact Hrest|].
    intros Hle; lia.
Qed.

Lemma read_in_segment count o :
  0 < count -> o < 2 ^ 63 ->
  elfcore_size rd <= o < elfcore_size rd + sum_sizes segs ->
  exists i s,
    nth_error segs i = Some s
    /\ let off := o - elfcore_size rd - sum_sizes (firstn i segs) in
       0 <= off < size s
       /\ (forall j, (j < i)%nat ->
             sum_sizes (firstn (S j) segs) <= o - elfcore_size rd)
       /\ let addr := u64 (address s + off) in
          let vaddr :=
            if v_address s =? 0 then 0 else u64 (v_address s + off) in
          offset_translate (o - elfcore_size rd) rd
          = (addr, size s - off, vaddr)
          /\ let copy_size :=
               Z.min (Z.min count MAX_IOREMAP_SIZE) (size s - off) in
             let device_mem := device_mem_of env addr vaddr copy_size in
             (device_mem <> 0 ->
              vzalloc env copy_size = true ->
              copy_to_user_data env = true ->
              copy_in_bounds device_mem copy_size ->
              ramdump_read env h count o rd
              = {| rr_out := RdReturn copy_size;
                   rr_pos := o + copy_size;
                   rr_user := mem_bytes (vmem env) device_mem copy_size;
                   rr_dev := rd |}).
Proof.
  intros Hcount Ho Hin.
  destruct (offset_translate_inside (o - elfcore_size rd))
    as (i & s & N & R & F & OT); [lia|lia|].
  exists i, s; split; [exact N|].
  cbn zeta; split; [lia|split; [exact F|]].
  split; [exact OT|].
  intros NZ VZ CU IB.
  rewrite ramdump_read_ready by assumption.
  unfold ramdump_read_stream.
  replace (o <? elfcore_size rd) with false
    by (symmetry; apply Z.ltb_ge; lia).
  assert (Eo : u64 (o - elfcore_size rd) = o - elfcore_size rd)
    by (apply u64_small; lia).
  rewrite (ramdump_read_segment_ok env h count o o [] rd _ _ _
             ltac:(rewrite Eo; exact OT)); try assumption; try lia.
  - f_equal; f_equal; lia.
  - assert (0 < MAX_IOREMAP_SIZE) by reflexivity.
    assert (Hs : 0 <= size s < 2 ^ 64).
    { apply nth_error_In in N.
      rewrite Forall_forall in Hsizes; apply (Hsizes s N). }
    lia.
Qed.

Lemma read_past_end count o :
  o < 2 ^ 63 -> elfcore_size rd + sum_sizes segs <= o ->
  let r := ramdump_read env h count o rd in
  rr_out r = RdReturn 0 /\ rr_user r = [] /\ rr_pos r = 0.
Proof.
  intros Ho Hge r; subst r.
  pose proof (sum_sizes_nonneg segs Hsizes) as Hnn.
  rewrite ramdump_read_ready by assumption.
  unfold ramdump_read_stream.
  replace (o <? elfcore_size rd) with false
    by (symmetry; apply Z.ltb_ge; lia).
  rewrite ramdump_read_segment_eof; [simpl; auto|].
  unfold data_left_at.
  rewrite (u64_small (o - elfcore_size rd)) by lia.
  rewrite offset_translate_past_end by lia.
  reflexivity.
Qed.

(** Where the read follows the layout of the stream.  A ready consumer
    reads, at offset [o], the stream made of the header and of the
    segments in their order, as long as the header buffer is there and
    the copy stays inside the bounce buffer.  Inside the header the
    bytes written to the user start with the header bytes from offset
    [o] on, and they are all of the read when it asks for no more than
    the header still has.  Behind the header and before the end of the
    last segment, the read is served from the first segment [i] whose end
    in the stream lies beyond [o], at its byte
    [o - H - (sizes of the segments before i)]: that is the address and
    the rest [offset_translate] returns, and when nothing fails the read
    returns the bytes at that place, as many as asked for, up to the
    rest of the segment and up to 1 MiB.  At or behind the end of the
    last segment the read returns 0 and no bytes. *)
Theorem read_indexes_stream count o :
  0 < count -> 0 <= o < 2 ^ 63 ->
  let H := elfcore_size rd in
  let r := ramdump_read env h count o rd in
  (o < H -> copy_to_user_hdr env = true ->
   forall hdr, elfcore_buf rd = Some hdr ->
   let k := Z.min (H - o) count in
   exists rest,
     rr_user r
     = firstn (Z.to_nat k) (skipn (Z.to_nat o) (elfcore_bytes hdr)) ++ rest
     /\ (count <= H - o ->
         rest = [] /\ rr_out r = RdReturn count /\ rr_pos r = o + count))
  /\ (H <= o < H + sum_sizes segs ->
      exists i s,
        nth_error segs i = Some s
        /\ let off := o - H - sum_sizes (firstn i segs) in
           0 <= off < size s
           /\ (forall j, (j < i)%nat ->
                 sum_sizes (firstn (S j) segs) <= o - H)
           /\ let addr := u64 (address s + off) in
              let vaddr :=
                if v_address s =? 0 then 0 else u64 (v_address s + off) in
              offset_translate (o - H) rd = (addr, size s - off, vaddr)
              /\ let copy_size :=
                   Z.min (Z.min count MAX_IOREMAP_SIZE) (size s - off) in
                 let device_mem := device_mem_of env addr vaddr copy_size in
                 (device_mem <> 0 ->
                  vzalloc env copy_size = true ->
                  copy_to_user_data env = true ->
                  copy_in_bounds device_mem copy_size ->
                  r = {| rr_out := RdReturn copy_size;
                         rr_pos := o + copy_size;
                         rr_user := mem_bytes (vmem env) device_mem copy_size;
                         rr_dev := rd |}))
  /\ (H + sum_sizes segs <= o ->
      rr_out r = RdReturn 0 /\ rr_user r = [] /\ rr_pos r = 0).
Proof.
  intros Hcount Ho H r; split; [|split].
  - intros Hlt Hcopy hdr Hbuf.
    apply read_in_header; try assumption; lia.
  - intros Hin; apply read_in_segment; try assumption; lia.
  - intros Hge; apply read_past_end; try assumption; lia.
Qed.

End Stream.

(** The device of the example: no header, segments of 10 and 20 bytes. *)
Lemma raw_session_facts :
  let rd := Scenario.raw_session in
  let segs := [Scenario.seg 3 10; Scenario.seg 19 20] in
  segments rd = Some segs
  /\ nsegments rd = Z.of_nat (List.length segs)
  /\ Forall (fun s => 0 <= size s < 2 ^ 64) segs
  /\ entry_ready 1%nat (consumer_list rd) = true
  /\ abort_ramdump rd = false
  /\ elfcore_size rd = 0
  /\ sum_sizes segs = 30.
Proof.
  repeat split; try reflexivity.
  repeat constructor; simpl; lia.
Qed.

(** The example of C2 for every length asked for: at offset 5 the read
    returns up to 5 bytes from byte 5 of segment 0, at offset 15 up to 15
    bytes from byte 5 of segment 1, at offset 30 nothing. *)
Lemma read_example_sizes_10_20 count :
  0 < count ->
  let rd := Scenario.raw_session in
  let env := Scenario.reader true in
  ramdump_read env 1%nat count 5 rd
  = {| rr_out := RdReturn (Z.min count 5); rr_pos := 5 + Z.min count 5;
       rr_user := mem_bytes (vmem env) (dma_remap env (3 + 5) 0)
                    (Z.min count 5);
       rr_dev := rd |}
  /\ ramdump_read env 1%nat count 15 rd
     = {| rr_out := RdReturn (Z.min count 15); rr_pos := 15 + Z.min count 15;
          rr_user := mem_bytes (vmem env) (dma_remap env (19 + 5) 0)
                       (Z.min count 15);
          rr_dev := rd |}
  /\ rr_out (ramdump_read env 1%nat count 30 rd) = RdReturn 0
  /\ rr_user (ramdump_read env 1%nat count 30 rd) = [].
Proof.
  intros Hcount rd env.
  destruct raw_session_facts as (Hs & Hn & Hsz & Hr & Ha & Hh & Hsum).
  fold rd in Hs, Hn, Hr, Ha, Hh.
  assert (Hh' : 0 <= elfcore_size rd < 2 ^ 63) by (rewrite Hh; lia).
  assert (M : MAX_IOREMAP_SIZE = 1048576) by reflexivity.
  split; [|split].
  - destruct (read_in_segment rd _ Hs Hn Hsz env 1%nat Hr Ha Hh' count 5)
      as (i & s & N & R & _ & _ & OK); try (rewrite ?Hh, ?Hsum; lia).
    rewrite Hh in *.
    destruct i as [|[|[|i]]]; simpl in N; inversion N; subst s;
      simpl in R; try lia.
    cbn zeta in OK; simpl in OK.
    rewrite M in OK.
    replace (Z.min (Z.min count 1048576) 5) with (Z.min count 5) in OK by lia.
    rewrite OK; try reflexivity.
    + discriminate.
    + apply Z.ltb_lt; lia.
    + left; reflexivity.
  - destruct (read_in_segment rd _ Hs Hn Hsz env 1%nat Hr Ha Hh' count 15)
      as (i & s & N & R & _ & _ & OK); try (rewrite ?Hh, ?Hsum; lia).
    rewrite Hh in *.
    destruct i as [|[|[|i]]]; simpl in N; inversion N; subst s;
      simpl in R; try lia.
    cbn zeta in OK; simpl in OK.
    rewrite M in OK.
    replace (Z.min (Z.min count 1048576) 15) with (Z.min count 15) in OK
      by lia.
    rewrite OK; try reflexivity.
    + discriminate.
    + apply Z.ltb_lt; lia.
    + left; reflexivity.
  - destruct (read_past_end rd _ Hs Hn Hsz env 1%nat Hr Ha Hh' count 30)
      as (O & U & _); try (rewrite ?Hh, ?Hsum; lia).
    split; assumption.
Qed.

Lemma read_indexes_stream_witness :
  let rd := Scenario.raw_session in
  let segs := [Scenario.seg 3 10; Scenario.seg 19 20] in
  let env := Scenario.reader true in
  (segments rd = Some segs
   /\ nsegments rd = Z.of_nat (List.length segs)
   /\ Forall (fun s => 0 <= size s < 2 ^ 64) segs
   /\ entry_ready 1%nat (consumer_list rd) = true
   /\ abort_ramdump rd = false
   /\ 0 <= elfcore_size rd < 2 ^ 63)
  /\ ramdump_read env 1%nat 100 5 rd
     = {| rr_out := RdReturn 5; rr_pos := 10;
          rr_user := [8; 9; 10; 11; 12]; rr_dev := rd |}
  /\ ramdump_read env 1%nat 100 15 rd
     = {| rr_out := RdReturn 15; rr_pos := 30;
          rr_user := [24; 25; 26; 27; 28; 29; 30; 31; 32; 33; 34; 35; 36;
                      37; 38];
          rr_dev := rd |}
  /\ rr_out (ramdump_read env 1%nat 100 30 rd) = RdReturn 0
  /\ rr_user (ramdump_read env 1%nat 100 30 rd) = [].
Proof.
  intros rd segs env.
  destruct raw_session_facts as (Hs & Hn & Hsz & Hr & Ha & Hh & Hsum).
  fold rd in Hs, Hn, Hr, Ha, Hh; fold segs in Hs, Hn, Hsz, Hsum.
  assert (Hh' : 0 <= elfcore_size rd < 2 ^ 63) by (rewrite Hh; lia).
  split; [repeat split; try assumption; apply Hh'|].
  assert (C : 0 < 100) by lia.
  split; [|split].
  - destruct (read_indexes_stream rd segs Hs Hn Hsz env 1%nat Hr Ha Hh'
                100 5 C ltac:(lia)) as (_ & In & _).
    destruct In as (i & s & N & R & _ & _ & OK); [rewrite Hh, Hsum; lia|].
    rewrite Hh in *.
    destruct i as [|[|[|i]]]; simpl in N; inversion N; subst s;
      simpl in R; try lia.
    rewrite OK; [reflexivity|discriminate|reflexivity|reflexivity|].
    left; reflexivity.
  - destruct (read_indexes_stream rd segs Hs Hn Hsz env 1%nat Hr Ha Hh'
                100 15 C ltac:(lia)) as (_ & In & _).
    destruct In as (i & s & N & R & _ & _ & OK); [rewrite Hh, Hsum; lia|].
    rewrite Hh in *.
    destruct i as [|[|[|i]]]; simpl in N; inversion N; subst s;
      simpl in R; try lia.
    rewrite OK; [reflexivity|discriminate|reflexivity|reflexivity|].
    left; reflexivity.
  - destruct (read_indexes_stream rd segs Hs Hn Hsz env 1%nat Hr Ha Hh'
                100 30 C ltac:(lia)) as (_ & _ & End).
    destruct End as (O & U & _); [rewrite Hh, Hsum; lia|].
    split; assumption.
Defined.

(** C2.  The example of the stream layout, segments of 10 and 20 bytes
    and no header, with the segments at 8-byte aligned addresses.  The
    consumer reads 5 bytes at offset 0 and gets bytes 0..4 of segment 0.
    Its next read, of 1 byte at offset 5, is translated to byte 5 of
    segment 0 with 5 bytes left, and the byte there is 5; but the read
    returns no byte: lines 243-249 first move
    [bytes_before = 8 - (device_mem & 7) = 3] bytes into the bounce buffer
    of [copy_size = 1] byte.  The same happens to a read of 2 bytes at
    offset 15, which is translated to byte 5 of segment 1 with 15 bytes
    left.  Reads of 3 bytes or more at these offsets are served from
    those places. *)
Theorem read_example_short_read_overruns :
  let rd := Scenario.aligned_session in
  let env := Scenario.reader true in
  (segments rd = Some [Scenario.seg 4096 10; Scenario.seg 8192 20]
   /\ nsegments rd = 2 /\ elfcore_size rd = 0
   /\ entry_ready 1%nat (consumer_list rd) = true
   /\ abort_ramdump rd = false)
  /\ ramdump_read env 1%nat 5 0 rd
     = {| rr_out := RdReturn 5; rr_pos := 5; rr_user := [0; 1; 2; 3; 4];
          rr_dev := rd |}
  /\ (offset_translate 5 rd = (4096 + 5, 5, 0)
      /\ plain_copy (vmem env) (dma_remap env (4096 + 5) 1) 1 = Some [5]
      /\ ramdump_read env 1%nat 1 5 rd
         = {| rr_out := RdOops; rr_pos := 5; rr_user := []; rr_dev := rd |}
      /\ run_events [EvRead env 1%nat 5 0; EvRead env 1%nat 1 5] rd = None)
  /\ (offset_translate 15 rd = (8192 + 5, 15, 0)
      /\ plain_copy (vmem env) (dma_remap env (8192 + 5) 2) 2 = Some [5; 6]
      /\ ramdump_read env 1%nat 2 15 rd
         = {| rr_out := RdOops; rr_pos := 15; rr_user := []; rr_dev := rd |})
  /\ (ramdump_read env 1%nat 3 5 rd
      = {| rr_out := RdReturn 3; rr_pos := 8; rr_user := [5; 6; 7];
           rr_dev := rd |}
      /\ ramdump_read env 1%nat 100 15 rd
         = {| rr_out := RdReturn 15; rr_pos := 30;
              rr_user := [5; 6; 7; 8; 9; 10; 11; 12; 13; 14; 15; 16; 17; 18;
                          19];
              rr_dev := rd |}).
Proof.
  repeat split; vm_compute; reflexivity.
Qed.

(** Every read inside a segment that is shorter than the distance of its
    source to the next 8-byte boundary ends so, whatever the device. *)
Lemma read_short_unaligned_overruns env h count pos rd addr data_left vaddr :
  entry_ready h (consumer_list rd) = true ->
  abort_ramdump rd = false ->
  elfcore_size rd <= pos ->
  offset_translate (u64 (pos - elfcore_size rd)) rd
  = (addr, data_left, vaddr) ->
  data_left <> 0 ->
  let copy_size := Z.min (Z.min count MAX_IOREMAP_SIZE) data_left in
  let device_mem := device_mem_of env addr vaddr copy_size in
  device_mem <> 0 ->
  vzalloc env copy_size = true ->
  Z.land device_mem 7 <> 0 ->
  0 <= copy_size < 8 - Z.land device_mem 7 ->
  rr_out (ramdump_read env h count pos rd) = RdOops.
Proof.
  intros Hr Ha Hp OT DL copy_size device_mem NZ VZ UA SH.
  rewrite ramdump_read_ready by assumption.
  unfold ramdump_read_stream.
  replace (pos <? elfcore_size rd) with false
    by (symmetry; apply Z.ltb_ge; lia).
  unfold ramdump_read_segment; rewrite OT.
  apply Z.eqb_neq in DL; rewrite DL.
  fold copy_size; unfold device_mem_of in device_mem; fold device_mem.
  apply Z.eqb_neq in NZ; rewrite NZ, VZ; cbn [negb].
  rewrite three_phase_copy_overrun by assumption.
  reflexivity.
Qed.

(** A raw dump that follows an ELF32 dump whose header could not be
    allocated: the failed call leaves its header size of 116 recorded
    (lines 470-477), the raw dump does not touch it, the buffer is [NULL],
    and a read at offset 0 copies from the buffer. *)
Lemma read_stale_header :
  let rd := Scenario.stale_header_session in
  elfcore_size rd = 116 /\ elfcore_buf rd = None
  /\ entry_ready 1%nat (consumer_list rd) = true
  /\ rr_out (ramdump_read (Scenario.reader true) 1%nat 1 0 rd) = RdOops.
Proof. repeat split; vm_compute; reflexivity. Qed.

(** C7 as stated fails: a read of 84 + 2^20 bytes at the start of an
    ELF32 dump returns the 84 bytes of the header and 1 MiB of the
    segment. *)
Lemma read_returns_more_than_1MiB :
  elfcore_size Scenario.elf_session = 84
  /\ rr_out (ramdump_read (Scenario.reader true) 1%nat (84 + 1048576) 0
               Scenario.elf_session)
     = RdReturn (84 + 1048576)
  /\ MAX_IOREMAP_SIZE < 84 + 1048576.
Proof.
  split; [reflexivity|].
  split; [|reflexivity].
  rewrite ramdump_read_ready by reflexivity.
  unfold ramdump_read_stream.
  change (elfcore_size Scenario.elf_session) with 84.
  change (0 <? 84) with true; cbv iota.
  change (Z.min (u64 (84 - 0)) (84 + 1048576)) with 84.
  destruct (elfcore_read Scenario.elf_session 0 84) as [bytes|] eqn:E;
    [|vm_compute in E; discriminate].
  change (copy_to_user_hdr (Scenario.reader true)) with true.
  change (84 + 1048576 - 84 =? 0) with false; cbv iota; cbn [negb].
  rewrite (ramdump_read_segment_ok (Scenario.reader true) 1%nat
             (84 + 1048576 - 84) (0 + 84) 0 bytes Scenario.elf_session
             4096 2097152 0); try reflexivity.
  - discriminate.
  - vm_compute; split; congruence.
  - discriminate.
  - left; reflexivity.
Qed.

(** ** What one call of [set_section_name] stores *)

Lemma c_string_app_zero cs rest :
  Forall (fun c => c <> zero_char) cs ->
  c_string (cs ++ zero_char :: rest) = string_of_list_ascii cs.
Proof.
  induction 1 as [|c cs Hc _ IH]; simpl.
  - reflexivity.
  - apply Ascii.eqb_neq in Hc; rewrite Hc, IH; reflexivity.
Qed.

Lemma length_list_ascii_of_string nm :
  List.length (list_ascii_of_string nm) = String.length nm.
Proof. induction nm as [|c nm IH]; simpl; [reflexivity|rewrite IH; reflexivity]. Qed.

(** A name of [n] characters without a NUL, stored at [idx] with room for
    it: the table holds its first [min n 15] characters and a terminator
    from [idx] on, the returned offset is [idx], and the next name goes
    to [idx + n + 1].  The entries are adjacent exactly when [n <= 15];
    a longer name leaves [n - 15] bytes unused behind its terminator. *)
Lemma set_section_name_stores nm ehdr strtab idx :
  Elf64.e_shstrndx ehdr <> 0 ->
  Forall (fun c => c <> zero_char) (list_ascii_of_string nm) ->
  let n := Z.of_nat (String.length nm) in
  let stored := Z.min n (MAX_NAME_LENGTH - 1) in
  0 <= idx -> idx + n + 1 < 2 ^ 31 ->
  idx + stored + 1 <= Z.of_nat (List.length strtab) ->
  exists strtab',
    set_section_name (Some nm) ehdr strtab idx
    = (Some strtab', idx, idx + n + 1)
    /\ List.length strtab' = List.length strtab
    /\ firstn (Z.to_nat idx) strtab' = firstn (Z.to_nat idx) strtab
    /\ c_string_at strtab' idx
       = string_of_list_ascii
           (firstn (Z.to_nat stored) (list_ascii_of_string nm))
    /\ skipn (Z.to_nat (idx + stored + 1)) strtab'
       = skipn (Z.to_nat (idx + stored + 1)) strtab.
Proof.
  intros Hndx Hnz n stored Hidx Hmax Hroom.
  unfold set_section_name, elf_str_table.
  apply Z.eqb_neq in Hndx; rewrite Hndx.
  unfold strlcpy, MAX_NAME_LENGTH in *.
  fold n; cbn [Z.eqb].
  assert (Hlen : (if 16 <=? n then 16 - 1 else n) = stored).
  { unfold stored; destruct (Z.leb_spec 16 n); lia. }
  rewrite Hlen.
  set (cs := firstn (Z.to_nat stored) (list_ascii_of_string nm)).
  assert (Lcs : List.length cs = Z.to_nat stored).
  { unfold cs; rewrite length_firstn, length_list_ascii_of_string.
    unfold stored, n; lia. }
  unfold store_chars.
  rewrite length_app, Lcs; cbn [List.length].
  replace (0 <=? idx) with true by (symmetry; apply Z.leb_le; lia).
  replace (idx + Z.of_nat (Z.to_nat stored + 1) <=? Z.of_nat (List.length strtab))
    with true by (symmetry; apply Z.leb_le; unfold stored, n in *; lia).
  cbn [andb].
  rewrite (s32_small (idx + n)) by lia.
  rewrite (s32_small (idx + n + 1)) by lia.
  rewrite (u32_small idx) by lia.
  eexists; split; [reflexivity|].
  assert (Lf : List.length (firstn (Z.to_nat idx) strtab) = Z.to_nat idx)
    by (rewrite length_firstn; unfold stored, n in *; lia).
  split; [|split; [|split]].
  - rewrite !length_app, Lf, Lcs, length_skipn; cbn [List.length].
    unfold stored, n in *; lia.
  - rewrite firstn_app, Lf, Nat.sub_diag, firstn_O, app_nil_r.
    apply firstn_all2; lia.
  - unfold c_string_at.
    rewrite skipn_app, Lf, Nat.sub_diag; cbn [skipn].
    rewrite skipn_all2 by lia; cbn [app].
    rewrite <- app_assoc; cbn [app].
    apply c_string_app_zero.
    unfold cs; apply Forall_forall; intros c Hc.
    rewrite Forall_forall in Hnz; apply Hnz.
    rewrite <- (firstn_skipn (Z.to_nat stored) (list_ascii_of_string nm)).
    apply in_or_app; left; exact Hc.
  - rewrite app_assoc, skipn_app.
    rewrite skipn_all2
      by (rewrite !length_app, Lf, Lcs; cbn [List.length];
          unfold stored, n in *; lia).
    rewrite !length_app, Lf, Lcs; cbn [List.length app].
    rewrite skipn_skipn; f_equal.
    unfold stored, n in *; lia.
Qed.

(** ** The size of the header image *)

Lemma length_le_bytes n : forall v, List.length (le_bytes n v) = n.
Proof. induction n as [|n IH]; intros v; simpl; [|rewrite IH]; reflexivity. Qed.

Lemma length_ident_bytes id : List.length (ident_bytes id) = 16%nat.
Proof.
  unfold ident_bytes; rewrite length_firstn, length_app, repeat_length; lia.
Qed.

Lemma length_ehdr32_bytes e : List.length (ehdr32_bytes e) = 52%nat.
Proof.
  unfold ehdr32_bytes.
  rewrite !length_app, length_ident_bytes, !length_le_bytes; reflexivity.
Qed.

Lemma length_phdr32_bytes p : List.length (phdr32_bytes p) = 32%nat.
Proof.
  unfold phdr32_bytes; rewrite !length_app, !length_le_bytes; reflexivity.
Qed.

Lemma length_ehdr64_bytes e : List.length (ehdr64_bytes e) = 64%nat.
Proof.
  unfold ehdr64_bytes.
  rewrite !length_app, length_ident_bytes, !length_le_bytes; reflexivity.
Qed.

Lemma length_shdr64_bytes s : List.length (shdr64_bytes s) = 64%nat.
Proof.
  unfold shdr64_bytes; rewrite !length_app, !length_le_bytes; reflexivity.
Qed.

Lemma length_flat_map_const {A B : Type} (f : A -> list B) k l :
  (forall x, List.length (f x) = k) ->
  List.length (flat_map f l) = (k * List.length l)%nat.
Proof.
  intros Hf; induction l as [|x l IH]; simpl; [lia|].
  rewrite length_app, Hf, IH; lia.
Qed.

(** The image of an ELF32 core header has the size [_do_ramdump] records
    in [elfcore_size]. *)
Lemma length_elf32_core e phdrs :
  Z.of_nat (List.length (elfcore_bytes (Elf32Core e phdrs)))
  = Elf32.sizeof_Ehdr + Elf32.sizeof_Phdr * Z.of_nat (List.length phdrs).
Proof.
  cbn [elfcore_bytes]; rewrite length_app, length_ehdr32_bytes.
  rewrite (length_flat_map_const phdr32_bytes 32) by apply length_phdr32_bytes.
  unfold Elf32.sizeof_Ehdr, Elf32.sizeof_Phdr; lia.
Qed.

Lemma length_section_core e shdrs strtab :
  Z.of_nat (List.length (elfcore_bytes (SectionCore e shdrs strtab)))
  = Elf64.sizeof_Ehdr + Elf64.sizeof_Shdr * Z.of_nat (List.length shdrs)
    + Z.of_nat (List.length strtab).
Proof.
  cbn [elfcore_bytes]; rewrite !length_app, length_ehdr64_bytes, length_map.
  rewrite (length_flat_map_const shdr64_bytes 64) by apply length_shdr64_bytes.
  unfold Elf64.sizeof_Ehdr, Elf64.sizeof_Shdr; lia.
Qed.

(** The header of the two segments [(0x1000, 0x100)] and
    [(0x2000, 0x200)]: two program headers, the data of the first segment
    right behind the header block of 116 bytes. *)
Lemma elf32_header_two_segments :
  match _do_ramdump_prepare true Scenario.one_consumer
          [Scenario.seg 4096 256; Scenario.seg 8192 512] true false with
  | PrepWait rd _ =>
      match elfcore_buf rd with
      | Some (Elf32Core ehdr [ph0; ph1] as hdr) =>
          Elf32.e_phnum ehdr = 2
          /\ elfcore_size rd = 116
          /\ List.length (elfcore_bytes hdr) = 116%nat
          /\ (Elf32.p_vaddr ph0, Elf32.p_filesz ph0, Elf32.p_offset ph0)
             = (4096, 256, 116)
          /\ (Elf32.p_vaddr ph1, Elf32.p_filesz ph1, Elf32.p_offset ph1)
             = (8192, 512, 372)
      | _ => False
      end
  | _ => False
  end.
Proof. vm_compute; repeat split. Qed.

(** * Further properties of the device *)

(** ** The consumer list and its counters *)

Lemma map_handle_set_data_ready h b l :
  map handle (set_data_ready h b l) = map handle l.
Proof.
  induction l as [|e l IH]; simpl; [reflexivity|].
  rewrite IH; destruct (Nat.eqb (handle e) h); reflexivity.
Qed.

Lemma length_set_data_ready h b l :
  List.length (set_data_ready h b l) = List.length l.
Proof. unfold set_data_ready; apply length_map. Qed.

Lemma entry_ready_not_in h l :
  ~ In h (map handle l) -> entry_ready h l = false.
Proof.
  induction l as [|e l IH]; simpl; intros H; [reflexivity|].
  destruct (Nat.eqb_spec (handle e) h) as [E|E]; [tauto|].
  simpl; apply IH; tauto.
Qed.

Lemma entry_ready_other h h' b l :
  h' <> h ->
  entry_ready h' (set_data_ready h b l) = entry_ready h' l.
Proof.
  intros Hne; induction l as [|e l IH]; simpl; [reflexivity|].
  rewrite IH; f_equal.
  destruct (Nat.eqb_spec (handle e) h) as [E|E]; [|reflexivity].
  simpl; subst h.
  destruct (Nat.eqb_spec (handle e) h'); [congruence|reflexivity].
Qed.

Lemma set_data_ready_not_in h b l :
  ~ In h (map handle l) -> set_data_ready h b l = l.
Proof.
  induction l as [|e l IH]; simpl; intros H; [reflexivity|].
  destruct (Nat.eqb_spec (handle e) h) as [E|E]; [tauto|].
  rewrite IH by tauto; reflexivity.
Qed.

Lemma list_del_not_in h l :
  ~ In h (map handle l) -> list_del h l = l.
Proof.
  induction l as [|e l IH]; simpl; intros H; [reflexivity|].
  destruct (Nat.eqb_spec (handle e) h) as [E|E]; [tauto|].
  simpl; rewrite IH by tauto; reflexivity.
Qed.

(** Clearing the flag of an entry takes one off the count of ready
    entries when the entry was ready, and nothing otherwise. *)
Lemma ready_count_reset h l :
  NoDup (map handle l) ->
  ready_count (set_data_ready h false l)
  = (ready_count l - (if entry_ready h l then 1 else 0))%nat.
Proof.
  unfold ready_count.
  induction l as [|e l IH]; simpl; intros ND; [reflexivity|].
  inversion ND as [|x xs Hx ND']; subst.
  destruct (Nat.eqb_spec (handle e) h) as [E|E]; simpl.
  - subst h.
    rewrite (set_data_ready_not_in (handle e) false l Hx).
    rewrite (entry_ready_not_in (handle e) l Hx), orb_false_r.
    destruct (data_ready e); simpl; lia.
  - destruct (data_ready e); simpl; rewrite IH by assumption;
      [|reflexivity].
    destruct (entry_ready h l) eqn:R; [|lia].
    assert (0 < List.length (filter data_ready l))%nat; [|lia].
    clear - R; induction l as [|e' l IH]; simpl in *; [discriminate|].
    destruct (data_ready e') eqn:D; simpl; [lia|].
    rewrite andb_false_r in R; simpl in R; auto.
Qed.


Lemma length_list_del h l :
  NoDup (map handle l) -> In h (map handle l) ->
  S (List.length (list_del h l)) = List.length l.
Proof.
  unfold list_del.
  induction l as [|e l IH]; simpl; intros ND Hin; [contradiction|].
  inversion ND as [|x xs Hx ND']; subst.
  destruct (Nat.eqb_spec (handle e) h) as [E|E]; simpl.
  - subst h; fold (list_del (handle e) l).
    rewrite list_del_not_in by exact Hx; reflexivity.
  - destruct Hin as [Hin|Hin]; [contradiction|].
    rewrite IH by assumption; reflexivity.
Qed.

Lemma map_handle_list_del h l :
  map handle (list_del h l) = filter (fun x => negb (Nat.eqb x h)) (map handle l).
Proof.
  unfold list_del; induction l as [|e l IH]; simpl; [reflexivity|].
  destruct (Nat.eqb (handle e) h); simpl; rewrite IH; reflexivity.
Qed.

Lemma NoDup_filter {A : Type} (f : A -> bool) l :
  NoDup l -> NoDup (filter f l).
Proof.
  induction 1 as [|x l Hx ND IH]; simpl; [constructor|].
  destruct (f x); [|exact IH].
  constructor; [|exact IH].
  intros Hin; apply filter_In in Hin; tauto.
Qed.

(** What a read can do to the device: nothing, or the reset of its entry
    after the wait was passed. *)
Lemma ramdump_read_dev_cases env h count pos rd :
  rr_dev (ramdump_read env h count pos rd) = rd
  \/ exists rd0,
       rr_dev (ramdump_read env h count pos rd) = reset_ramdump_entry h rd0
       /\ consumer_list rd0 = consumer_list rd
       /\ consumers rd0 = consumers rd
       /\ readers_left rd0 = readers_left rd
       /\ ramdump_complete rd0 = ramdump_complete rd
       /\ abort_ramdump rd0 = abort_ramdump rd
       /\ (entry_ready h (consumer_list rd) = true
           \/ abort_ramdump rd = true).
Proof.
  unfold ramdump_read.
  destruct (f_nonblock env && negb _); [left; reflexivity|].
  destruct (entry_ready h (consumer_list rd) || abort_ramdump rd) eqn:G;
    cbn [negb]; [|destruct (signal_pending env); left; reflexivity].
  apply orb_true_iff in G.
  assert (D : forall rd0 ret user,
             consumer_list rd0 = consumer_list rd ->
             consumers rd0 = consumers rd ->
             readers_left rd0 = readers_left rd ->
             ramdump_complete rd0 = ramdump_complete rd ->
             abort_ramdump rd0 = abort_ramdump rd ->
             exists rd1,
               rr_dev (ramdump_done h rd0 ret user) = reset_ramdump_entry h rd1
               /\ consumer_list rd1 = consumer_list rd
               /\ consumers rd1 = consumers rd
               /\ readers_left rd1 = readers_left rd
               /\ ramdump_complete rd1 = ramdump_complete rd
               /\ abort_ramdump rd1 = abort_ramdump rd
               /\ (entry_ready h (consumer_list rd) = true
                   \/ abort_ramdump rd = true)).
  { intros rd0 ret user; intros; exists rd0; repeat split; assumption. }
  assert (S : forall c p o u,
             rr_dev (ramdump_read_segment env h c p o u rd) = rd
             \/ exists rd1,
                  rr_dev (ramdump_read_segment env h c p o u rd)
                  = reset_ramdump_entry h rd1
                  /\ consumer_list rd1 = consumer_list rd
                  /\ consumers rd1 = consumers rd
                  /\ readers_left rd1 = readers_left rd
                  /\ ramdump_complete rd1 = ramdump_complete rd
                  /\ abort_ramdump rd1 = abort_ramdump rd
                  /\ (entry_ready h (consumer_list rd) = true
                      \/ abort_ramdump rd = true)).
  { intros c p o u; unfold ramdump_read_segment.
    destruct (offset_translate _ rd) as [[addr data_left] vaddr].
    repeat match goal with
           | |- context [if ?c then _ else _] => destruct c
           | |- context [match ?c with Some _ => _ | None => _ end] =>
               destruct c
           end;
      first [left; reflexivity | right; apply D; reflexivity]. }
  destruct (abort_ramdump rd) eqn:A;
    [right; apply D; first [reflexivity|exact A]|].
  unfold ramdump_read_stream.
  repeat match goal with
         | |- context [if ?c then _ else _] => destruct c
         | |- context [match ?c with Some _ => _ | None => _ end] =>
             destruct c
         end;
    first [left; reflexivity
          |right; apply D; first [reflexivity|exact A]
          |apply S].
Qed.

Lemma registry_ok_reset h rd :
  registry_ok rd -> registry_ok (reset_ramdump_entry h rd).
Proof.
  unfold registry_ok, handles; simpl.
  rewrite map_handle_set_data_ready, length_set_data_ready; tauto.
Qed.

Lemma registry_ok_event ev rd :
  registry_ok rd -> event_ok ev rd -> registry_ok (snd (run_event ev rd)).
Proof.
  intros (ND & C & B) OK.
  destruct ev as [ok h|h|env h count pos]; simpl in *.
  - unfold ramdump_open; destruct ok; simpl; [|repeat split; assumption].
    destruct OK as [Hfresh Hroom].
    unfold registry_ok, handles; simpl.
    rewrite map_app, length_app; simpl.
    repeat split.
    + apply NoDup_app; [exact ND|repeat constructor; simpl; tauto|].
      intros x Hx [Hy|[]]; subst; contradiction.
    + rewrite C, u32_small by lia; lia.
    + lia.
  - unfold ramdump_release.
    assert (R : registry_ok
                  (if entry_ready h (consumer_list rd)
                   then reset_ramdump_entry h rd else rd)).
    { destruct (entry_ready h (consumer_list rd));
        [apply registry_ok_reset|]; repeat split; assumption. }
    assert (Hin : In h (handles (if entry_ready h (consumer_list rd)
                                 then reset_ramdump_entry h rd else rd))).
    { destruct (entry_ready h (consumer_list rd)); [|exact OK].
      unfold handles; simpl; rewrite map_handle_set_data_ready; exact OK. }
    set (rd1 := if entry_ready h (consumer_list rd)
                then reset_ramdump_entry h rd else rd) in *.
    destruct R as (ND1 & C1 & B1).
    pose proof (length_list_del h (consumer_list rd1) ND1 Hin) as L.
    unfold registry_ok, handles; simpl.
    repeat split.
    + rewrite map_handle_list_del; apply NoDup_filter; exact ND1.
    + rewrite C1, u32_small by lia; lia.
    + lia.
  - destruct (ramdump_read_dev_cases env h count pos rd)
      as [E|(rd0 & E & L & C0 & _)]; rewrite E.
    + repeat split; assumption.
    + apply registry_ok_reset; unfold registry_ok, handles.
      rewrite L, C0; repeat split; assumption.
Qed.

(** X1.  [consumers] is the number of entries on [consumer_list], and the
    entries are distinct: whatever the consumers do (open with a new
    entry, release of an entry on the list, any read), this holds after
    it did before. *)
Theorem consumers_counts_entries evs : forall rd log rd',
  registry_ok rd -> events_ok evs rd ->
  run_events evs rd = Some (log, rd') ->
  registry_ok rd'.
Proof.
  induction evs as [|ev evs IH]; simpl; intros rd log rd' R OK H.
  - inversion H; subst; exact R.
  - destruct OK as [OK1 OK2].
    pose proof (registry_ok_event ev rd R OK1) as R1.
    destruct (run_event ev rd) as [out rd1]; simpl in *.
    destruct (run_events evs rd1) as [[outs rd2]|] eqn:E.
    + assert (rd' = rd2) by (destruct out; inversion H; reflexivity).
      subst; eapply IH; eassumption.
    + destruct out; discriminate.
Qed.

(** ** The count of readers during a session *)


Lemma entry_ready_ready_count h l :
  entry_ready h l = true -> (0 < ready_count l)%nat.
Proof.
  unfold ready_count; induction l as [|e l IH]; simpl; [discriminate|].
  intros R; apply orb_true_iff in R.
  destruct (data_ready e) eqn:D; simpl; [lia|].
  destruct R as [R|R]; [rewrite andb_false_r in R; discriminate|].
  apply IH; exact R.
Qed.

Lemma ready_count_le_length l : (ready_count l <= List.length l)%nat.
Proof. unfold ready_count; apply filter_length_le. Qed.

Lemma session_ok_ext rd rd0 :
  consumer_list rd0 = consumer_list rd ->
  readers_left rd0 = readers_left rd ->
  ramdump_complete rd0 = ramdump_complete rd ->
  abort_ramdump rd0 = abort_ramdump rd ->
  session_ok rd -> session_ok rd0.
Proof.
  unfold session_ok; intros -> -> -> ->; tauto.
Qed.

(** The reset of a ready entry keeps the session in order. *)
Lemma session_ok_reset h rd :
  registry_ok rd -> session_ok rd ->
  entry_ready h (consumer_list rd) = true ->
  session_ok (reset_ramdump_entry h rd).
Proof.
  intros (ND & C & B) (A & RL & D) R.
  pose proof (entry_ready_ready_count h _ R) as Pos.
  pose proof (ready_count_le_length (consumer_list rd)) as Le.
  pose proof (ready_count_reset h (consumer_list rd) ND) as Cnt.
  rewrite R in Cnt.
  unfold session_ok, reset_ramdump_entry; simpl.
  rewrite Cnt, RL, s32_small by lia.
  split; [exact A|].
  split; [lia|].
  destruct D as [[D0 _]|[_ D1]]; [|lia].
  rewrite D0.
  destruct (Z.eqb_spec (Z.of_nat (ready_count (consumer_list rd)) - 1) 0);
    [right|left]; split; lia.
Qed.


Lemma dump_prepare_wait c kz rd segs rd' segs' :
  dump_prepare c kz rd segs = PrepWait rd' segs' ->
  consumers rd <> 0
  /\ exists rd0,
       rd' = start_session rd0
       /\ consumer_list rd0 = consumer_list rd
       /\ consumers rd0 = consumers rd.
Proof.
  destruct c as [use_elf complete|]; simpl;
    unfold _do_ramdump_prepare, _do_minidump_prepare;
    destruct (Z.eqb_spec (consumers rd) 0) as [E|E]; try discriminate.
  - destruct use_elf; [destruct kz; simpl; [|discriminate]|];
      intros H; inversion H; subst;
      (split; [exact E|eexists; split; [reflexivity|split; reflexivity]]).
  - destruct kz; simpl; [|discriminate].
    destruct (minidump_header segs _) as [buf|]; [|discriminate].
    intros H; inversion H; subst.
    split; [exact E|eexists; split; [reflexivity|split; reflexivity]].
Qed.

Lemma ready_count_all_ready l :
  ready_count (map (fun e => {| handle := handle e; data_ready := true |}) l)
  = List.length l.
Proof.
  unfold ready_count; induction l as [|e l IH]; simpl;
    [reflexivity|rewrite IH; reflexivity].
Qed.

Lemma start_session_ok rd :
  registry_ok rd -> consumers rd <> 0 ->
  registry_ok (start_session rd) /\ session_ok (start_session rd).
Proof.
  intros (ND & C & B) NZ.
  split.
  - unfold registry_ok, handles, start_session; simpl.
    rewrite map_map, length_map; simpl.
    repeat split; assumption.
  - unfold session_ok, start_session; simpl.
    rewrite ready_count_all_ready, C, s32_small by lia.
    repeat split; left; split; [reflexivity|lia].
Qed.


(** ** A dump that every consumer reads to the end *)

Lemma dump_prepare_wait_segments c kz rd segs rd' segs' :
  dump_prepare c kz rd segs = PrepWait rd' segs' ->
  segments rd' = Some segs'
  /\ nsegments rd' = Z.of_nat (List.length segs').
Proof.
  destruct c as [use_elf complete|]; simpl;
    unfold _do_ramdump_prepare, _do_minidump_prepare;
    destruct (consumers rd =? 0); try discriminate.
  - rewrite compact_segments_compacted.
    assert (L : List.length (if complete then compacted segs else segs)
                = List.length segs)
      by (destruct complete; [apply length_compacted|reflexivity]).
    destruct use_elf; [destruct kz; simpl; [|discriminate]|];
      intros H; inversion H; subst; simpl; rewrite L; split; reflexivity.
  - destruct kz; simpl; [|discriminate].
    destruct (minidump_header segs _) as [buf|]; [|discriminate].
    intros H; inversion H; subst; split; reflexivity.
Qed.

(** A read at or behind the end of the stream, by a ready consumer. *)
Lemma ramdump_read_eof env h count o rd segs :
  segments rd = Some segs ->
  nsegments rd = Z.of_nat (List.length segs) ->
  Forall (fun s => 0 <= size s < 2 ^ 64) segs ->
  entry_ready h (consumer_list rd) = true ->
  abort_ramdump rd = false ->
  0 <= elfcore_size rd ->
  elfcore_size rd + sum_sizes segs <= o < 2 ^ 63 ->
  ramdump_read env h count o rd
  = ramdump_done h (set_ramdump_status rd 0) 0 [].
Proof.
  intros Hs Hn Hsz R A H0 Ho.
  pose proof (sum_sizes_nonneg segs Hsz) as Hnn.
  rewrite ramdump_read_ready by assumption.
  unfold ramdump_read_stream.
  replace (o <? elfcore_size rd) with false
    by (symmetry; apply Z.ltb_ge; lia).
  apply ramdump_read_segment_eof.
  unfold data_left_at.
  rewrite (u64_small (o - elfcore_size rd)) by lia.
  rewrite (offset_translate_past_end rd segs Hs Hn Hsz) by lia.
  reflexivity.
Qed.

Lemma eof_reads_finish env count o segs : forall hs rd,
  segments rd = Some segs ->
  nsegments rd = Z.of_nat (List.length segs) ->
  Forall (fun s => 0 <= size s < 2 ^ 64) segs ->
  0 <= elfcore_size rd ->
  elfcore_size rd + sum_sizes segs <= o < 2 ^ 63 ->
  registry_ok rd -> session_ok rd ->
  NoDup hs ->
  (forall h, In h hs -> entry_ready h (consumer_list rd) = true) ->
  exists rd',
    run_events (map (fun h => EvRead env h count o) hs) rd
    = Some (map (fun _ => RdReturn 0) hs, rd')
    /\ session_ok rd'
    /\ (ready_count (consumer_list rd')
        = ready_count (consumer_list rd) - List.length hs)%nat
    /\ (hs <> [] -> ramdump_status rd' = 0).
Proof.
  induction hs as [|h hs IH]; intros rd Hs Hn Hsz H0 Ho R S ND All.
  - exists rd; simpl.
    split; [reflexivity|split; [exact S|split; [lia|]]].
    intros H; contradiction.
  - inversion ND as [|x xs Hx ND']; subst.
    assert (Rh : entry_ready h (consumer_list rd) = true)
      by (apply All; left; reflexivity).
    assert (A : abort_ramdump rd = false) by (destruct S; assumption).
    cbn [map run_events run_event].
    rewrite (ramdump_read_eof env h count o rd segs) by assumption.
    cbn [rr_out rr_dev ramdump_done].
    set (rd1 := reset_ramdump_entry h (set_ramdump_status rd 0)).
    assert (R0 : registry_ok (set_ramdump_status rd 0))
      by (destruct R as (A1 & A2 & A3); repeat split; assumption).
    assert (S0 : session_ok (set_ramdump_status rd 0))
      by (apply (session_ok_ext rd); try reflexivity; exact S).
    assert (R1 : registry_ok rd1) by (apply registry_ok_reset; exact R0).
    assert (S1 : session_ok rd1)
      by (apply session_ok_reset; assumption).
    assert (C1 : ready_count (consumer_list rd1)
                 = (ready_count (consumer_list rd) - 1)%nat).
    { unfold rd1; simpl.
      rewrite ready_count_reset by (destruct R; assumption).
      rewrite Rh; reflexivity. }
    destruct (IH rd1) as (rd' & E & S' & C' & St); try assumption.
    + intros h' Hin; unfold rd1; simpl.
      rewrite entry_ready_other by (intros ->; contradiction).
      apply All; right; exact Hin.
    + exists rd'; rewrite E; split; [reflexivity|].
      split; [exact S'|].
      split; [rewrite C', C1; simpl; lia|].
      intros _; destruct hs as [|h2 hs2]; [|apply St; discriminate].
      simpl in E; inversion E; subst; reflexivity.
Qed.

Lemma start_session_all_ready rd h :
  In h (handles rd) ->
  entry_ready h (consumer_list (start_session rd)) = true.
Proof.
  unfold handles, start_session; simpl.
  induction (consumer_list rd) as [|e l IH]; simpl; intros H; [contradiction|].
  destruct H as [H|H].
  - rewrite H, Nat.eqb_refl; reflexivity.
  - rewrite (IH H); apply orb_true_r.
Qed.

(** X3.  When every consumer that is registered at the start of a dump
    reads the end of the stream, the dump call returns 0 without a
    timeout, whatever state earlier sessions left the device in. *)
Theorem dump_returns_0_when_all_read_to_end c env rd segs rd' segs'
    renv count o :
  registry_ok rd ->
  dump_prepare c (kzalloc_ok env) rd segs = PrepWait rd' segs' ->
  Forall (fun s => 0 <= size s < 2 ^ 64) segs' ->
  0 <= elfcore_size rd' ->
  elfcore_size rd' + sum_sizes segs' <= o < 2 ^ 63 ->
  during_wait env
  = map (fun e => EvRead renv (handle e) count o) (consumer_list rd) ->
  dr_out (dump c env rd segs) = DumpReturn 0
  /\ dr_log (dump c env rd segs)
     = map (fun _ => RdReturn 0) (consumer_list rd)
  /\ abort_ramdump (dr_dev (dump c env rd segs)) = false
  /\ readers_left (dr_dev (dump c env rd segs)) = 0.
Proof.
  intros R P Hsz H0 Ho W.
  destruct (dump_prepare_wait_segments _ _ _ _ _ _ P) as [Hs Hn].
  destruct (dump_prepare_wait _ _ _ _ _ _ P) as (NZ & rd0 & E0 & L & C).
  assert (R0 : registry_ok rd0).
  { destruct R as (ND & C' & B); unfold registry_ok, handles.
    rewrite L, C; repeat split; assumption. }
  destruct (start_session_ok rd0 R0 ltac:(congruence)) as [R1 S1].
  rewrite <- E0 in R1, S1.
  assert (ND : NoDup (handles rd)) by (destruct R; assumption).
  destruct (eof_reads_finish renv count o segs' (handles rd) rd')
    as (rd2 & E & S2 & C2 & St); try assumption.
  { intros h Hin; rewrite E0; apply start_session_all_ready.
    unfold handles in *; rewrite L; exact Hin. }
  assert (Len : List.length (handles rd) = List.length (consumer_list rd))
    by (unfold handles; apply length_map).
  assert (Pos : (0 < List.length (consumer_list rd))%nat).
  { destruct R as (_ & C' & _); lia. }
  assert (Cnt : ready_count (consumer_list rd2) = 0%nat).
  { rewrite C2, Len.
    pose proof (ready_count_le_length (consumer_list rd')) as Le.
    assert (List.length (consumer_list rd') = List.length (consumer_list rd)).
    { rewrite E0; unfold start_session; simpl.
      rewrite length_map, L; reflexivity. }
    lia. }
  destruct S2 as (A2 & RL2 & D2).
  destruct D2 as [[_ D2]|[D2 _]]; [lia|].
  rewrite dump_unfold, P; cbn [finish_dump].
  unfold wait_and_finish.
  rewrite W, <- (map_map handle (fun h => EvRead renv h count o)).
  fold (handles rd); rewrite E.
  rewrite D2; cbn [Z.ltb Z.compare].
  cbn [set_readers_left ramdump_status].
  rewrite St by (intros H; rewrite H in Len; simpl in Len; lia).
  cbn [Z.eqb dr_out dr_log dr_dev].
  unfold handles; rewrite map_map.
  repeat split; simpl; try assumption.
  rewrite RL2, Cnt; reflexivity.
Qed.

(** ** Timeout *)

Lemma run_event_abort ev rd :
  abort_ramdump (snd (run_event ev rd)) = abort_ramdump rd.
Proof.
  destruct ev as [ok h|h|env h count pos]; simpl.
  - unfold ramdump_open; destruct ok; reflexivity.
  - unfold ramdump_release; destruct (entry_ready _ _); reflexivity.
  - destruct (ramdump_read_dev_cases env h count pos rd)
      as [E|(rd0 & E & _ & _ & _ & _ & A & _)]; rewrite E;
      [reflexivity|exact A].
Qed.

Lemma run_events_abort evs : forall rd log rd',
  run_events evs rd = Some (log, rd') ->
  abort_ramdump rd' = abort_ramdump rd.
Proof.
  induction evs as [|ev evs IH]; simpl; intros rd log rd' H.
  - inversion H; reflexivity.
  - pose proof (run_event_abort ev rd) as A.
    destruct (run_event ev rd) as [out rd1]; simpl in A.
    destruct (run_events evs rd1) as [[outs rd2]|] eqn:E.
    + assert (rd' = rd2) by (destruct out; inversion H; reflexivity).
      subst; rewrite (IH _ _ _ E); exact A.
    + destruct out; discriminate.
Qed.



(** ** A consumer that opens the device during a session *)

Lemma entry_ready_app h l1 l2 :
  entry_ready h (l1 ++ l2) = entry_ready h l1 || entry_ready h l2.
Proof. unfold entry_ready; apply existsb_app. Qed.

(** X5.  A consumer that opens the device while a dump is under way and
    not aborted does not take part in it: it is not ready (poll reports
    nothing to read), the count of readers left and the readiness of the
    other consumers are what they were, and its reads return [-EAGAIN]
    when nonblocking and otherwise sleep, or return [-ERESTARTSYS] on a
    signal, without touching the device. *)
Theorem late_consumer_not_in_session h rd :
  ~ In h (handles rd) ->
  abort_ramdump rd = false ->
  let rd' := snd (ramdump_open true h rd) in
  ramdump_poll h rd' = false
  /\ readers_left rd' = readers_left rd
  /\ ramdump_complete rd' = ramdump_complete rd
  /\ (forall h', h' <> h ->
        entry_ready h' (consumer_list rd') = entry_ready h' (consumer_list rd))
  /\ forall env count pos,
       ramdump_read env h count pos rd'
       = {| rr_out := if f_nonblock env then RdReturn (- EAGAIN)
                      else if signal_pending env
                           then RdReturn (- ERESTARTSYS)
                           else RdBlocked;
            rr_pos := pos; rr_user := []; rr_dev := rd' |}.
Proof.
  intros Hfresh A rd'.
  assert (NR : entry_ready h (consumer_list rd') = false).
  { unfold rd'; simpl; rewrite entry_ready_app.
    rewrite (entry_ready_not_in h _ Hfresh); simpl.
    rewrite andb_false_r; reflexivity. }
  split; [exact NR|].
  split; [reflexivity|].
  split; [reflexivity|].
  split.
  - intros h' Hne; unfold rd'; simpl; rewrite entry_ready_app; simpl.
    destruct (Nat.eqb_spec h h'); [congruence|].
    simpl; rewrite orb_false_r; reflexivity.
  - intros env count pos; unfold ramdump_read.
    rewrite NR; cbn [negb orb].
    replace (abort_ramdump rd') with false by (symmetry; exact A).
    rewrite andb_true_r.
    destruct (f_nonblock env); [reflexivity|].
    cbn [negb]; destruct (signal_pending env); reflexivity.
Qed.

(** ** Instances *)

Lemma registry_ok_create complete :
  registry_ok (create_ramdump_device complete).
Proof.
  split; [constructor|split; [reflexivity|simpl; lia]].
Qed.

Lemma registry_ok_two_consumers : registry_ok Scenario.two_consumers.
Proof.
  split; [|split; [reflexivity|simpl; lia]].
  repeat constructor; simpl; intuition discriminate.
Qed.

Lemma consumers_counts_entries_witness :
  registry_ok (create_ramdump_device false)
  /\ events_ok Scenario.comings_and_goings (create_ramdump_device false)
  /\ exists log rd',
       run_events Scenario.comings_and_goings (create_ramdump_device false)
       = Some (log, rd')
       /\ consumers rd' = 1
       /\ registry_ok rd'.
Proof.
  assert (R : registry_ok (create_ramdump_device false))
    by apply registry_ok_create.
  assert (OK : events_ok Scenario.comings_and_goings
                 (create_ramdump_device false)).
  { simpl; repeat split; try lia; intuition discriminate. }
  split; [exact R|split; [exact OK|]].
  eexists; eexists.
  assert (E : run_events Scenario.comings_and_goings
                (create_ramdump_device false)
              = Some ([RdReturn 0; RdReturn 0; RdReturn 0; RdBlocked],
                      snd (ramdump_release 1%nat
                             (snd (ramdump_open true 2%nat
                                     Scenario.one_consumer)))))
    by (vm_compute; reflexivity).
  split; [exact E|split; [vm_compute; reflexivity|]].
  exact (consumers_counts_entries _ _ _ _ R OK E).
Defined.


Lemma dump_returns_0_when_all_read_to_end_witness :
  let c := CallRamdump true false in
  let env := Scenario.all_read_the_end in
  let rd := Scenario.two_consumers in
  let segs := [Scenario.seg 4096 16] in
  let rd' :=
    start_session
      (set_elfcore (set_segments rd (Some segs) 1) 84
         (Some (Elf32Core (elf32_ehdr 1) (fill_phdrs segs 84)))) in
  registry_ok rd
  /\ dump_prepare c (kzalloc_ok env) rd segs = PrepWait rd' segs
  /\ Forall (fun s => 0 <= size s < 2 ^ 64) segs
  /\ 0 <= elfcore_size rd'
  /\ elfcore_size rd' + sum_sizes segs <= 100 < 2 ^ 63
  /\ dr_out (dump c env rd segs) = DumpReturn 0
  /\ dr_log (dump c env rd segs) = [RdReturn 0; RdReturn 0]
  /\ abort_ramdump (dr_dev (dump c env rd segs)) = false
  /\ readers_left (dr_dev (dump c env rd segs)) = 0.
Proof.
  intros c env rd segs rd'.
  assert (R : registry_ok rd) by apply registry_ok_two_consumers.
  assert (P : dump_prepare c (kzalloc_ok env) rd segs = PrepWait rd' segs)
    by (vm_compute; reflexivity).
  assert (Hsz : Forall (fun s => 0 <= size s < 2 ^ 64) segs)
    by (repeat constructor; simpl; lia).
  assert (H0 : 0 <= elfcore_size rd') by (simpl; lia).
  assert (Ho : elfcore_size rd' + sum_sizes segs <= 100 < 2 ^ 63)
    by (simpl; lia).
  repeat (split; [assumption|]).
  exact (dump_returns_0_when_all_read_to_end c env rd segs rd' segs
           (Scenario.reader true) 16 100 R P Hsz H0 Ho eq_refl).
Defined.


Lemma late_consumer_not_in_session_witness :
  let rd := Scenario.raw_session in
  let rd' := snd (ramdump_open true 3%nat rd) in
  ~ In 3%nat (handles rd)
  /\ abort_ramdump rd = false
  /\ ramdump_poll 3%nat rd' = false
  /\ readers_left rd' = readers_left rd
  /\ ramdump_complete rd' = ramdump_complete rd
  /\ (forall h', h' <> 3%nat ->
        entry_ready h' (consumer_list rd') = entry_ready h' (consumer_list rd))
  /\ forall env count pos,
       ramdump_read env 3%nat count pos rd'
       = {| rr_out := if f_nonblock env then RdReturn (- EAGAIN)
                      else if signal_pending env
                           then RdReturn (- ERESTARTSYS)
                           else RdBlocked;
            rr_pos := pos; rr_user := []; rr_dev := rd' |}.
Proof.
  intros rd rd'.
  assert (F : ~ In 3%nat (handles rd))
    by (simpl; intuition discriminate).
  assert (A : abort_ramdump rd = false) by reflexivity.
  split; [exact F|split; [exact A|]].
  exact (late_consumer_not_in_session 3%nat rd F A).
Defined.

(** ** The bytes a read returns *)

Lemma firstn_mem_bytes vmem w n m :
  0 <= n <= m ->
  firstn (Z.to_nat n) (mem_bytes vmem w m) = mem_bytes vmem w n.
Proof.
  intros R.
  replace m with (n + (m - n)) by lia.
  rewrite mem_bytes_app by lia.
  rewrite firstn_app, length_mem_bytes, Nat.sub_diag, firstn_O, app_nil_r.
  apply firstn_all2; rewrite length_mem_bytes; lia.
Qed.

Lemma skipn_mem_bytes vmem w k m :
  0 <= k <= m ->
  skipn (Z.to_nat k) (mem_bytes vmem w m) = mem_bytes vmem (w + k) (m - k).
Proof.
  intros R.
  replace m with (k + (m - k)) at 1 by lia.
  rewrite mem_bytes_app by lia.
  rewrite skipn_app, length_mem_bytes, Nat.sub_diag.
  rewrite skipn_all2 by (rewrite length_mem_bytes; lia).
  reflexivity.
Qed.

Lemma Forall_firstn_list {A : Type} (P : A -> Prop) n : forall l,
  Forall P l -> Forall P (firstn n l).
Proof.
  induction n as [|n IH]; intros l H; [constructor|].
  destruct H as [|x l Hx Hl]; [constructor|].
  simpl; constructor; [exact Hx|apply IH; exact Hl].
Qed.

Lemma length_segment_bytes vmem s :
  List.length (segment_bytes vmem s) = Z.to_nat (size s).
Proof. apply length_mem_bytes. Qed.

(** The stream from the place of byte [off] of segment [i] on. *)
Lemma skipn_segments_stream vmem segs :
  Forall (fun s => 0 <= size s < 2 ^ 64) segs ->
  forall i s off,
    nth_error segs i = Some s -> 0 <= off <= size s ->
    skipn (Z.to_nat (sum_sizes (firstn i segs) + off))
      (segments_stream vmem segs)
    = skipn (Z.to_nat off) (segment_bytes vmem s)
      ++ segments_stream vmem (skipn (S i) segs).
Proof.
  induction 1 as [|s0 rest Hs0 Hrest IH]; intros i s off N R.
  - destruct i; discriminate.
  - unfold segments_stream in *; cbn [flat_map].
    destruct i as [|i].
    + inversion N; subst s0.
      cbn [firstn sum_sizes fold_right skipn]; rewrite Z.add_0_l.
      rewrite skipn_app, length_segment_bytes.
      replace (Z.to_nat off - Z.to_nat (size s))%nat with 0%nat by lia.
      reflexivity.
    + cbn [nth_error] in N.
      rewrite firstn_cons, sum_sizes_cons.
      pose proof (sum_sizes_nonneg _ (Forall_firstn_list _ i _ Hrest)) as Hnn.
      rewrite skipn_app, length_segment_bytes.
      rewrite skipn_all2 by (rewrite length_segment_bytes; lia).
      cbn [app skipn].
      replace (Z.to_nat (size s0 + sum_sizes (firstn i rest) + off)
               - Z.to_nat (size s0))%nat
        with (Z.to_nat (sum_sizes (firstn i rest) + off)) by lia.
      apply IH; assumption.
Qed.

(** X6.  A read at an offset inside the segments, when the segments have
    kernel mappings and nothing fails, returns the bytes of the stream of
    the segments from that offset on: as many as asked for, up to the end
    of the segment the offset lies in and up to 1 MiB, and it advances
    the position by as many. *)
Theorem read_returns_stream_bytes rd segs env h count o :
  segments rd = Some segs ->
  nsegments rd = Z.of_nat (List.length segs) ->
  Forall (fun s => 0 <= size s < 2 ^ 64) segs ->
  Forall mapped segs ->
  entry_ready h (consumer_list rd) = true ->
  abort_ramdump rd = false ->
  0 <= elfcore_size rd < 2 ^ 63 ->
  0 < count -> o < 2 ^ 63 ->
  elfcore_size rd <= o < elfcore_size rd + sum_sizes segs ->
  exists i s,
    nth_error segs i = Some s
    /\ let off := o - elfcore_size rd - sum_sizes (firstn i segs) in
       let n := Z.min (Z.min count MAX_IOREMAP_SIZE) (size s - off) in
       0 <= off < size s
       /\ 0 < n
       /\ (vzalloc env n = true ->
           copy_to_user_data env = true ->
           copy_in_bounds (v_address s + off) n ->
           ramdump_read env h count o rd
           = {| rr_out := RdReturn n;
                rr_pos := o + n;
                rr_user :=
                  firstn (Z.to_nat n)
                    (skipn (Z.to_nat (o - elfcore_size rd))
                       (segments_stream (vmem env) segs));
                rr_dev := rd |}).
Proof.
  intros Hs Hn Hsz Hmap Hr Ha Hh Hc Ho Hin.
  destruct (read_in_segment rd segs Hs Hn Hsz env h Hr Ha Hh count o
              Hc Ho Hin) as (i & s & N & R & _ & OT & OK).
  exists i, s; split; [exact N|].
  cbn zeta in *.
  set (off := o - elfcore_size rd - sum_sizes (firstn i segs)) in *.
  set (n := Z.min (Z.min count MAX_IOREMAP_SIZE) (size s - off)) in *.
  assert (M : 0 < MAX_IOREMAP_SIZE) by reflexivity.
  split; [exact R|].
  split; [lia|].
  intros VZ CU IB.
  assert (Hm : mapped s).
  { apply nth_error_In in N.
    rewrite Forall_forall in Hmap; apply (Hmap s N). }
  destruct Hm as [Hv Hw].
  assert (Ev : (if v_address s =? 0 then 0 else u64 (v_address s + off))
               = v_address s + off).
  { replace (v_address s =? 0) with false
      by (symmetry; apply Z.eqb_neq; lia).
    apply u64_small; lia. }
  rewrite Ev in OK.
  assert (Ed : device_mem_of env (u64 (address s + off)) (v_address s + off) n
               = v_address s + off).
  { unfold device_mem_of.
    replace (v_address s + off =? 0) with false
      by (symmetry; apply Z.eqb_neq; lia).
    reflexivity. }
  rewrite Ed in OK.
  rewrite OK; try assumption; [|lia].
  f_equal.
  replace (o - elfcore_size rd) with (sum_sizes (firstn i segs) + off)
    by (unfold off; lia).
  rewrite (skipn_segments_stream (vmem env) segs Hsz i s off N) by lia.
  unfold segment_bytes at 1.
  rewrite skipn_mem_bytes by lia.
  rewrite firstn_app, length_mem_bytes.
  replace (Z.to_nat n - Z.to_nat (size s - off))%nat with 0%nat by lia.
  rewrite firstn_O, app_nil_r.
  symmetry; apply firstn_mem_bytes; lia.
Qed.

Lemma read_returns_stream_bytes_witness :
  let rd := Scenario.mapped_session in
  let segs := Scenario.mapped_segments in
  let env := Scenario.reader true in
  (segments rd = Some segs
   /\ nsegments rd = Z.of_nat (List.length segs)
   /\ Forall (fun s => 0 <= size s < 2 ^ 64) segs
   /\ Forall mapped segs
   /\ entry_ready 1%nat (consumer_list rd) = true
   /\ abort_ramdump rd = false
   /\ 0 <= elfcore_size rd < 2 ^ 63
   /\ elfcore_size rd <= 15 < elfcore_size rd + sum_sizes segs)
  /\ ramdump_read env 1%nat 100 15 rd
     = {| rr_out := RdReturn 15; rr_pos := 30;
          rr_user := firstn 15 (skipn 15 (segments_stream (vmem env) segs));
          rr_dev := rd |}.
Proof.
  intros rd segs env.
  assert (Hs : segments rd = Some segs) by reflexivity.
  assert (Hn : nsegments rd = Z.of_nat (List.length segs)) by reflexivity.
  assert (Hsz : Forall (fun s => 0 <= size s < 2 ^ 64) segs)
    by (repeat constructor; simpl; lia).
  assert (Hm : Forall mapped segs)
    by (repeat constructor; simpl; lia).
  assert (Hr : entry_ready 1%nat (consumer_list rd) = true) by reflexivity.
  assert (Ha : abort_ramdump rd = false) by reflexivity.
  assert (Hh : 0 <= elfcore_size rd < 2 ^ 63) by (simpl; lia).
  assert (Hin : elfcore_size rd <= 15 < elfcore_size rd + sum_sizes segs)
    by (simpl; lia).
  split; [repeat split; try assumption; try apply Hh; apply Hin|].
  destruct (read_returns_stream_bytes rd segs env 1%nat 100 15
              Hs Hn Hsz Hm Hr Ha Hh ltac:(lia) ltac:(lia) Hin)
    as (i & s & N & R & _ & OK).
  change (elfcore_size rd) with 0 in R, OK.
  destruct i as [|[|[|i]]]; simpl in N; inversion N; subst s;
    simpl in R; try lia.
  apply OK; [reflexivity|reflexivity|right; vm_compute; discriminate].
Defined.

(** ** When the three-phase copy is the plain copy *)

(** X7.  The three-phase copy returns what the plain copy of [copy_size]
    bytes returns exactly when the source address is a multiple of 8 or
    the copy is at least as long as the bytes up to the next multiple of
    8; in every other case its first phase writes past the end of the
    buffer. *)
Theorem three_phase_copy_plain_iff vmem device_mem copy_size :
  0 <= copy_size < 2 ^ 64 ->
  (three_phase_copy vmem device_mem copy_size
   = plain_copy vmem device_mem copy_size
   <-> copy_in_bounds device_mem copy_size)
  /\ (~ copy_in_bounds device_mem copy_size ->
      three_phase_copy vmem device_mem copy_size = None).
Proof.
  intros R.
  assert (O : ~ copy_in_bounds device_mem copy_size ->
              three_phase_copy vmem device_mem copy_size = None).
  { unfold copy_in_bounds; intros N.
    apply three_phase_copy_overrun; lia. }
  split; [split|exact O].
  - intros E.
    destruct (Z.eq_dec (Z.land device_mem 7) 0) as [Z0|NZ];
      [left; exact Z0|].
    destruct (Z_le_gt_dec (8 - Z.land device_mem 7) copy_size) as [L|G];
      [right; exact L|].
    rewrite three_phase_copy_overrun in E by lia.
    discriminate.
  - apply three_phase_copy_plain; exact R.
Qed.

Lemma three_phase_copy_plain_iff_witness :
  0 <= 20 < 2 ^ 64
  /\ copy_in_bounds 4099 20
  /\ three_phase_copy (fun a => a mod 256) 4099 20
     = plain_copy (fun a => a mod 256) 4099 20
  /\ ~ copy_in_bounds 4099 4
  /\ three_phase_copy (fun a => a mod 256) 4099 4 = None.
Proof.
  assert (R : 0 <= 20 < 2 ^ 64) by lia.
  assert (R' : 0 <= 4 < 2 ^ 64) by lia.
  assert (B : copy_in_bounds 4099 20) by (right; vm_compute; discriminate).
  assert (NB : ~ copy_in_bounds 4099 4).
  { intros [H|H]; [vm_compute in H; discriminate|].
    vm_compute in H; apply H; reflexivity. }
  split; [exact R|split; [exact B|]].
  split.
  - apply (three_phase_copy_plain_iff (fun a => a mod 256) 4099 20 R);
      exact B.
  - split; [exact NB|].
    apply (three_phase_copy_plain_iff (fun a => a mod 256) 4099 4 R');
      exact NB.
Defined.

(** ** Opening and closing *)

(** X8.  Opening the device and closing it again, with no dump in
    between, gives the device back as it was, but for [ramdump_status],
    which the open has set to 0. *)
Theorem open_then_release h rd :
  registry_ok rd -> ~ In h (handles rd) ->
  snd (ramdump_release h (snd (ramdump_open true h rd)))
  = set_ramdump_status rd 0.
Proof.
  intros (ND & C & B) Hfresh.
  unfold ramdump_release, ramdump_open; cbn [negb snd].
  cbn [set_consumers set_ramdump_status consumer_list consumers].
  rewrite entry_ready_app, (entry_ready_not_in h _ Hfresh).
  cbn [entry_ready existsb handle data_ready orb andb].
  rewrite andb_false_r; cbn [orb].
  unfold set_consumers, set_ramdump_status; simpl.
  unfold list_del; rewrite filter_app; simpl.
  rewrite Nat.eqb_refl; simpl; rewrite app_nil_r.
  fold (list_del h (consumer_list rd)).
  rewrite list_del_not_in by exact Hfresh.
  rewrite (u32_small (consumers rd + 1)) by lia.
  replace (consumers rd + 1 - 1) with (consumers rd) by lia.
  rewrite u32_small by lia.
  reflexivity.
Qed.

Lemma open_then_release_witness :
  registry_ok Scenario.two_consumers
  /\ ~ In 3%nat (handles Scenario.two_consumers)
  /\ snd (ramdump_release 3%nat
            (snd (ramdump_open true 3%nat Scenario.two_consumers)))
     = set_ramdump_status Scenario.two_consumers 0.
Proof.
  assert (R : registry_ok Scenario.two_consumers)
    by apply registry_ok_two_consumers.
  assert (F : ~ In 3%nat (handles Scenario.two_consumers))
    by (simpl; intuition discriminate).
  split; [exact R|split; [exact F|]].
  exact (open_then_release 3%nat Scenario.two_consumers R F).
Defined.

(** ** The entry points and the caller's array *)

Lemma dr_segments_wait_and_finish env rd segs :
  dr_segments (wait_and_finish env rd segs) = segs.
Proof.
  unfold wait_and_finish.
  destruct (run_events (during_wait env) rd) as [[log rd1]|]; [|reflexivity].
  destruct (0 <? ramdump_complete rd1); [reflexivity|].
  destruct (run_events (during_sync env) _) as [[log2 rd2]|]; reflexivity.
Qed.

Lemma dr_segments_not_complete env rd segs use_elf :
  dr_segments (_do_ramdump env rd segs use_elf false) = segs.
Proof.
  unfold _do_ramdump, _do_ramdump_prepare.
  destruct (consumers rd =? 0); [reflexivity|].
  destruct use_elf; [destruct (kzalloc_ok env)|]; simpl;
    try apply dr_segments_wait_and_finish; reflexivity.
Qed.

Lemma dr_segments_do_minidump env rd segs :
  dr_segments (_do_minidump env rd segs) = segs.
Proof.
  unfold _do_minidump, _do_minidump_prepare.
  destruct (consumers rd =? 0); [reflexivity|].
  destruct (kzalloc_ok env); simpl; [|reflexivity].
  destruct (minidump_header segs _); simpl;
    [apply dr_segments_wait_and_finish|reflexivity].
Qed.

(** X9.  [do_minidump] and [do_minidump_elf32] never write the caller's
    segment array, whatever the device and whatever happens during the
    call; [do_ramdump] and [do_elf_ramdump] do not write it either on a
    device created without the complete-ramdump property. *)
Theorem entry_points_leave_segments env rd segs :
  dr_segments (do_minidump env rd segs) = segs
  /\ dr_segments (do_minidump_elf32 env rd segs) = segs
  /\ (complete_ramdump rd = false ->
      dr_segments (do_ramdump env rd segs) = segs
      /\ dr_segments (do_elf_ramdump env rd segs) = segs).
Proof.
  split; [apply dr_segments_do_minidump|].
  split; [apply dr_segments_not_complete|].
  intros C; unfold do_ramdump, do_elf_ramdump; rewrite C.
  split; apply dr_segments_not_complete.
Qed.

Lemma entry_points_leave_segments_witness :
  let env := Scenario.reads_elf in
  let rd := Scenario.one_consumer in
  let segs := [Scenario.seg 4096 1; Scenario.seg 8192 2] in
  complete_ramdump rd = false
  /\ dr_segments (do_minidump env rd segs) = segs
  /\ dr_segments (do_minidump_elf32 env rd segs) = segs
  /\ dr_segments (do_ramdump env rd segs) = segs
  /\ dr_segments (do_elf_ramdump env rd segs) = segs.
Proof.
  intros env rd segs.
  assert (C : complete_ramdump rd = false) by reflexivity.
  destruct (entry_points_leave_segments env rd segs) as (A & B & D).
  destruct (D C) as [D1 D2].
  repeat split; assumption.
Defined.

(** ** Compacting twice *)

Lemma compacted_head t rest :
  exists t' rest',
    compacted (t :: rest) = t' :: rest' /\ address t' = address t.
Proof.
  destruct rest as [|u rest]; eexists; eexists; split; reflexivity.
Qed.

Lemma compacted_idempotent segs : compacted (compacted segs) = compacted segs.
Proof.
  induction segs as [|s [|t rest] IH]; try reflexivity.
  change (compacted (s :: t :: rest))
    with (set_size s (u64 (address t - address s)) :: compacted (t :: rest)).
  destruct (compacted_head t rest) as (t' & rest' & E & A).
  rewrite E in *.
  change (compacted (set_size s (u64 (address t - address s)) :: t' :: rest'))
    with (set_size (set_size s (u64 (address t - address s)))
            (u64 (address t'
                  - address (set_size s (u64 (address t - address s)))))
          :: compacted (t' :: rest')).
  rewrite IH, A; reflexivity.
Qed.

(** X10.  The compaction only reads addresses, which it does not write:
    a second [_do_ramdump] with [complete_ramdump] over the array a first
    one has compacted leaves every size as the first call set it. *)
Theorem complete_ramdump_twice env1 env2 rd1 rd2 segs use_elf1 use_elf2 :
  consumers rd1 <> 0 -> consumers rd2 <> 0 ->
  let segs1 := dr_segments (_do_ramdump env1 rd1 segs use_elf1 true) in
  dr_segments (_do_ramdump env2 rd2 segs1 use_elf2 true) = segs1.
Proof.
  intros C1 C2 segs1; subst segs1.
  rewrite !dr_segments_do_ramdump by assumption.
  apply compacted_idempotent.
Qed.

Lemma complete_ramdump_twice_witness :
  let rd := Scenario.one_consumer in
  let segs := [Scenario.seg 4096 1; Scenario.seg 8192 2;
               Scenario.seg 20480 7] in
  let segs1 := dr_segments (_do_ramdump Scenario.nobody rd segs false true) in
  consumers rd <> 0
  /\ segs1 <> segs
  /\ dr_segments (_do_ramdump Scenario.reads_elf rd segs1 true true) = segs1.
Proof.
  intros rd segs segs1.
  assert (C : consumers rd <> 0) by (vm_compute; discriminate).
  split; [exact C|].
  split; [vm_compute; discriminate|].
  exact (complete_ramdump_twice Scenario.nobody Scenario.reads_elf rd rd
           segs false true C C).
Defined.

(** ** The file offsets of the program headers *)

Lemma sum_sizes_firstn_S segs : forall i s,
  nth_error segs i = Some s ->
  sum_sizes (firstn (S i) segs) = sum_sizes (firstn i segs) + size s.
Proof.
  induction segs as [|s0 rest IH]; intros i s N.
  - destruct i; discriminate.
  - destruct i as [|i].
    + inversion N; subst; simpl; lia.
    + rewrite firstn_cons, sum_sizes_cons, (IH i s N).
      rewrite firstn_cons, sum_sizes_cons; lia.
Qed.

Lemma sum_sizes_firstn_mono segs :
  Forall (fun s => 0 <= size s < 2 ^ 64) segs ->
  forall j k, (j <= k)%nat ->
    sum_sizes (firstn j segs) <= sum_sizes (firstn k segs).
Proof.
  induction 1 as [|s0 rest Hs0 Hrest IH]; intros j k Hjk.
  - rewrite !firstn_nil; lia.
  - destruct j as [|j].
    + simpl firstn at 1; simpl sum_sizes at 1.
      apply sum_sizes_nonneg, Forall_firstn_list.
      constructor; assumption.
    + destruct k as [|k]; [lia|].
      rewrite !firstn_cons, !sum_sizes_cons.
      specialize (IH j k ltac:(lia)); lia.
Qed.

Lemma sum_sizes_firstn_le segs :
  Forall (fun s => 0 <= size s < 2 ^ 64) segs ->
  forall k, sum_sizes (firstn k segs) <= sum_sizes segs.
Proof.
  intros H k.
  destruct (Nat.le_gt_cases k (List.length segs)) as [L|G].
  - rewrite <- (firstn_all segs) at 2.
    apply sum_sizes_firstn_mono; assumption.
  - rewrite firstn_all2 by lia; lia.
Qed.

(** The place in the stream where a segment that is not empty starts. *)
Lemma offset_translate_segment_start rd segs i s :
  segments rd = Some segs ->
  nsegments rd = Z.of_nat (List.length segs) ->
  Forall (fun s => 0 <= size s < 2 ^ 64) segs ->
  nth_error segs i = Some s -> 0 < size s ->
  sum_sizes (firstn i segs) < 2 ^ 64 ->
  offset_translate (sum_sizes (firstn i segs)) rd
  = (u64 (address s), size s,
     if v_address s =? 0 then 0 else u64 (v_address s)).
Proof.
  intros Hs Hn Hsz N Pos Hlt.
  pose proof (sum_sizes_nonneg _ (Forall_firstn_list _ i _ Hsz)) as Hnn.
  pose proof (sum_sizes_firstn_S segs i s N) as HS.
  pose proof (sum_sizes_firstn_le segs Hsz (S i)) as Hle.
  destruct (offset_translate_inside rd segs Hs Hn Hsz
              (sum_sizes (firstn i segs)))
    as (i' & s' & N' & R & F & OT); [lia|lia|].
  assert (Ei : i' = i).
  { destruct (Nat.lt_trichotomy i' i) as [L|[E|G]]; [|exact E|].
    - pose proof (sum_sizes_firstn_mono segs Hsz (S i') i ltac:(lia)).
      pose proof (sum_sizes_firstn_S segs i' s' N'); lia.
    - specialize (F i G); lia. }
  subst i'; rewrite N in N'; inversion N'; subst s'.
  rewrite OT, Z.sub_diag, !Z.add_0_r, Z.sub_0_r; reflexivity.
Qed.

(** X11.  In an ELF32 dump whose header and segments end below 4 GiB,
    the file offset a program header declares is the offset at which
    [offset_translate] finds byte 0 of its segment: a reader that seeks
    to [p_offset] of a segment that is not empty is served from that
    segment's address, with the whole segment left to read. *)
Theorem phdr_offset_is_stream_offset rd segs i s :
  consumers rd <> 0 ->
  Forall (fun s => 0 <= size s < 2 ^ 64) segs ->
  nth_error segs i = Some s -> 0 < size s ->
  let N := Z.of_nat (List.length segs) in
  Elf32.sizeof_Ehdr + Elf32.sizeof_Phdr * N + sum_sizes (firstn i segs)
  < 2 ^ 32 ->
  exists rd' ehdr phdrs phdr,
    _do_ramdump_prepare true rd segs true false = PrepWait rd' segs
    /\ elfcore_buf rd' = Some (Elf32Core ehdr phdrs)
    /\ nth_error phdrs i = Some phdr
    /\ offset_translate (Elf32.p_offset phdr - elfcore_size rd') rd'
       = (u64 (address s), size s,
          if v_address s =? 0 then 0 else u64 (v_address s)).
Proof.
  intros C Hsz Nth Pos N Hfit.
  apply Z.eqb_neq in C.
  unfold _do_ramdump_prepare; rewrite C; fold N; cbn [negb].
  set (hsize := Elf32.sizeof_Ehdr + Elf32.sizeof_Phdr * N) in *.
  assert (Hh : 0 <= hsize)
    by (unfold hsize, Elf32.sizeof_Ehdr, Elf32.sizeof_Phdr, N; lia).
  pose proof (sum_sizes_nonneg _ (Forall_firstn_list _ i _ Hsz)) as Hnn.
  destruct (nth_error_fill_phdrs segs (u64 hsize) i s Nth)
    as (phdr & Np & _ & _ & _ & _ & _ & _ & _ & O).
  rewrite (u64_small hsize) in * by lia.
  rewrite u32_small in O by lia.
  eexists; eexists; exists (fill_phdrs segs hsize), phdr.
  split; [reflexivity|].
  split; [reflexivity|].
  split; [exact Np|].
  rewrite O; cbn [elfcore_size start_session set_readers_left
                  set_abort_ramdump set_ramdump_status set_consumers
                  set_elfcore].
  replace (hsize + sum_sizes (firstn i segs) - hsize)
    with (sum_sizes (firstn i segs)) by lia.
  apply offset_translate_segment_start; try assumption; try reflexivity.
  lia.
Qed.

Lemma phdr_offset_is_stream_offset_witness :
  let rd := Scenario.one_consumer in
  let segs := [Scenario.seg 4096 256; Scenario.seg 8192 512] in
  consumers rd <> 0
  /\ Forall (fun s => 0 <= size s < 2 ^ 64) segs
  /\ nth_error segs 1 = Some (Scenario.seg 8192 512)
  /\ 0 < size (Scenario.seg 8192 512)
  /\ Elf32.sizeof_Ehdr + Elf32.sizeof_Phdr * 2 + sum_sizes (firstn 1 segs)
     < 2 ^ 32
  /\ exists rd' ehdr phdrs phdr,
       _do_ramdump_prepare true rd segs true false = PrepWait rd' segs
       /\ elfcore_buf rd' = Some (Elf32Core ehdr phdrs)
       /\ nth_error phdrs 1 = Some phdr
       /\ offset_translate (Elf32.p_offset phdr - elfcore_size rd') rd'
          = (u64 8192, 512, 0).
Proof.
  intros rd segs.
  assert (C : consumers rd <> 0) by (vm_compute; discriminate).
  assert (Hsz : Forall (fun s => 0 <= size s < 2 ^ 64) segs)
    by (repeat constructor; simpl; lia).
  assert (Nth : nth_error segs 1 = Some (Scenario.seg 8192 512))
    by reflexivity.
  assert (Pos : 0 < size (Scenario.seg 8192 512)) by (simpl; lia).
  assert (Fit : Elf32.sizeof_Ehdr + Elf32.sizeof_Phdr * 2
                + sum_sizes (firstn 1 segs) < 2 ^ 32)
    by (vm_compute; reflexivity).
  repeat (split; [assumption|]).
  exact (phdr_offset_is_stream_offset rd segs 1 (Scenario.seg 8192 512)
           C Hsz Nth Pos Fit).
Defined.

(** ** The section headers of a minidump *)

Lemma store_chars_spec strtab off cs strtab' :
  store_chars strtab off cs = Some strtab' ->
  0 <= off
  /\ off + Z.of_nat (List.length cs) <= Z.of_nat (List.length strtab)
  /\ List.length strtab' = List.length strtab
  /\ firstn (Z.to_nat off + List.length cs) strtab'
     = firstn (Z.to_nat off) strtab ++ cs.
Proof.
  unfold store_chars.
  destruct (Z.leb_spec 0 off) as [H0|H0]; [|discriminate].
  destruct (Z.leb_spec (off + Z.of_nat (List.length cs))
              (Z.of_nat (List.length strtab))) as [H1|H1]; [|discriminate].
  simpl; intros H; inversion H; subst; clear H.
  assert (Lf : List.length (firstn (Z.to_nat off) strtab) = Z.to_nat off)
    by (rewrite length_firstn; lia).
  repeat split; try assumption.
  - rewrite !length_app, Lf, length_skipn; lia.
  - rewrite app_assoc, firstn_app, length_app, Lf, Nat.sub_diag.
    rewrite firstn_O, app_nil_r.
    apply firstn_all2; rewrite length_app, Lf; lia.
Qed.

Lemma set_section_name_length nm ehdr strtab idx strtab' ret idx' :
  set_section_name nm ehdr strtab idx = (Some strtab', ret, idx') ->
  List.length strtab' = List.length strtab.
Proof.
  unfold set_section_name, elf_str_table, strlcpy.
  destruct (Elf64.e_shstrndx ehdr =? 0);
    [intros H; inversion H; reflexivity|].
  destruct nm as [nm|]; [|intros H; inversion H; reflexivity].
  destruct (MAX_NAME_LENGTH =? 0); [intros H; inversion H; reflexivity|].
  intros H; inversion H as [[H1 H2 H3]].
  apply store_chars_spec in H1; tauto.
Qed.

Lemma fill_shdrs_spec ehdr segs : forall offset strtab idx shdrs strtab',
  0 <= offset < 2 ^ 64 ->
  fill_shdrs ehdr segs offset strtab idx = Some (shdrs, strtab') ->
  List.length shdrs = List.length segs
  /\ List.length strtab' = List.length strtab
  /\ forall i s,
       nth_error segs i = Some s ->
       exists shdr,
         nth_error shdrs i = Some shdr
         /\ Elf64.sh_type shdr = SHT_PROGBITS
         /\ Elf64.sh_flags shdr = SHF_WRITE
         /\ Elf64.sh_addr shdr = address s
         /\ Elf64.sh_size shdr = size s
         /\ Elf64.sh_entsize shdr = 0
         /\ Elf64.sh_offset shdr = u64 (offset + sum_sizes (firstn i segs)).
Proof.
  induction segs as [|s0 rest IH]; intros offset strtab idx shdrs strtab' Ho H.
  - simpl in H; inversion H; subst.
    repeat split; intros i s N; destruct i; discriminate.
  - cbn [fill_shdrs] in H.
    destruct (set_section_name (name s0) ehdr strtab idx)
      as [[[tab1|] nm1] idx1] eqn:E; [|discriminate].
    cbn [Elf64.sh_size] in H.
    destruct (fill_shdrs ehdr rest (u64 (offset + size s0)) tab1 idx1)
      as [[shdrs1 tab2]|] eqn:F; [|discriminate].
    inversion H; subst; clear H.
    destruct (IH _ _ _ _ _ (u64_range _) F) as (L1 & L2 & P).
    apply set_section_name_length in E.
    split; [simpl; rewrite L1; reflexivity|].
    split; [congruence|].
    intros i s N.
    destruct i as [|i].
    + inversion N; subst s0.
      eexists; split; [reflexivity|]; simpl.
      rewrite Z.add_0_r, u64_small by assumption.
      repeat split.
    + destruct (P i s N) as (shdr & N1 & T & Fl & A & Sz & En & O).
      exists shdr; repeat split; try assumption.
      rewrite O, firstn_cons, sum_sizes_cons.
      unfold u64; rewrite Z.add_mod_idemp_l by lia.
      f_equal; lia.
Qed.

(** X12.  When [_do_minidump] gets to start a session for [N] segments,
    the header it has built has [N + 2] section headers: a null one, the
    string table (512 bytes behind the section headers), and for segment
    [i] a [SHT_PROGBITS] section number [i + 2] with the segment's
    address and size, the [SHF_WRITE] flag, and as its file offset the
    size of the header plus the sizes of the segments before it; the
    caller's array is untouched. *)
Theorem minidump_section_headers rd segs rd' segs' :
  _do_minidump_prepare true rd segs = PrepWait rd' segs' ->
  let N := Z.of_nat (List.length segs) in
  let shsize := Elf64.sizeof_Ehdr + Elf64.sizeof_Shdr * (N + 2) in
  segs' = segs
  /\ elfcore_size rd' = u64 (shsize + MAX_STRTBL_SIZE)
  /\ exists ehdr strhdr shdrs strtab,
       elfcore_buf rd' = Some (SectionCore ehdr (null_shdr :: strhdr :: shdrs)
                                 strtab)
       /\ Elf64.e_shnum ehdr = u16 (N + 2)
       /\ Elf64.e_shoff ehdr = Elf64.sizeof_Ehdr
       /\ Elf64.e_shentsize ehdr = Elf64.sizeof_Shdr
       /\ Elf64.e_shstrndx ehdr = 1
       /\ Elf64.sh_type strhdr = SHT_STRTAB
       /\ Elf64.sh_offset strhdr = u64 shsize
       /\ Elf64.sh_size strhdr = MAX_STRTBL_SIZE
       /\ Z.of_nat (List.length strtab) = MAX_STRTBL_SIZE
       /\ List.length shdrs = List.length segs
       /\ forall i s,
            nth_error segs i = Some s ->
            exists shdr,
              nth_error shdrs i = Some shdr
              /\ Elf64.sh_type shdr = SHT_PROGBITS
              /\ Elf64.sh_flags shdr = SHF_WRITE
              /\ Elf64.sh_addr shdr = address s
              /\ Elf64.sh_size shdr = size s
              /\ Elf64.sh_offset shdr
                 = u64 (shsize + MAX_STRTBL_SIZE + sum_sizes (firstn i segs)).
Proof.
  unfold _do_minidump_prepare.
  destruct (consumers rd =? 0); [discriminate|]; cbn [negb].
  intros H.
  set (N := Z.of_nat (List.length segs)) in *.
  set (shsize := Elf64.sizeof_Ehdr + Elf64.sizeof_Shdr * (N + 2)) in *.
  destruct (minidump_header segs _) as [buf|] eqn:M; [|discriminate].
  inversion H; subst rd' segs'; clear H.
  split; [reflexivity|].
  split; [reflexivity|].
  unfold minidump_header in M; fold N in M.
  destruct (set_section_name (Some "STR_TBL"%string) elf64_ehdr _ 1)
    as [[[tab1|] nm1] idx1] eqn:E; [|discriminate].
  destruct (fill_shdrs elf64_ehdr segs _ tab1 idx1)
    as [[shdrs tab2]|] eqn:F; [|discriminate].
  inversion M; subst buf; clear M.
  destruct (fill_shdrs_spec _ _ _ _ _ _ _ (u64_range _) F) as (L1 & L2 & P).
  apply set_section_name_length in E.
  eexists; eexists; exists shdrs, tab2.
  split; [reflexivity|].
  repeat (split; [reflexivity|]).
  split; [rewrite L2, E, repeat_length; reflexivity|].
  split; [exact L1|].
  intros i s Nth.
  destruct (P i s Nth) as (shdr & N1 & T & Fl & A & Sz & _ & O).
  exists shdr; repeat split; try assumption.
  rewrite O; unfold u64; rewrite Z.add_mod_idemp_l by lia.
  reflexivity.
Qed.

Lemma minidump_section_headers_witness :
  let rd := Scenario.one_consumer in
  let segs := Scenario.long_then_short in
  exists rd',
    _do_minidump_prepare true rd segs = PrepWait rd' segs
    /\ elfcore_size rd' = 832
    /\ exists ehdr strhdr shdrs strtab,
         elfcore_buf rd'
         = Some (SectionCore ehdr (null_shdr :: strhdr :: shdrs) strtab)
         /\ Elf64.e_shnum ehdr = 4
         /\ Elf64.sh_offset strhdr = 320
         /\ List.length shdrs = 2%nat
         /\ forall i s,
              nth_error segs i = Some s ->
              exists shdr,
                nth_error shdrs i = Some shdr
                /\ Elf64.sh_type shdr = SHT_PROGBITS
                /\ Elf64.sh_flags shdr = SHF_WRITE
                /\ Elf64.sh_addr shdr = address s
                /\ Elf64.sh_size shdr = size s
                /\ Elf64.sh_offset shdr
                   = u64 (832 + sum_sizes (firstn i segs)).
Proof.
  intros rd segs.
  destruct (_do_minidump_prepare true rd segs) as [| |rd' segs0] eqn:P;
    try (vm_compute in P; discriminate).
  destruct (minidump_section_headers rd segs rd' segs0 P)
    as (Es & Sz & ehdr & strhdr & shdrs & strtab & B & Nn & _ & _ & _ & _
        & So & _ & _ & L & Sec).
  subst segs0; exists rd'.
  split; [reflexivity|].
  split; [exact Sz|].
  exists ehdr, strhdr, shdrs, strtab.
  repeat split; assumption.
Defined.

(** ** Names of at most 15 characters *)

Lemma string_of_list_ascii_of_string nm :
  string_of_list_ascii (list_ascii_of_string nm) = nm.
Proof. induction nm as [|c nm IH]; simpl; [|rewrite IH]; reflexivity. Qed.

(** A short name is stored whole, with its terminator. *)
Lemma set_section_name_short nm ehdr strtab idx :
  Elf64.e_shstrndx ehdr <> 0 ->
  Z.of_nat (String.length nm) <= MAX_NAME_LENGTH - 1 ->
  0 <= idx -> idx + Z.of_nat (String.length nm) + 1 < 2 ^ 31 ->
  set_section_name (Some nm) ehdr strtab idx
  = (store_chars strtab idx (list_ascii_of_string nm ++ [zero_char]),
     idx, idx + Z.of_nat (String.length nm) + 1).
Proof.
  intros Hndx Hlen Hidx Hmax.
  unfold set_section_name, elf_str_table, strlcpy, MAX_NAME_LENGTH in *.
  apply Z.eqb_neq in Hndx; rewrite Hndx; cbn [Z.eqb].
  replace (16 <=? Z.of_nat (String.length nm)) with false
    by (symmetry; apply Z.leb_gt; lia).
  rewrite Nat2Z.id.
  rewrite firstn_all2 by (rewrite length_list_ascii_of_string; lia).
  rewrite (s32_small (idx + _)) by lia.
  rewrite (s32_small (idx + _ + 1)) by lia.
  rewrite u32_small by lia.
  reflexivity.
Qed.

Lemma firstn_prefix_eq {A : Type} a b (l1 l2 : list A) :
  (a <= b)%nat -> firstn b l1 = firstn b l2 -> firstn a l1 = firstn a l2.
Proof.
  intros Hab E.
  rewrite <- (Nat.min_l a b Hab), <- !firstn_firstn, E; reflexivity.
Qed.

Lemma names_room_nonneg segs : 0 <= names_room segs.
Proof.
  induction segs as [|s rest IH]; simpl; [lia|].
  unfold name_room; destruct (name s); lia.
Qed.

Lemma c_string_at_prefix strtab idx cs :
  0 <= idx ->
  Forall (fun c => c <> zero_char) cs ->
  firstn (Z.to_nat idx + List.length (cs ++ [zero_char])) strtab
  = firstn (Z.to_nat idx) strtab ++ cs ++ [zero_char] ->
  (Z.to_nat idx <= List.length strtab)%nat ->
  c_string_at strtab idx = string_of_list_ascii cs.
Proof.
  intros Hidx Hnz E Hl.
  unfold c_string_at.
  rewrite <- (firstn_skipn (Z.to_nat idx + List.length (cs ++ [zero_char]))
                strtab), E.
  rewrite <- app_assoc, skipn_app.
  rewrite skipn_all2 by (rewrite length_firstn; lia).
  rewrite length_firstn.
  replace (Z.to_nat idx - Nat.min (Z.to_nat idx) (List.length strtab))%nat
    with 0%nat by lia.
  cbn [skipn app]; rewrite <- app_assoc; cbn [app].
  apply c_string_app_zero; exact Hnz.
Qed.

(** The loop over segments with short names: every name is stored where
    the one before ends, and the stored names are still there at the end
    of the loop. *)
Lemma fill_shdrs_names ehdr segs :
  Elf64.e_shstrndx ehdr <> 0 ->
  Forall short_name segs ->
  forall offset strtab idx,
    0 <= idx ->
    idx + names_room segs <= Z.of_nat (List.length strtab) ->
    Z.of_nat (List.length strtab) < 2 ^ 31 ->
    exists shdrs strtab',
      fill_shdrs ehdr segs offset strtab idx = Some (shdrs, strtab')
      /\ List.length strtab' = List.length strtab
      /\ firstn (Z.to_nat idx) strtab' = firstn (Z.to_nat idx) strtab
      /\ forall i s,
           nth_error segs i = Some s ->
           exists shdr,
             nth_error shdrs i = Some shdr
             /\ match name s with
                | Some nm =>
                    Elf64.sh_name shdr = idx + names_room (firstn i segs)
                    /\ c_string_at strtab' (Elf64.sh_name shdr) = nm
                | None => Elf64.sh_name shdr = 0
                end.
Proof.
  intros Hndx; induction 1 as [|s0 rest Hs0 Hrest IH];
    intros offset strtab idx Hidx Hroom Hmax.
  - exists [], strtab; repeat split.
    intros i s N; destruct i; discriminate.
  - pose proof (names_room_nonneg rest) as Hnn.
    cbn [names_room fold_right] in Hroom; fold (names_room rest) in Hroom.
    cbn [fill_shdrs].
    unfold short_name, name_room in *.
    destruct (name s0) as [nm|] eqn:En.
    + destruct Hs0 as [Hlen Hnz].
      unfold MAX_NAME_LENGTH in Hlen.
      rewrite set_section_name_short by (unfold MAX_NAME_LENGTH; lia).
      destruct (store_chars strtab idx (list_ascii_of_string nm ++ [zero_char]))
        as [tab1|] eqn:St.
      2:{ exfalso; revert St; unfold store_chars.
          rewrite length_app, length_list_ascii_of_string; cbn [List.length].
          replace (0 <=? idx) with true by (symmetry; apply Z.leb_le; lia).
          replace (idx + Z.of_nat (String.length nm + 1)
                   <=? Z.of_nat (List.length strtab)) with true
            by (symmetry; apply Z.leb_le; lia).
          discriminate. }
      destruct (store_chars_spec _ _ _ _ St) as (_ & Hfit & L1 & P1).
      rewrite length_app, length_list_ascii_of_string in Hfit, P1.
      cbn [List.length] in Hfit, P1.
      set (idx1 := idx + Z.of_nat (String.length nm) + 1) in *.
      destruct (IH (u64 (offset + size s0)) tab1 idx1)
        as (shdrs & tab2 & F & L2 & P2 & Q); try lia.
      cbn [Elf64.sh_size]; rewrite F.
      assert (Ei : Z.to_nat idx1 = (Z.to_nat idx + (String.length nm + 1))%nat)
        by (unfold idx1; lia).
      assert (P3 : firstn (Z.to_nat idx + (String.length nm + 1)) tab2
                   = firstn (Z.to_nat idx) strtab
                     ++ list_ascii_of_string nm ++ [zero_char]).
      { rewrite <- P1, <- Ei; exact P2. }
      assert (P4 : firstn (Z.to_nat idx) tab2 = firstn (Z.to_nat idx) strtab).
      { rewrite (firstn_prefix_eq (Z.to_nat idx) (Z.to_nat idx1) tab2 tab1)
          by (try exact P2; lia).
        rewrite (firstn_prefix_eq (Z.to_nat idx)
                   (Z.to_nat idx + (String.length nm + 1)) tab1
                   (firstn (Z.to_nat idx) strtab
                    ++ list_ascii_of_string nm ++ [zero_char])).
        - rewrite firstn_app, length_firstn.
          replace (Z.to_nat idx - Nat.min (Z.to_nat idx) (List.length strtab))%nat
            with 0%nat by lia.
          rewrite firstn_O, app_nil_r, firstn_firstn; f_equal; lia.
        - lia.
        - rewrite P1; symmetry; apply firstn_all2.
          rewrite !length_app, length_firstn, length_list_ascii_of_string.
          cbn [List.length]; lia. }
      eexists; exists tab2; split; [reflexivity|].
      split; [congruence|].
      split; [exact P4|].
      intros i s N.
      destruct i as [|i].
      * inversion N; subst s0; rewrite En.
        eexists; split; [reflexivity|]; simpl.
        split; [lia|].
        rewrite <- (string_of_list_ascii_of_string nm) at 1.
        apply c_string_at_prefix; try assumption; try lia.
        rewrite length_app, length_list_ascii_of_string, P4; exact P3.
      * destruct (Q i s N) as (shdr & N1 & M).
        exists shdr; split; [exact N1|].
        destruct (name s) as [nm'|]; [|exact M].
        destruct M as [M1 M2]; split; [|exact M2].
        rewrite M1; cbn [firstn names_room fold_right].
        fold (names_room (firstn i rest)).
        unfold name_room; rewrite En; unfold idx1; lia.
    + unfold set_section_name, elf_str_table.
      apply Z.eqb_neq in Hndx; rewrite Hndx.
      destruct (IH (u64 (offset + size s0)) strtab idx)
        as (shdrs & tab2 & F & L2 & P2 & Q); try lia.
      cbn [Elf64.sh_size]; rewrite F.
      eexists; exists tab2; split; [reflexivity|].
      split; [exact L2|split; [exact P2|]].
      intros i s N.
      destruct i as [|i].
      * inversion N; subst s0; rewrite En.
        eexists; split; reflexivity.
      * destruct (Q i s N) as (shdr & N1 & M).
        exists shdr; split; [exact N1|].
        destruct (name s) as [nm'|]; [|exact M].
        destruct M as [M1 M2]; split; [|exact M2].
        rewrite M1; cbn [firstn names_room fold_right].
        fold (names_room (firstn i rest)).
        unfold name_room; rewrite En; lia.
Qed.

(** X13.  When every segment name has at most 15 characters and the
    names fit the 503 bytes the string table has behind "STR_TBL", the
    minidump header is built, the names are stored whole and one right
    after the other from offset 9 on, and the [sh_name] of every section
    is the offset of its segment's name: reading the string table at
    [sh_name] up to the terminator gives the name.  A segment without a
    name gets [sh_name = 0] and takes no room. *)
Theorem minidump_short_names_resolve rd segs :
  consumers rd <> 0 ->
  Forall short_name segs ->
  9 + names_room segs <= MAX_STRTBL_SIZE ->
  exists rd' ehdr strhdr shdrs strtab,
    _do_minidump_prepare true rd segs = PrepWait rd' segs
    /\ elfcore_buf rd'
       = Some (SectionCore ehdr (null_shdr :: strhdr :: shdrs) strtab)
    /\ Elf64.sh_name strhdr = 1
    /\ c_string_at strtab 1 = "STR_TBL"%string
    /\ forall i s,
         nth_error segs i = Some s ->
         exists shdr,
           nth_error shdrs i = Some shdr
           /\ match name s with
              | Some nm =>
                  Elf64.sh_name shdr = 9 + names_room (firstn i segs)
                  /\ c_string_at strtab (Elf64.sh_name shdr) = nm
              | None => Elf64.sh_name shdr = 0
              end.
Proof.
  intros C Hshort Hroom.
  apply Z.eqb_neq in C.
  unfold _do_minidump_prepare, minidump_header; rewrite C; cbn [negb].
  assert (Hndx : Elf64.e_shstrndx elf64_ehdr <> 0) by discriminate.
  rewrite set_section_name_short
    by (try exact Hndx; unfold MAX_NAME_LENGTH; simpl; lia).
  set (tab0 := repeat zero_char (Z.to_nat MAX_STRTBL_SIZE)).
  assert (L0 : List.length tab0 = 512%nat) by reflexivity.
  destruct (store_chars tab0 1 (list_ascii_of_string "STR_TBL" ++ [zero_char]))
    as [tab1|] eqn:St; [|vm_compute in St; discriminate].
  destruct (store_chars_spec _ _ _ _ St) as (_ & _ & L1 & P1).
  pose proof (names_room_nonneg segs) as Hnn.
  unfold MAX_STRTBL_SIZE in Hroom.
  destruct (fill_shdrs_names elf64_ehdr segs Hndx Hshort
              (u64 (Elf64.sizeof_Ehdr
                    + Elf64.sizeof_Shdr * (Z.of_nat (List.length segs) + 2)
                    + MAX_STRTBL_SIZE)) tab1 9)
    as (shdrs & tab2 & F & L2 & P2 & Q);
    try (rewrite L1, L0; lia); try lia.
  change (1 + Z.of_nat (String.length "STR_TBL") + 1) with 9.
  rewrite F.
  eexists; eexists; eexists; exists shdrs, tab2.
  split; [reflexivity|].
  split; [reflexivity|].
  split; [reflexivity|].
  split; [|exact Q].
  change "STR_TBL"%string
    with (string_of_list_ascii (list_ascii_of_string "STR_TBL")).
  apply c_string_at_prefix.
  - lia.
  - repeat constructor; discriminate.
  - change (Z.to_nat 1
            + List.length (list_ascii_of_string "STR_TBL" ++ [zero_char]))%nat
      with (Z.to_nat 9).
    rewrite P2.
    rewrite (firstn_prefix_eq (Z.to_nat 1) (Z.to_nat 9) tab2 tab1)
      by (try exact P2; lia).
    rewrite (firstn_prefix_eq (Z.to_nat 1) (Z.to_nat 9) tab1
               (firstn (Z.to_nat 1) tab0
                ++ list_ascii_of_string "STR_TBL" ++ [zero_char])).
    + exact P1.
    + lia.
    + change (Z.to_nat 9)
        with (Z.to_nat 1
              + List.length (list_ascii_of_string "STR_TBL" ++ [zero_char]))%nat.
      rewrite P1; symmetry; apply firstn_all2; simpl; lia.
  - rewrite L2, L1, L0; lia.
Qed.

Lemma minidump_short_names_resolve_witness :
  let rd := Scenario.one_consumer in
  let segs := Scenario.short_names in
  consumers rd <> 0
  /\ Forall short_name segs
  /\ 9 + names_room segs <= MAX_STRTBL_SIZE
  /\ exists rd' ehdr strhdr shdrs strtab,
       _do_minidump_prepare true rd segs = PrepWait rd' segs
       /\ elfcore_buf rd'
          = Some (SectionCore ehdr (null_shdr :: strhdr :: shdrs) strtab)
       /\ Elf64.sh_name strhdr = 1
       /\ c_string_at strtab 1 = "STR_TBL"%string
       /\ forall i s,
            nth_error segs i = Some s ->
            exists shdr,
              nth_error shdrs i = Some shdr
              /\ match name s with
                 | Some nm =>
                     Elf64.sh_name shdr = 9 + names_room (firstn i segs)
                     /\ c_string_at strtab (Elf64.sh_name shdr) = nm
                 | None => Elf64.sh_name shdr = 0
                 end.
Proof.
  intros rd segs.
  assert (C : consumers rd <> 0) by (vm_compute; discriminate).
  assert (S : Forall short_name segs).
  { repeat constructor; simpl; try lia;
      repeat constructor; discriminate. }
  assert (Rm : 9 + names_room segs <= MAX_STRTBL_SIZE)
    by (vm_compute; discriminate).
  repeat (split; [assumption|]).
  exact (minidump_short_names_resolve rd segs C S Rm).
Defined.

(** ** Reads across the end of the header *)

(** X14.  A read that starts inside the header and asks for more than the
    header has left goes on into the segments in the same call.  When all
    segments are empty (or there is none) it finds the end of the stream
    there: it returns 0 although it has copied the rest of the header to
    the user buffer, puts the position back to 0 and takes the consumer
    out of the session. *)
Theorem read_across_header_into_empty_dump rd segs env h count o hdr :
  segments rd = Some segs ->
  nsegments rd = Z.of_nat (List.length segs) ->
  Forall (fun s => 0 <= size s < 2 ^ 64) segs ->
  sum_sizes segs = 0 ->
  entry_ready h (consumer_list rd) = true ->
  abort_ramdump rd = false ->
  elfcore_buf rd = Some hdr ->
  copy_to_user_hdr env = true ->
  0 <= o < elfcore_size rd -> elfcore_size rd < 2 ^ 63 ->
  elfcore_size rd - o < count ->
  let r := ramdump_read env h count o rd in
  rr_out r = RdReturn 0
  /\ rr_pos r = 0
  /\ rr_user r
     = firstn (Z.to_nat (elfcore_size rd - o))
         (skipn (Z.to_nat o) (elfcore_bytes hdr))
  /\ entry_ready h (consumer_list (rr_dev r)) = false
  /\ ramdump_status (rr_dev r) = 0
  /\ readers_left (rr_dev r) = s32 (readers_left rd - 1).
Proof.
  intros Hs Hn Hsz Hsum Hr Ha Hbuf Hcopy Ho Hh Hc r; subst r.
  rewrite ramdump_read_ready by assumption.
  unfold ramdump_read_stream.
  replace (o <? elfcore_size rd) with true
    by (symmetry; apply Z.ltb_lt; lia).
  rewrite (u64_small (elfcore_size rd - o)) by lia.
  rewrite Z.min_l by lia.
  unfold elfcore_read.
  replace (elfcore_size rd - o =? 0) with false
    by (symmetry; apply Z.eqb_neq; lia).
  rewrite Hbuf, Hcopy; cbn [negb].
  replace (count - (elfcore_size rd - o) =? 0) with false
    by (symmetry; apply Z.eqb_neq; lia).
  rewrite ramdump_read_segment_eof.
  - simpl; repeat split; apply entry_ready_reset.
  - unfold data_left_at.
    replace (o + (elfcore_size rd - o) - elfcore_size rd) with 0 by lia.
    rewrite (u64_small 0) by lia.
    rewrite (offset_translate_past_end rd segs Hs Hn Hsz) by lia.
    reflexivity.
Qed.

Lemma read_across_header_into_empty_dump_witness :
  let rd := Scenario.empty_elf_session in
  let env := Scenario.reader true in
  (segments rd = Some []
   /\ nsegments rd = 0
   /\ entry_ready 1%nat (consumer_list rd) = true
   /\ abort_ramdump rd = false
   /\ elfcore_size rd = 52
   /\ copy_to_user_hdr env = true)
  /\ exists hdr,
       elfcore_buf rd = Some hdr
       /\ let r := ramdump_read env 1%nat 4096 0 rd in
          rr_out r = RdReturn 0
          /\ rr_pos r = 0
          /\ rr_user r
             = firstn (Z.to_nat (elfcore_size rd - 0))
                 (skipn (Z.to_nat 0) (elfcore_bytes hdr))
          /\ entry_ready 1%nat (consumer_list (rr_dev r)) = false
          /\ ramdump_status (rr_dev r) = 0
          /\ readers_left (rr_dev r) = s32 (readers_left rd - 1).
Proof.
  intros rd env.
  split; [repeat split|].
  eexists; split; [reflexivity|].
  apply (read_across_header_into_empty_dump rd [] env 1%nat 4096 0);
    try reflexivity; try constructor; try (simpl; lia).
  vm_compute; split; congruence.
Defined.

(** X15.  When some segment is not empty, a read that starts inside the
    header and asks for more than the header has left returns, in one
    call, the rest of the header and then the first bytes of the stream
    of the segments: as many as were still asked for, up to the size of
    the first segment that is not empty and up to 1 MiB. *)
Theorem read_across_header_end rd segs env h count o hdr :
  segments rd = Some segs ->
  nsegments rd = Z.of_nat (List.length segs) ->
  Forall (fun s => 0 <= size s < 2 ^ 64) segs ->
  Forall mapped segs ->
  0 < sum_sizes segs ->
  entry_ready h (consumer_list rd) = true ->
  abort_ramdump rd = false ->
  elfcore_buf rd = Some hdr ->
  copy_to_user_hdr env = true ->
  0 <= o < elfcore_size rd -> elfcore_size rd < 2 ^ 63 ->
  elfcore_size rd - o < count ->
  exists i s,
    nth_error segs i = Some s
    /\ sum_sizes (firstn i segs) = 0
    /\ 0 < size s
    /\ let k := elfcore_size rd - o in
       let n := Z.min (Z.min (count - k) MAX_IOREMAP_SIZE) (size s) in
       0 < n
       /\ (vzalloc env n = true ->
           copy_to_user_data env = true ->
           copy_in_bounds (v_address s) n ->
           ramdump_read env h count o rd
           = {| rr_out := RdReturn (k + n);
                rr_pos := elfcore_size rd + n;
                rr_user :=
                  firstn (Z.to_nat k) (skipn (Z.to_nat o) (elfcore_bytes hdr))
                  ++ firstn (Z.to_nat n) (segments_stream (vmem env) segs);
                rr_dev := rd |}).
Proof.
  intros Hs Hn Hsz Hmap Hpos Hr Ha Hbuf Hcopy Ho Hh Hc.
  destruct (offset_translate_inside rd segs Hs Hn Hsz 0)
    as (i & s & N & R & _ & OT); [lia|lia|].
  pose proof (sum_sizes_nonneg _ (Forall_firstn_list _ i _ Hsz)) as Hnn.
  assert (Z0 : sum_sizes (firstn i segs) = 0) by lia.
  rewrite Z0 in R, OT; rewrite !Z.sub_0_r in R, OT.
  exists i, s; split; [exact N|].
  split; [exact Z0|].
  split; [lia|].
  cbn zeta.
  set (k := elfcore_size rd - o).
  set (n := Z.min (Z.min (count - k) MAX_IOREMAP_SIZE) (size s)).
  assert (M : 0 < MAX_IOREMAP_SIZE) by reflexivity.
  split; [unfold n, k; lia|].
  intros VZ CU IB.
  assert (Hm : mapped s).
  { apply nth_error_In in N.
    rewrite Forall_forall in Hmap; apply (Hmap s N). }
  destruct Hm as [Hv Hw].
  assert (Hss : 0 <= size s < 2 ^ 64).
  { apply nth_error_In in N.
    rewrite Forall_forall in Hsz; apply (Hsz s N). }
  rewrite !Z.add_0_r in OT; rewrite ?Z.sub_0_r in OT.
  replace (v_address s =? 0) with false in OT
    by (symmetry; apply Z.eqb_neq; lia).
  rewrite (u64_small (v_address s)) in OT by lia.
  rewrite ramdump_read_ready by assumption.
  unfold ramdump_read_stream.
  replace (o <? elfcore_size rd) with true
    by (symmetry; apply Z.ltb_lt; lia).
  rewrite (u64_small (elfcore_size rd - o)) by lia.
  fold k; rewrite (Z.min_l k count) by (unfold k; lia).
  unfold elfcore_read.
  replace (k =? 0) with false
    by (symmetry; apply Z.eqb_neq; unfold k; lia).
  rewrite Hbuf, Hcopy; cbn [negb].
  replace (count - k =? 0) with false
    by (symmetry; apply Z.eqb_neq; unfold k; lia).
  assert (OT' : offset_translate (u64 (o + k - elfcore_size rd)) rd
                = (u64 (address s), size s, v_address s)).
  { replace (o + k - elfcore_size rd) with 0 by (unfold k; lia).
    rewrite (u64_small 0) by lia; exact OT. }
  assert (Ed : device_mem_of env (u64 (address s)) (v_address s) n
               = v_address s).
  { unfold device_mem_of.
    replace (v_address s =? 0) with false
      by (symmetry; apply Z.eqb_neq; lia).
    reflexivity. }
  rewrite (ramdump_read_segment_ok env h (count - k) (o + k) o _ rd _ _ _ OT');
    fold n; rewrite ?Ed; try assumption; try lia.
  f_equal.
  - f_equal; unfold k; lia.
  - unfold k; lia.
  - f_equal.
    pose proof (skipn_segments_stream (vmem env) segs Hsz i s 0 N
                  ltac:(lia)) as Sk.
    rewrite Z0 in Sk; cbn [Z.add Z.to_nat skipn] in Sk.
    rewrite Sk, firstn_app, length_segment_bytes.
    replace (Z.to_nat n - Z.to_nat (size s))%nat with 0%nat
      by (unfold n; lia).
    rewrite firstn_O, app_nil_r.
    symmetry; apply firstn_mem_bytes; unfold n; lia.
Qed.

Lemma read_across_header_end_witness :
  let rd := Scenario.mapped_elf_session in
  let segs := Scenario.mapped_segments in
  let env := Scenario.reader true in
  (segments rd = Some segs
   /\ Forall mapped segs
   /\ 0 < sum_sizes segs
   /\ entry_ready 1%nat (consumer_list rd) = true
   /\ abort_ramdump rd = false
   /\ elfcore_size rd = 116
   /\ copy_to_user_hdr env = true)
  /\ exists hdr,
       elfcore_buf rd = Some hdr
       /\ ramdump_read env 1%nat 4096 100 rd
          = {| rr_out := RdReturn (16 + 10); rr_pos := 116 + 10;
               rr_user :=
                 firstn 16 (skipn 100 (elfcore_bytes hdr))
                 ++ firstn 10 (segments_stream (vmem env) segs);
               rr_dev := rd |}.
Proof.
  intros rd segs env.
  assert (Hs : segments rd = Some segs) by reflexivity.
  assert (Hn : nsegments rd = Z.of_nat (List.length segs)) by reflexivity.
  assert (Hsz : Forall (fun s => 0 <= size s < 2 ^ 64) segs)
    by (repeat constructor; simpl; lia).
  assert (Hm : Forall mapped segs) by (repeat constructor; simpl; lia).
  assert (Hp : 0 < sum_sizes segs) by (simpl; lia).
  assert (Hr : entry_ready 1%nat (consumer_list rd) = true) by reflexivity.
  assert (Ha : abort_ramdump rd = false) by reflexivity.
  assert (H116 : elfcore_size rd = 116) by reflexivity.
  assert (Hc : copy_to_user_hdr env = true) by reflexivity.
  split; [repeat split; assumption|].
  destruct (elfcore_buf rd) as [hdr|] eqn:Hbuf;
    [|vm_compute in Hbuf; discriminate].
  exists hdr; split; [reflexivity|].
  destruct (read_across_header_end rd segs env 1%nat 4096 100 hdr
              Hs Hn Hsz Hm Hp Hr Ha Hbuf Hc)
    as (i & s & N & Z0 & Pos & _ & OK); try (rewrite H116; lia).
  rewrite H116 in OK.
  destruct i as [|[|[|i]]]; simpl in N; inversion N; subst s;
    simpl in Z0; try lia.
  apply OK; [reflexivity|reflexivity|left; reflexivity].
Defined.

(** ** Closing after the last read *)

(** X16.  The guard of [ramdump_release]: when a read has taken its
    consumer off the count of readers left, closing the file afterwards
    does not take it off again, and does not signal the completion. *)
Theorem release_after_finished_read env h count pos rd :
  let rd1 := rr_dev (ramdump_read env h count pos rd) in
  readers_left rd1 <> readers_left rd ->
  readers_left (snd (ramdump_release h rd1)) = readers_left rd1
  /\ ramdump_complete (snd (ramdump_release h rd1)) = ramdump_complete rd1.
Proof.
  intros rd1 Hne; subst rd1.
  destruct (ramdump_read_dev_cases env h count pos rd)
    as [E|(rd0 & E & _)]; rewrite E in Hne |- *;
    [exfalso; apply Hne; reflexivity|].
  unfold ramdump_release.
  replace (entry_ready h (consumer_list (reset_ramdump_entry h rd0)))
    with false by (symmetry; apply entry_ready_reset).
  split; reflexivity.
Qed.

Lemma release_after_finished_read_witness :
  let rd := Scenario.raw_session in
  let rd1 := rr_dev (ramdump_read (Scenario.reader true) 1%nat 16 30 rd) in
  readers_left rd = 1
  /\ readers_left rd1 = 0
  /\ readers_left (snd (ramdump_release 1%nat rd1)) = readers_left rd1
  /\ ramdump_complete (snd (ramdump_release 1%nat rd1)) = ramdump_complete rd1.
Proof.
  intros rd rd1.
  split; [reflexivity|split; [reflexivity|]].
  apply (release_after_finished_read (Scenario.reader true) 1%nat 16 30 rd).
  vm_compute; discriminate.
Defined.

(** ** Creating devices *)

Lemma ida_simple_remove_head ids id :
  Registry.ida_simple_remove (id :: ids) id = ids.
Proof. simpl; rewrite Z.eqb_refl; reflexivity. Qed.

(** X17.  [create_ramdump_device] keeps a minor number only when it
    returns a device: whichever step fails, a number it has taken from
    the IDA is given back, and the numbers in use are what they were.
    When it returns a device, the device is zeroed but for the
    complete-ramdump flag, the mutex is released, and destroying the
    device frees the number again. *)
Theorem create_keeps_minor_only_on_success dev_name env st :
  let r := Registry.create_ramdump_device dev_name env st in
  match fst r with
  | Registry.RetDev minor rd =>
      minor = Registry.ida_simple_get env
      /\ 0 <= minor
      /\ rd = create_ramdump_device (Registry.parent_complete env)
      /\ Registry.rd_minor_id (snd r) = minor :: Registry.rd_minor_id st
      /\ Registry.rd_minor_mutex (snd r) = false
      /\ Registry.ramdump_devnode_inited (snd r) = true
      /\ Registry.rd_minor_id (Registry.destroy_ramdump_device minor (snd r))
         = Registry.rd_minor_id st
  | _ => Registry.rd_minor_id (snd r) = Registry.rd_minor_id st
  end.
Proof.
  unfold Registry.create_ramdump_device.
  destruct dev_name as [nm|]; [|exact eq_refl].
  destruct (Registry.rd_minor_mutex st) eqn:Mx; [exact eq_refl|].
  assert (T : forall st1,
             Registry.rd_minor_id st1 = Registry.rd_minor_id st ->
             Registry.ramdump_devnode_inited st1 = true ->
             let r :=
               (let st2 := Registry.set_mutex st1 false in
                if negb (Registry.kzalloc_dev env) then (Registry.RetNull, st2)
                else
                  let minor := Registry.ida_simple_get env in
                  if minor <? 0 then (Registry.RetErr (- Registry.ENODEV), st2)
                  else
                    let st3 :=
                      Registry.set_ids st2 (minor :: Registry.rd_minor_id st2) in
                    let rd := create_ramdump_device
                                (Registry.parent_complete env) in
                    if negb (Registry.device_create env =? 0) then
                      (Registry.RetErr (Registry.device_create env),
                       Registry.set_ids st3
                         (Registry.ida_simple_remove
                            (Registry.rd_minor_id st3) minor))
                    else if Registry.cdev_add env <? 0 then
                      (Registry.RetErr (Registry.cdev_add env),
                       Registry.set_ids st3
                         (Registry.ida_simple_remove
                            (Registry.rd_minor_id st3) minor))
                    else (Registry.RetDev minor rd, st3)) in
             match fst r with
             | Registry.RetDev minor rd =>
                 minor = Registry.ida_simple_get env
                 /\ 0 <= minor
                 /\ rd = create_ramdump_device (Registry.parent_complete env)
                 /\ Registry.rd_minor_id (snd r)
                    = minor :: Registry.rd_minor_id st
                 /\ Registry.rd_minor_mutex (snd r) = false
                 /\ Registry.ramdump_devnode_inited (snd r) = true
                 /\ Registry.rd_minor_id
                      (Registry.destroy_ramdump_device minor (snd r))
                    = Registry.rd_minor_id st
             | _ => Registry.rd_minor_id (snd r) = Registry.rd_minor_id st
             end).
  { intros st1 Ids In1; cbn zeta.
    destruct (Registry.kzalloc_dev env); cbn [negb]; [|exact Ids].
    destruct (Z.ltb_spec (Registry.ida_simple_get env) 0) as [L|L];
      [exact Ids|].
    destruct (Registry.device_create env =? 0); cbn [negb];
      [|simpl; rewrite Z.eqb_refl; exact Ids].
    destruct (Registry.cdev_add env <? 0);
      [simpl; rewrite Z.eqb_refl; exact Ids|].
    simpl; rewrite Z.eqb_refl, Ids.
    repeat split; assumption. }
  unfold Registry.ramdump_devnode_init.
  cbn [Registry.set_mutex Registry.ramdump_devnode_inited].
  destruct (Registry.ramdump_devnode_inited st) eqn:In; cbn [negb].
  - cbn [Z.eqb negb].
    apply (T (Registry.set_mutex st true)); [reflexivity|exact In].
  - destruct (Z.ltb_spec (Registry.alloc_chrdev_region env) 0) as [A|A].
    + replace (Registry.alloc_chrdev_region env =? 0) with false
        by (symmetry; apply Z.eqb_neq; lia).
      exact eq_refl.
    + cbn [Z.eqb negb].
      apply (T (Registry.set_inited (Registry.set_mutex st true) true));
        reflexivity.
Qed.

(** X18.  When the first call of [create_ramdump_device] cannot get its
    character device region, it returns the error without releasing
    [rd_minor_mutex]: the call leaves the mutex held and the
    initialisation undone, so that every later call with a name sleeps
    on the mutex. *)
Theorem create_init_failure_keeps_mutex nm env st :
  Registry.rd_minor_mutex st = false ->
  Registry.ramdump_devnode_inited st = false ->
  Registry.alloc_chrdev_region env < 0 ->
  let r := Registry.create_ramdump_device (Some nm) env st in
  fst r = Registry.RetErr (Registry.alloc_chrdev_region env)
  /\ Registry.rd_minor_mutex (snd r) = true
  /\ Registry.ramdump_devnode_inited (snd r) = false
  /\ forall nm' env',
       fst (Registry.create_ramdump_device (Some nm') env' (snd r))
       = Registry.Sleeps.
Proof.
  intros Mx In A.
  unfold Registry.create_ramdump_device, Registry.ramdump_devnode_init.
  rewrite Mx; cbn [Registry.set_mutex Registry.ramdump_devnode_inited].
  rewrite In; cbn [negb].
  replace (Registry.alloc_chrdev_region env <? 0) with true
    by (symmetry; apply Z.ltb_lt; exact A).
  replace (Registry.alloc_chrdev_region env =? 0) with false
    by (symmetry; apply Z.eqb_neq; lia).
  cbn [negb fst snd Registry.rd_minor_mutex Registry.ramdump_devnode_inited].
  repeat split; try exact In.
Qed.

Lemma create_init_failure_keeps_mutex_witness :
  let st := Scenario.fresh_registry in
  let env := Scenario.no_region in
  let r := Registry.create_ramdump_device (Some "modem"%string) env st in
  Registry.rd_minor_mutex st = false
  /\ Registry.ramdump_devnode_inited st = false
  /\ Registry.alloc_chrdev_region env < 0
  /\ fst r = Registry.RetErr (-16)
  /\ Registry.rd_minor_mutex (snd r) = true
  /\ Registry.ramdump_devnode_inited (snd r) = false
  /\ forall nm' env',
       fst (Registry.create_ramdump_device (Some nm') env' (snd r))
       = Registry.Sleeps.
Proof.
  intros st env r.
  assert (Mx : Registry.rd_minor_mutex st = false) by reflexivity.
  assert (In : Registry.ramdump_devnode_inited st = false) by reflexivity.
  assert (A : Registry.alloc_chrdev_region env < 0) by (simpl; lia).
  repeat (split; [assumption|]).
  exact (create_init_failure_keeps_mutex "modem"%string env st Mx In A).
Defined.

(** ** The start of a session and the values a dump returns *)

(** X19.  Whatever an earlier session left behind (a set abort flag, a
    signalled completion, a stale count), when a dump call goes to wait
    the session is set up anew: every consumer on the list is marked
    ready, so that its poll reports data, [abort_ramdump] is clear, the
    completion is not signalled, [ramdump_status] is -1 and
    [readers_left] is the number of consumers. *)
Theorem dump_starts_fresh_session c kz rd segs rd' segs' :
  registry_ok rd ->
  dump_prepare c kz rd segs = PrepWait rd' segs' ->
  (forall h, In h (handles rd) -> ramdump_poll h rd' = true)
  /\ handles rd' = handles rd
  /\ abort_ramdump rd' = false
  /\ ramdump_complete rd' = 0
  /\ ramdump_status rd' = -1
  /\ readers_left rd' = consumers rd
  /\ 0 < readers_left rd'.
Proof.
  intros R P.
  destruct (dump_prepare_wait _ _ _ _ _ _ P) as (NZ & rd0 & -> & L & C).
  destruct R as (ND & Cn & B).
  split.
  { intros h Hin; apply start_session_all_ready.
    unfold handles in *; rewrite L; exact Hin. }
  unfold handles, start_session; simpl.
  rewrite map_map, L, C, Cn, s32_small by lia.
  repeat split; lia.
Qed.

Lemma dump_starts_fresh_session_witness :
  let rd := set_abort_ramdump Scenario.two_consumers true in
  let segs := [Scenario.seg 4096 16] in
  let rd' := start_session (set_segments rd (Some segs) 1) in
  registry_ok rd
  /\ abort_ramdump rd = true
  /\ dump_prepare (CallRamdump false false) true rd segs = PrepWait rd' segs
  /\ (forall h, In h (handles rd) -> ramdump_poll h rd' = true)
  /\ handles rd' = handles rd
  /\ abort_ramdump rd' = false
  /\ ramdump_complete rd' = 0
  /\ ramdump_status rd' = -1
  /\ readers_left rd' = consumers rd
  /\ 0 < readers_left rd'.
Proof.
  intros rd segs rd'.
  assert (R : registry_ok rd).
  { split; [|split; [reflexivity|simpl; lia]].
    repeat constructor; simpl; intuition discriminate. }
  assert (P : dump_prepare (CallRamdump false false) true rd segs
              = PrepWait rd' segs) by (vm_compute; reflexivity).
  split; [exact R|split; [reflexivity|split; [exact P|]]].
  exact (dump_starts_fresh_session _ _ _ _ _ _ R P).
Defined.

(** X20.  The values a dump call returns: 0, [-EPIPE] or [-ENOMEM] and
    no other.  It returns [-ENOMEM] only when the header could not be
    allocated, which raw dumps do not try; and it returns 0 only on a
    device with consumers, when the completion was signalled with
    [ramdump_status] 0, never after a timeout. *)
Theorem dump_return_values c env rd segs ret :
  dr_out (dump c env rd segs) = DumpReturn ret ->
  (ret = 0 \/ ret = - EPIPE \/ ret = - ENOMEM)
  /\ (ret = - ENOMEM ->
      kzalloc_ok env = false /\ c <> CallRamdump false false
      /\ c <> CallRamdump false true)
  /\ (ret = 0 ->
      consumers rd <> 0
      /\ abort_ramdump (dr_dev (dump c env rd segs)) = false
      /\ ramdump_status (dr_dev (dump c env rd segs)) = 0).
Proof.
  rewrite dump_unfold.
  destruct (dump_prepare c (kzalloc_ok env) rd segs) as [r rd1 segs1| |rd1 segs1]
    eqn:P; cbn [finish_dump dr_out]; [|discriminate|].
  - intros H; inversion H; subst r; clear H.
    destruct c as [use_elf complete|]; simpl in P;
      unfold _do_ramdump_prepare, _do_minidump_prepare in P;
      destruct (consumers rd =? 0);
      try (inversion P; subst; unfold EPIPE, ENOMEM;
           repeat split; try lia; auto; fail).
    + destruct use_elf; [|discriminate].
      destruct (kzalloc_ok env); [discriminate|]; simpl in P.
      inversion P; subst; unfold ENOMEM.
      repeat split; try lia; auto; try discriminate.
    + destruct (kzalloc_ok env);
        [simpl in P; destruct (minidump_header segs _); discriminate|].
      simpl in P; inversion P; subst; unfold ENOMEM.
      repeat split; try lia; auto; try discriminate.
  - destruct (dump_prepare_wait _ _ _ _ _ _ P) as (NZ & rd0 & E0 & _).
    assert (A1 : abort_ramdump rd1 = false) by (rewrite E0; reflexivity).
    unfold wait_and_finish.
    destruct (run_events (during_wait env) rd1) as [[log rd2]|] eqn:E1;
      [|discriminate].
    pose proof (run_events_abort _ _ _ _ E1) as A2; rewrite A1 in A2.
    destruct (0 <? ramdump_complete rd2).
    + cbn [dr_out dr_dev]; intros H; inversion H; clear H.
      destruct (Z.eqb_spec (ramdump_status rd2) 0) as [S|S];
        simpl in *; unfold EPIPE, ENOMEM;
        repeat split; try lia; auto.
    + destruct (run_events (during_sync env) _) as [[log3 rd3]|];
        [|discriminate].
      cbn [dr_out]; intros H; inversion H; unfold EPIPE, ENOMEM.
      repeat split; try lia; auto.
Qed.

Lemma dump_return_values_witness :
  let c := CallRamdump true false in
  let env := Scenario.out_of_memory in
  let rd := Scenario.one_consumer in
  let segs := [Scenario.seg 4096 16] in
  dr_out (dump c env rd segs) = DumpReturn (- ENOMEM)
  /\ (- ENOMEM = 0 \/ - ENOMEM = - EPIPE \/ - ENOMEM = - ENOMEM)
  /\ (- ENOMEM = - ENOMEM ->
      kzalloc_ok env = false /\ c <> CallRamdump false false
      /\ c <> CallRamdump false true)
  /\ (- ENOMEM = 0 ->
      consumers rd <> 0
      /\ abort_ramdump (dr_dev (dump c env rd segs)) = false
      /\ ramdump_status (dr_dev (dump c env rd segs)) = 0).
Proof.
  intros c env rd segs.
  assert (H : dr_out (dump c env rd segs) = DumpReturn (- ENOMEM))
    by (vm_compute; reflexivity).
  split; [exact H|].
  exact (dump_return_values c env rd segs (- ENOMEM) H).
Defined.
